(** * compare-audio: a shallow embedding of [src/server/compare-audio.py]

    The analysis-and-comparison pipeline of the audio comparison tool,
    function by function.

    Modelling conventions.
    - A NumPy array of samples is a [list R]; Python and NumPy floats are
      real numbers, so rounding, overflow, NaN and Inf are outside the model.
      The one exception is the sample count of the resampler,
      [int(len(data) / sr_orig * sr_target)]: an integer that the two
      roundings of the double-precision quotient and product decide, so it
      is computed in binary64 ([SpecFloat], precision 53, [emax] 1024).
    - Lengths, sample rates and indices are [nat]; signed sample offsets and
      Python's floor division on possibly negative integers live in [Z].
    - A Python exception is the [Raise] outcome of the [result] monad; the
      model raises wherever Python, NumPy or SciPy raise on the same call
      ([np.max] of an empty array, integer division by zero, a filter of
      size zero, an FFT of zero points).
    - Library routines whose algorithm is not part of this repository
      ([soundfile.read], [signal.resample], [signal.find_peaks],
      [np.percentile], [np.argsort]) are the fields of the [Env] class;
      the simpler ones ([np.hanning], the FFT magnitudes, [rfftfreq], the
      [scipy.ndimage] filters) are written out from their definitions. *)

From Stdlib Require Import String.
From Stdlib Require Import Reals Lra Lia List ZArith Bool.
From Stdlib Require Import SpecFloat.
Import ListNotations.

Open Scope R_scope.

(** ** Exceptions *)

Inductive exn : Type :=
| ValueError
| ZeroDivisionError
| OverflowError
| RuntimeError.

Inductive result (A : Type) : Type :=
| Ok (a : A)
| Raise (e : exn).

Arguments Ok {A} a.
Arguments Raise {A} e.

Definition bind {A B : Type} (c : result A) (k : A -> result B) : result B :=
  match c with
  | Ok a => k a
  | Raise e => Raise e
  end.

Notation "x <- c ;; k" := (bind c (fun x => k))
  (at level 61, c at next level, right associativity).

(** ** Python and NumPy primitives *)

Definition Rgtb (a b : R) : bool := if Rgt_dec a b then true else false.
Definition Rltb (a b : R) : bool := if Rlt_dec a b then true else false.

(** [x ** y] on floats with a positive base. *)
Definition py_pow (x y : R) : R := Rpower x y.

(** [int(x)]: truncation toward zero. *)
Definition py_int (x : R) : Z :=
  if Rle_dec 0 x then Int_part x else (- Int_part (- x))%Z.

(** [np.log10]. *)
Definition np_log10 (x : R) : R := ln x / ln 10.

Definition np_abs (a : list R) : list R := map Rabs a.

Definition np_sum (a : list R) : R := fold_right Rplus 0 a.

(** [np.max]: a reduction without identity, it raises on an empty array. *)
Definition np_max (a : list R) : result R :=
  match a with
  | [] => Raise ValueError
  | x :: t => Ok (fold_left Rmax t x)
  end.

(** [np.mean]. NumPy answers NaN (with a warning) on an empty array; every
    call site below is reached with a non-empty array only. *)
Definition np_mean (a : list R) : R := np_sum a / INR (length a).

Definition np_square (a : list R) : list R := map (fun x => x * x) a.

(** [np.where(mask)[0]]: the indices at which the mask holds, increasing. *)
Fixpoint where_from (i : nat) (mask : list bool) : list nat :=
  match mask with
  | [] => []
  | b :: t => if b then i :: where_from (S i) t else where_from (S i) t
  end.

Definition np_where (mask : list bool) : list nat := where_from 0 mask.

(** [a[lo:hi]] for non-negative bounds. *)
Definition slice (a : list R) (lo hi : nat) : list R :=
  firstn (hi - lo) (skipn lo a).

(** ** Alignment by first transient *)

Definition find_first_transient_default_threshold_db : R := -40.

Definition find_first_transient
    (data : list R) (sample_rate : nat) (threshold_db : R) : nat :=
  let threshold_linear := py_pow 10 (threshold_db / 20) in
  let above :=
    np_where (map (fun x => Rgtb (Rabs x) threshold_linear) data) in
  match above with
  | i :: _ => i
  | [] => 0%nat
  end.

(** The default of the [threshold_db] parameter (that of [sample_rate] is
    48000). *)
Definition find_alignment_offset_by_transient_default_threshold_db : R :=
  -40.

Definition find_alignment_offset_by_transient
    (ref target : list R) (sample_rate : nat) (threshold_db : R)
    : result (Z * R) :=
  let first_ref := find_first_transient ref sample_rate threshold_db in
  let first_target := find_first_transient target sample_rate threshold_db in
  let offset := (Z.of_nat first_target - Z.of_nat first_ref)%Z in
  let threshold_linear := py_pow 10 (threshold_db / 20) in
  ref_peak <-
    (if (sample_rate <? length ref)%nat
     then np_max (np_abs (firstn sample_rate ref))
     else np_max (np_abs ref)) ;;
  target_peak <-
    (if (sample_rate <? length target)%nat
     then np_max (np_abs (firstn sample_rate target))
     else np_max (np_abs target)) ;;
  let confidence :=
    Rmin (Rmin (ref_peak / threshold_linear) (target_peak / threshold_linear))
         10 / 10 in
  Ok (offset, confidence).

(** ** External routines

    [sf_read] is [soundfile.read]: it decodes a file into its samples, a
    one-dimensional array for a mono file and an array of frames (one row
    of channel values per frame) otherwise, and its sample rate; it raises
    on a file it cannot read.  The other fields are the SciPy and NumPy
    routines the pipeline calls and whose algorithms live outside this
    repository.  [signal.find_peaks] takes the minimal height and the
    optional minimal distance; [signal.resample x num] answers [num]
    samples when it answers, which it does for a non-empty [x] and a
    positive [num] (its forward transform refuses an input of zero points
    and its inverse transform an output of zero points; nothing is assumed
    about these two cases). *)

Inductive ndarray : Type :=
| Array1 (samples : list R)
| Array2 (frames : list (list R)).

Class Env : Type := {
  sf_read : String.string -> result (ndarray * nat);
  signal_resample : list R -> nat -> result (list R);
  signal_resample_length :
    forall x num out, signal_resample x num = Ok out -> length out = num;
  signal_resample_defined :
    forall x num, x <> [] -> num <> 0%nat ->
    exists out, signal_resample x num = Ok out;
  signal_find_peaks : list R -> R -> option nat -> list nat;
  np_percentile : list R -> R -> R;
  np_argsort : list R -> list nat
}.

(** A plain peak finder: the strict local maxima that reach the height,
    with neither plateaus nor a minimal distance.  On a sequence whose peaks
    are strict and at least the minimal distance apart it reports what
    [signal.find_peaks] reports. *)
Definition is_plain_peak (x : list R) (height : R) (i : nat) : bool :=
  match i with
  | O => false
  | S j =>
    (S i <? length x)%nat
    && Rltb (nth j x 0) (nth i x 0)
    && Rltb (nth (S i) x 0) (nth i x 0)
    && negb (Rltb (nth i x 0) height)
  end.

Definition plain_find_peaks (x : list R) (height : R) : list nat :=
  np_where (map (is_plain_peak x height) (seq 0 (length x))).

(** A resampler of the right shape for closed examples: [num] zero samples
    for a non-empty input and a positive [num], an error otherwise. *)
Definition placeholder_resample (x : list R) (num : nat)
    : result (list R) :=
  match x, num with
  | [], _ => Raise ValueError
  | _ :: _, O => Raise ValueError
  | _ :: _, S _ => Ok (repeat 0 num)
  end.

Definition placeholder_resample_length (x : list R) (num : nat)
    (out : list R) :
  placeholder_resample x num = Ok out -> length out = num.
Proof.
  destruct x as [| x0 x]; [discriminate |].
  destruct num as [| k]; [discriminate |].
  intros Hout. injection Hout as <-. exact (repeat_length 0 (S k)).
Qed.

Definition placeholder_resample_defined (x : list R) (num : nat) :
  x <> [] -> num <> 0%nat -> exists out, placeholder_resample x num = Ok out.
Proof.
  intros Hx Hnum.
  destruct x as [| x0 x]; [contradiction |].
  destruct num as [| k]; [contradiction |].
  eexists. reflexivity.
Qed.

(** An environment for closed examples: the named files hold the given
    buffers, the peak finder is the plain one, and the other library
    routines are placeholders of the right shape (the resampler above, a
    constant percentile, the identity ordering), which no example depends
    on. *)
Definition example_env
    (files : String.string -> result (ndarray * nat)) : Env :=
  {| sf_read := files;
     signal_resample := placeholder_resample;
     signal_resample_length := placeholder_resample_length;
     signal_resample_defined := placeholder_resample_defined;
     signal_find_peaks := fun x height _ => plain_find_peaks x height;
     np_percentile := fun _ _ => 0;
     np_argsort := fun x => seq 0 (length x) |}.

Definition no_files : String.string -> result (ndarray * nat) :=
  fun _ => Raise RuntimeError.

(** ** Loading *)

Definition load_audio `{E : Env} (path : String.string)
    : result (list R * nat) :=
  read <- sf_read path ;;
  let sr := snd read in
  let data :=
    match fst read with
    | Array1 samples => samples
    | Array2 frames => map np_mean frames
    end in
  Ok (data, sr).

(** [a / b] on Python integers: true division, raising on a zero divisor. *)
Definition py_truediv_nat (a b : nat) : result R :=
  if (b =? 0)%nat then Raise ZeroDivisionError else Ok (INR a / INR b).

(** [a // b] on Python integers: floor division, raising on a zero divisor. *)
Definition py_floordiv (a b : Z) : result Z :=
  if (b =? 0)%Z then Raise ZeroDivisionError else Ok (a / b)%Z.

(** ** Resampler *)

(** A Python integer as an operand of the integer quotient: the mantissa
    [n] with exponent 0, not yet rounded to 53 bits, since [a / b] on
    integers rounds once, at the quotient. *)
Definition exact_int (n : nat) : spec_float :=
  match n with
  | O => S754_zero false
  | S _ => S754_finite false (Pos.of_nat n) 0
  end.

(** [a / b] on Python integers, as the float it is: the correctly rounded
    quotient, ZeroDivisionError on a zero divisor, OverflowError on a
    quotient beyond the doubles. *)
Definition py_truediv_binary64 (a b : nat) : result spec_float :=
  if (b =? 0)%nat then Raise ZeroDivisionError
  else
    match SFdiv 53 1024 (exact_int a) (exact_int b) with
    | S754_infinity _ => Raise OverflowError
    | q => Ok q
    end.

(** [float(n)], the conversion Python applies to the integer operand of a
    mixed product: the nearest double, OverflowError beyond the doubles. *)
Definition py_float_of_int (n : nat) : result spec_float :=
  match binary_normalize 53 1024 (Z.of_nat n) 0 false with
  | S754_infinity _ => Raise OverflowError
  | x => Ok x
  end.

(** [x * n] for a float [x] and a Python integer [n]. *)
Definition py_mul_float_int (x : spec_float) (n : nat) : result spec_float :=
  y <- py_float_of_int n ;;
  Ok (SFmul 53 1024 x y).

(** [int(x)] on a float: truncation toward zero, OverflowError on an
    infinity and ValueError on a NaN. *)
Definition py_int_binary64 (x : spec_float) : result Z :=
  match x with
  | S754_nan => Raise ValueError
  | S754_infinity _ => Raise OverflowError
  | S754_zero _ => Ok 0%Z
  | S754_finite s m e =>
    let magnitude := Z.shiftl (Zpos m) e in
    Ok (if s then (- magnitude)%Z else magnitude)
  end.

(** Lines 155-156: [duration] and [new_length]. *)
Definition resample_new_length (len sr_orig sr_target : nat) : result Z :=
  duration <- py_truediv_binary64 len sr_orig ;;
  scaled <- py_mul_float_int duration sr_target ;;
  py_int_binary64 scaled.

Definition resample_if_needed `{E : Env}
    (data : list R) (sr_orig sr_target : nat) : result (list R) :=
  if (sr_orig =? sr_target)%nat then Ok data
  else
    new_length <- resample_new_length (length data) sr_orig sr_target ;;
    signal_resample data (Z.to_nat new_length).

(** The real number a finite double stands for. *)
Definition binary64_value (x : spec_float) : R :=
  match x with
  | S754_finite s m e =>
    (if s then -1 else 1) * IZR (Zpos m) * powerRZ 2 e
  | _ => 0
  end.

(** A double that is a zero or a positive finite number: what a quotient
    or a product of non-negative operands is when it is not an infinity. *)
Definition nonneg_finite (x : spec_float) : Prop :=
  match x with
  | S754_zero false | S754_finite false _ _ => True
  | _ => False
  end.

(** A non-negative double below [2 ^ M] whose exponent is at most [E]. *)
Definition sized (E M : Z) (x : spec_float) : Prop :=
  match x with
  | S754_zero false => True
  | S754_finite false m e => (e <= E)%Z /\ (Zdigits2 (Z.pos m) + e <= M)%Z
  | _ => False
  end.

(** Python's [round] to the nearest integer, ties to even: the rounding
    the Resampler contract is worded with, kept here to be compared with
    the truncation of [resample_if_needed]. *)
Definition py_round (x : R) : Z :=
  let f := Int_part x in
  let d := x - IZR f in
  if Rltb d 0.5 then f
  else if Rgtb d 0.5 then (f + 1)%Z
  else if Z.even f then f else (f + 1)%Z.

(** ** Amplitude analyzer *)

Record AmplitudeStats : Type := {
  peak_linear : R;
  peak_db : R;
  rms_linear : R;
  rms_db : R;
  crest_factor_db : R;
  dynamic_range_db : R;
  dc_offset : R
}.

(** Lines 287-306: the dynamic range over the 100 ms windows that are not
    silent. *)
Definition window_rms_values
    (data : list R) (window_size num_windows : nat) (silence_threshold_db : R)
    : list R :=
  let w_rms (i : nat) :=
    sqrt (np_mean (np_square
      (slice data (i * window_size) ((i + 1) * window_size)))) in
  filter (fun w => Rgtb w (py_pow 10 (silence_threshold_db / 20)))
         (map w_rms (seq 0 num_windows)).

Definition dynamic_range_of `{E : Env}
    (data : list R) (sample_rate : nat) (silence_threshold_db : R)
    : result R :=
  let window_size := Z.to_nat (py_int (0.1 * INR sample_rate)) in
  if (window_size <=? length data)%nat then
    num_windows <-
      py_floordiv (Z.of_nat (length data)) (Z.of_nat window_size) ;;
    let window_rms :=
      window_rms_values data window_size (Z.to_nat num_windows)
        silence_threshold_db in
    if (2 <=? length window_rms)%nat then
      let loud := np_percentile window_rms 90 in
      let quiet := np_percentile window_rms 10 in
      Ok (20 * np_log10 (Rmax loud 1e-10 / Rmax quiet 1e-10))
    else Ok 0
  else Ok 0.

Definition calculate_amplitude_stats `{E : Env}
    (data : list R) (sample_rate : nat) (silence_threshold_db : R)
    : result AmplitudeStats :=
  peak <- np_max (np_abs data) ;;
  let peak_db := 20 * np_log10 (Rmax peak 1e-10) in
  let rms := sqrt (np_mean (np_square data)) in
  let rms_db := 20 * np_log10 (Rmax rms 1e-10) in
  let crest_db := peak_db - rms_db in
  let dc_offset := np_mean data in
  dynamic_range <- dynamic_range_of data sample_rate silence_threshold_db ;;
  Ok {| peak_linear := peak;
        peak_db := peak_db;
        rms_linear := rms;
        rms_db := rms_db;
        crest_factor_db := crest_db;
        dynamic_range_db := dynamic_range;
        dc_offset := dc_offset |}.

(** ** Spectral analyzer *)

Record SpectralStats : Type := {
  centroid_hz : R;
  bandwidth_hz : R;
  rolloff_hz : R;
  flatness : R;
  dominant_freqs : list R
}.

(** [np.hanning(M)]. *)
Definition np_hanning (M : nat) : list R :=
  match M with
  | O => []
  | S O => [1]
  | _ => map (fun n => 0.5 - 0.5 * cos (2 * PI * INR n / INR (M - 1)))
             (seq 0 M)
  end.

(** Real and imaginary part of bin [k] of the discrete Fourier transform. *)
Definition dft_re (x : list R) (k : nat) : R :=
  np_sum (map (fun p => snd p * cos (2 * PI * INR k * INR (fst p)
                                     / INR (length x)))
              (combine (seq 0 (length x)) x)).

Definition dft_im (x : list R) (k : nat) : R :=
  - np_sum (map (fun p => snd p * sin (2 * PI * INR k * INR (fst p)
                                       / INR (length x)))
                (combine (seq 0 (length x)) x)).

(** [np.abs(rfft(x))]: the magnitudes of bins [0 .. n // 2]; SciPy refuses
    a transform of zero points. *)
Definition rfft_abs (x : list R) : result (list R) :=
  match x with
  | [] => Raise ValueError
  | _ =>
    Ok (map (fun k => sqrt (dft_re x k * dft_re x k + dft_im x k * dft_im x k))
            (seq 0 (length x / 2 + 1)))
  end.

(** [rfftfreq(n, d)]: [arange(n // 2 + 1) * (1.0 / (n * d))]. *)
Definition rfftfreq (n : nat) (d : R) : result (list R) :=
  if (n =? 0)%nat then Raise ZeroDivisionError
  else
    let val := 1 / (INR n * d) in
    Ok (map (fun k => INR k * val) (seq 0 (n / 2 + 1))).

Fixpoint np_cumsum_from (acc : R) (a : list R) : list R :=
  match a with
  | [] => []
  | x :: t => (acc + x) :: np_cumsum_from (acc + x) t
  end.

Definition np_cumsum (a : list R) : list R := np_cumsum_from 0 a.

(** [np.searchsorted(a, v)] on an ascending array: the first index whose
    element is not below [v]. *)
Fixpoint np_searchsorted (a : list R) (v : R) : nat :=
  match a with
  | [] => 0%nat
  | x :: t => if Rltb x v then S (np_searchsorted t v) else 0%nat
  end.

Definition zip_with (f : R -> R -> R) (a b : list R) : list R :=
  map (fun p => f (fst p) (snd p)) (combine a b).

Definition spectral_silence : SpectralStats :=
  {| centroid_hz := 0; bandwidth_hz := 0; rolloff_hz := 0; flatness := 0;
     dominant_freqs := [] |}.

(** Lines 321-340: the centred segment, its Hann-windowed magnitude spectrum
    without the DC bin, and the matching frequencies. *)
Definition spectral_segment (data : list R) (sample_rate : nat) : list R :=
  let segment_len := Nat.min (length data) (sample_rate * 2) in
  let start := ((length data - segment_len) / 2)%nat in
  slice data start (start + segment_len).

Definition spectrum_and_freqs (data : list R) (sample_rate : nat)
    : result (list R * list R) :=
  let segment := spectral_segment data sample_rate in
  let window := np_hanning (length segment) in
  let windowed := zip_with Rmult segment window in
  spectrum <- rfft_abs windowed ;;
  d <- py_truediv_nat 1 sample_rate ;;
  freqs <- rfftfreq (length windowed) d ;;
  Ok (tl spectrum, tl freqs).

Definition calculate_spectral_stats `{E : Env}
    (data : list R) (sample_rate : nat) : result SpectralStats :=
  sf <- spectrum_and_freqs data sample_rate ;;
  let spectrum := fst sf in
  let freqs := snd sf in
  let power := np_square spectrum in
  let total_power := np_sum power in
  if Rltb total_power 1e-10 then Ok spectral_silence
  else
    let centroid := np_sum (zip_with Rmult freqs power) / total_power in
    let bandwidth :=
      sqrt (np_sum (zip_with Rmult
                      (map (fun f => (f - centroid) * (f - centroid)) freqs)
                      power)
            / total_power) in
    let cumsum := np_cumsum power in
    let rolloff_idx := np_searchsorted cumsum (0.85 * total_power) in
    let rolloff := nth (Nat.min rolloff_idx (length freqs - 1)) freqs 0 in
    let log_spectrum := map (fun s => ln (s + 1e-10)) spectrum in
    let geometric_mean := exp (np_mean log_spectrum) in
    let arithmetic_mean := np_mean spectrum in
    let flatness := geometric_mean / (arithmetic_mean + 1e-10) in
    top <- np_max spectrum ;;
    let peak_indices := signal_find_peaks spectrum (top * 0.1) None in
    let peak_freqs := map (fun i => nth i freqs 0) peak_indices in
    let peak_mags := map (fun i => nth i spectrum 0) peak_indices in
    let sorted_idx := firstn 5 (rev (np_argsort peak_mags)) in
    let dominant_freqs :=
      map (fun i => nth i peak_freqs 0)
          (filter (fun i => (i <? length peak_freqs)%nat) sorted_idx) in
    Ok {| centroid_hz := centroid;
          bandwidth_hz := bandwidth;
          rolloff_hz := rolloff;
          flatness := flatness;
          dominant_freqs := dominant_freqs |}.

(** ** Envelope extractor *)

(** SciPy's [mode='reflect'] boundary: the input is extended by reflecting
    about the edge of the last pixel, [d c b a | a b c d | d c b a]. *)
Definition reflect_index (n : nat) (m : Z) : nat :=
  let r := (m mod (2 * Z.of_nat n))%Z in
  if (r <? Z.of_nat n)%Z then Z.to_nat r
  else Z.to_nat (2 * Z.of_nat n - 1 - r).

(** The [size] input samples under the filter centred at [i] (origin 0):
    indices [i - size // 2 .. i - size // 2 + size - 1]. *)
Definition filter_window (input : list R) (size i : nat) : list R :=
  map (fun j =>
         nth (reflect_index (length input)
                (Z.of_nat i - Z.of_nat (size / 2) + Z.of_nat j))
             input 0)
      (seq 0 size).

Definition window_max (w : list R) : R :=
  match w with
  | [] => 0
  | x :: t => fold_left Rmax t x
  end.

(** [scipy.ndimage.maximum_filter1d(input, size)]. *)
Definition maximum_filter1d (input : list R) (size : Z) : result (list R) :=
  if (size <? 1)%Z then Raise RuntimeError
  else
    Ok (map (fun i => window_max (filter_window input (Z.to_nat size) i))
            (seq 0 (length input))).

(** [scipy.ndimage.uniform_filter1d(input, size)]. *)
Definition uniform_filter1d (input : list R) (size : Z) : result (list R) :=
  if (size <? 1)%Z then Raise RuntimeError
  else
    Ok (map (fun i => np_sum (filter_window input (Z.to_nat size) i)
                      / IZR size)
            (seq 0 (length input))).

(** [a[::step]], reached with a positive step only. *)
Definition stride (a : list R) (step : Z) : result (list R) :=
  if (step =? 0)%Z then Raise ValueError
  else
    let d := Z.to_nat step in
    Ok (map (fun i => nth (i * d) a 0) (seq 0 ((length a + d - 1) / d))).

Definition calculate_envelope_default_window_ms : R := 10.

Definition calculate_envelope
    (data : list R) (sample_rate : nat) (window_ms : R) : result (list R) :=
  let window_samples := py_int (window_ms * INR sample_rate / 1000) in
  let abs_data := np_abs data in
  envelope <- maximum_filter1d abs_data window_samples ;;
  envelope <- uniform_filter1d envelope window_samples ;;
  let downsample := window_samples in
  stride envelope downsample.

Record EnvelopeStats : Type := {
  attack_time_ms : R;
  decay_time_ms : R;
  sustain_level : R;
  release_time_ms : R
}.

Definition envelope_silence : EnvelopeStats :=
  {| attack_time_ms := 0; decay_time_ms := 0; sustain_level := 0;
     release_time_ms := 0 |}.

Fixpoint argmax_from (best_i : nat) (best : R) (i : nat) (a : list R) : nat :=
  match a with
  | [] => best_i
  | x :: t =>
    if Rgtb x best then argmax_from i x (S i) t
    else argmax_from best_i best (S i) t
  end.

(** [np.argmax]: the first index of the maximum. *)
Definition np_argmax (a : list R) : result nat :=
  match a with
  | [] => Raise ValueError
  | x :: t => Ok (argmax_from 0 x 1 t)
  end.

(** The loop of lines 448-451: the start of the last run of consecutive
    indices. *)
Fixpoint last_run_start (sound_end : nat) (below : list nat) : nat :=
  match below with
  | b :: ((b' :: _) as t) =>
    if (1 <? b' - b)%nat then last_run_start b' t
    else last_run_start sound_end t
  | _ => sound_end
  end.

Definition py_truediv (a b : R) : result R :=
  if Req_dec_T b 0 then Raise ZeroDivisionError else Ok (a / b).

Definition calculate_envelope_stats
    (data : list R) (sample_rate : nat) (silence_threshold_db : R)
    : result EnvelopeStats :=
  envelope <- calculate_envelope data sample_rate 5 ;;
  env_sr <- py_truediv (INR sample_rate) (5 * INR sample_rate / 1000) ;;
  if (length envelope =? 0)%nat then Ok envelope_silence
  else
    peak <- np_max envelope ;;
    if Rltb peak 1e-10 then Ok envelope_silence
    else
      let norm_env := map (fun e => e / peak) envelope in
      peak_idx <- np_argmax norm_env ;;
      let attack_threshold := 0.9 in
      let attack_indices :=
        np_where (map (fun e => Rltb e attack_threshold)
                      (firstn peak_idx norm_env)) in
      let attack_time_ms :=
        match rev attack_indices with
        | attack_start :: _ => INR (peak_idx - attack_start) * 5
        | [] => INR peak_idx * 5
        end in
      let sustain_level :=
        if (4 <? length norm_env)%nat then
          let quarter := (length norm_env / 4)%nat in
          np_mean (slice norm_env quarter (3 * quarter))
        else np_mean norm_env in
      let silence_linear := py_pow 10 (silence_threshold_db / 20) in
      let release_threshold := Rmax (silence_linear / peak) 0.01 in
      let below_threshold :=
        np_where (map (fun e => Rltb e release_threshold) norm_env) in
      let release_time_ms :=
        match below_threshold with
        | b0 :: _ =>
          let sound_end := last_run_start b0 below_threshold in
          if (peak_idx <? sound_end)%nat then INR (sound_end - peak_idx) * 5
          else 0
        | [] => INR (length norm_env - peak_idx) * 5
        end in
      let decay_time_ms :=
        if Rltb sustain_level 0.9 then
          match np_where (map (fun e => Rltb e (sustain_level + 0.1))
                              (skipn peak_idx norm_env)) with
          | d :: _ => INR d * 5
          | [] => 0
          end
        else 0 in
      Ok {| attack_time_ms := attack_time_ms;
            decay_time_ms := decay_time_ms;
            sustain_level := sustain_level;
            release_time_ms := release_time_ms |}.

(** ** Transient detector *)

Record TimingStats : Type := {
  first_transient_ms : R;
  num_transients : nat;
  transient_times_ms : list R
}.

(** [np.diff]. *)
Fixpoint np_diff (a : list R) : list R :=
  match a with
  | x :: ((y :: _) as t) => (y - x) :: np_diff t
  | _ => []
  end.

(** Lines 483-506: the normalised onset strength of the frame energies, or
    [None] when the buffer is shorter than one analysis window. *)
Definition onset_strength (data : list R) (sample_rate : nat)
    : result (option (list R)) :=
  let hop_length := py_int (0.01 * INR sample_rate) in
  let window_length := py_int (0.025 * INR sample_rate) in
  q <- py_floordiv (Z.of_nat (length data) - window_length) hop_length ;;
  let num_frames := (q + 1)%Z in
  if (num_frames <=? 0)%Z then Ok None
  else
    let energies :=
      map (fun i =>
             let start := (i * Z.to_nat hop_length)%nat in
             np_sum (np_square
               (slice data start (start + Z.to_nat window_length))))
          (seq 0 (Z.to_nat num_frames)) in
    let onset := map (fun d => Rmax d 0) (np_diff energies) in
    top <- np_max onset ;;
    Ok (Some (if Rgtb top 0 then map (fun o => o / top) onset else onset)).

Definition detect_transients `{E : Env}
    (data : list R) (sample_rate : nat) (threshold_db : R)
    : result TimingStats :=
  let hop_length := py_int (0.01 * INR sample_rate) in
  os <- onset_strength data sample_rate ;;
  match os with
  | None =>
    Ok {| first_transient_ms := 0; num_transients := 0;
          transient_times_ms := [] |}
  | Some onset =>
    let threshold_linear := py_pow 10 (threshold_db / 20) in
    let min_distance := py_int (0.05 * INR sample_rate / IZR hop_length) in
    let peaks :=
      signal_find_peaks onset 0.1
        (Some (Z.to_nat (Z.max 1 min_distance))) in
    let transient_times_ms :=
      map (fun p => INR p * IZR hop_length / INR sample_rate * 1000) peaks in
    let abs_data := np_abs data in
    let first_above :=
      np_where (map (fun x => Rgtb x threshold_linear) abs_data) in
    let first_transient_ms :=
      match first_above with
      | i :: _ => INR i / INR sample_rate * 1000
      | [] => 0
      end in
    Ok {| first_transient_ms := first_transient_ms;
          num_transients := length peaks;
          transient_times_ms := firstn 20 transient_times_ms |}
  end.

(** ** Correlation engine *)

(** Lines 534-556.  On real numbers a constant buffer centres to exactly 0;
    in floating point the rounded mean can leave a residual of the order of
    the rounding error, which the floor on the denominator does not always
    catch.  A silent buffer centres to exactly 0 in both. *)
Definition calculate_correlation (a b : list R) : R :=
  let min_len := Nat.min (length a) (length b) in
  let a' := if (length a =? length b)%nat then a else firstn min_len a in
  let b' := if (length a =? length b)%nat then b else firstn min_len b in
  if (length a' =? 0)%nat then 0
  else
    let a_mean := np_mean a' in
    let b_mean := np_mean b' in
    let a_centered := map (fun x => x - a_mean) a' in
    let b_centered := map (fun x => x - b_mean) b' in
    let num := np_sum (zip_with Rmult a_centered b_centered) in
    let den :=
      sqrt (np_sum (np_square a_centered) * np_sum (np_square b_centered)) in
    if Rltb den 1e-10 then 0 else num / den.

(** The denominator [den] of [calculate_correlation]. *)
Definition pearson_denominator (a b : list R) : R :=
  let min_len := Nat.min (length a) (length b) in
  let a' := if (length a =? length b)%nat then a else firstn min_len a in
  let b' := if (length a =? length b)%nat then b else firstn min_len b in
  let a_centered := map (fun x => x - np_mean a') a' in
  let b_centered := map (fun x => x - np_mean b') b' in
  sqrt (np_sum (np_square a_centered) * np_sum (np_square b_centered)).

Definition calculate_spectral_correlation
    (data1 data2 : list R) (sample_rate : nat) : result R :=
  let min_len := Nat.min (length data1) (length data2) in
  let segment_len := Nat.min min_len sample_rate in
  spec1 <- rfft_abs (firstn segment_len data1) ;;
  spec2 <- rfft_abs (firstn segment_len data2) ;;
  Ok (calculate_correlation spec1 spec2).

(** ** Comparison result, similarity scorer and issue detector *)

(** The issue strings of [detect_issues], by the rule that emits them and
    the value the message cites. *)
Inductive Issue : Type :=
| PeakLevelDiffers (db : R)
| RmsLevelDiffers (db : R)
| TimingOffsetDetected (ms : R)
| FirstTransientDiffers (ms : R)
| SpectralCentroidDiffers (hz : R)
| LowWaveformCorrelation (c : R)
| LowSpectralCorrelation (c : R)
| File1DcOffset (dc : R)
| File2DcOffset (dc : R).

Record ComparisonResult : Type := {
  file1 : String.string;
  file2 : String.string;
  sample_rate : nat;
  duration1_s : R;
  duration2_s : R;
  aligned : bool;
  alignment_offset_ms : R;
  alignment_correlation : R;
  amplitude1 : AmplitudeStats;
  amplitude2 : AmplitudeStats;
  spectral1 : SpectralStats;
  spectral2 : SpectralStats;
  timing1 : TimingStats;
  timing2 : TimingStats;
  peak_diff_db : R;
  rms_diff_db : R;
  spectral_centroid_diff_hz : R;
  waveform_correlation : R;
  envelope_correlation : R;
  spectral_correlation : R;
  similarity_score : R;
  issues : list Issue
}.

(** Python's [sum]: left to right, from 0. *)
Definition py_sum (a : list R) : R := fold_left Rplus a 0.

Definition calculate_similarity_score (result : ComparisonResult) : R :=
  let scores := [] in
  let weights := [] in
  let scores := scores ++ [Rmax 0 (waveform_correlation result) * 100] in
  let weights := weights ++ [3.0] in
  let scores := scores ++ [Rmax 0 (envelope_correlation result) * 100] in
  let weights := weights ++ [2.0] in
  let scores := scores ++ [Rmax 0 (spectral_correlation result) * 100] in
  let weights := weights ++ [2.0] in
  let rms_score :=
    Rmax 0 (100 - Rabs (rms_diff_db result) * (100 / 12)) in
  let scores := scores ++ [rms_score] in
  let weights := weights ++ [1.5] in
  let peak_score :=
    Rmax 0 (100 - Rabs (peak_diff_db result) * (100 / 12)) in
  let scores := scores ++ [peak_score] in
  let weights := weights ++ [1.0] in
  let centroid_score :=
    Rmax 0 (100 - Rabs (spectral_centroid_diff_hz result) * (100 / 1000)) in
  let scores := scores ++ [centroid_score] in
  let weights := weights ++ [1.0] in
  let align_score := Rmax 0 (alignment_correlation result) * 100 in
  let scores :=
    if aligned result then scores ++ [align_score] else scores in
  let weights := if aligned result then weights ++ [0.5] else weights in
  let total_weight := py_sum weights in
  let weighted_sum :=
    py_sum (map (fun sw => fst sw * snd sw) (combine scores weights)) in
  weighted_sum / total_weight.

Definition detect_issues (result : ComparisonResult) : list Issue :=
  let timing_diff :=
    Rabs (first_transient_ms (timing1 result)
          - first_transient_ms (timing2 result)) in
  (if Rgtb (Rabs (peak_diff_db result)) 3
   then [PeakLevelDiffers (peak_diff_db result)] else [])
  ++ (if Rgtb (Rabs (rms_diff_db result)) 3
      then [RmsLevelDiffers (rms_diff_db result)] else [])
  ++ (if aligned result && Rgtb (Rabs (alignment_offset_ms result)) 10
      then [TimingOffsetDetected (alignment_offset_ms result)] else [])
  ++ (if Rgtb timing_diff 20 then [FirstTransientDiffers timing_diff] else [])
  ++ (if Rgtb (Rabs (spectral_centroid_diff_hz result)) 200
      then [SpectralCentroidDiffers (spectral_centroid_diff_hz result)]
      else [])
  ++ (if Rltb (waveform_correlation result) 0.8
      then [LowWaveformCorrelation (waveform_correlation result)] else [])
  ++ (if Rltb (spectral_correlation result) 0.9
      then [LowSpectralCorrelation (spectral_correlation result)] else [])
  ++ (if Rgtb (Rabs (dc_offset (amplitude1 result))) 0.01
      then [File1DcOffset (dc_offset (amplitude1 result))] else [])
  ++ (if Rgtb (Rabs (dc_offset (amplitude2 result))) 0.01
      then [File2DcOffset (dc_offset (amplitude2 result))] else []).

(** ** Orchestrator *)

(** What lines 698-751 of [compare_audio] leave behind: the buffers the
    per-file analyzers are then given ([data1], [data2]), the second
    duration, the alignment outcome and the aligned views the correlations
    are then computed on. *)
Record Views : Type := {
  data1 : list R;
  data2 : list R;
  duration2 : R;
  offset_ms : R;
  align_corr : R;
  data1_aligned : list R;
  data2_aligned : list R
}.

(** Lines 698-742: alignment and trimming. *)
Definition align_views
    (data1 data2 : list R) (target_sr : nat) (duration2 : R)
    (align trim : bool) (silence_threshold_db : R) : result Views :=
  if align then
    oc <- find_alignment_offset_by_transient
            data1 data2 target_sr silence_threshold_db ;;
    let offset := fst oc in
    let align_corr := snd oc in
    q <- py_truediv (IZR offset) (INR target_sr) ;;
    let offset_ms := q * 1000 in
    let data2_aligned :=
      if (0 <? offset)%Z then skipn (Z.to_nat offset) data2 else data2 in
    let data1_aligned :=
      if (0 <? offset)%Z then data1
      else if (offset <? 0)%Z then skipn (Z.to_nat (- offset)) data1
      else data1 in
    let min_len := Nat.min (length data1_aligned) (length data2_aligned) in
    let data1_aligned := firstn min_len data1_aligned in
    let data2_aligned := firstn min_len data2_aligned in
    if trim then
      let target_len := length data1 in
      let data1_aligned := firstn target_len data1_aligned in
      let data2_aligned := firstn target_len data2_aligned in
      let data2 :=
        if (0 <? offset)%Z
        then slice data2 (Z.to_nat offset) (Z.to_nat offset + target_len)
        else data2 in
      duration2 <- py_truediv_nat (length data2) target_sr ;;
      Ok {| data1 := data1; data2 := data2; duration2 := duration2;
            offset_ms := offset_ms; align_corr := align_corr;
            data1_aligned := data1_aligned;
            data2_aligned := data2_aligned |}
    else
      Ok {| data1 := data1; data2 := data2; duration2 := duration2;
            offset_ms := offset_ms; align_corr := align_corr;
            data1_aligned := data1_aligned;
            data2_aligned := data2_aligned |}
  else
    let min_len := Nat.min (length data1) (length data2) in
    Ok {| data1 := data1; data2 := data2; duration2 := duration2;
          offset_ms := 0; align_corr := 0;
          data1_aligned := firstn min_len data1;
          data2_aligned := firstn min_len data2 |}.

(** Lines 744-751: peak normalisation of the aligned views. *)
Definition normalize_views (normalize : bool) (v : Views) : result Views :=
  if normalize then
    peak1 <- np_max (np_abs (data1_aligned v)) ;;
    peak2 <- np_max (np_abs (data2_aligned v)) ;;
    Ok {| data1 := data1 v; data2 := data2 v; duration2 := duration2 v;
          offset_ms := offset_ms v; align_corr := align_corr v;
          data1_aligned :=
            if Rgtb peak1 1e-10
            then map (fun x => x / peak1) (data1_aligned v)
            else data1_aligned v;
          data2_aligned :=
            if Rgtb peak2 1e-10
            then map (fun x => x / peak2) (data2_aligned v)
            else data2_aligned v |}
  else Ok v.

(** Lines 684-696: loading and rate matching. *)
Definition load_and_resample `{E : Env} (path1 path2 : String.string)
    : result (list R * list R * nat) :=
  l1 <- load_audio path1 ;;
  l2 <- load_audio path2 ;;
  let sr1 := snd l1 in
  let sr2 := snd l2 in
  let target_sr := Nat.max sr1 sr2 in
  data1 <-
    (if negb (sr1 =? target_sr)%nat
     then resample_if_needed (fst l1) sr1 target_sr else Ok (fst l1)) ;;
  data2 <-
    (if negb (sr2 =? target_sr)%nat
     then resample_if_needed (fst l2) sr2 target_sr else Ok (fst l2)) ;;
  Ok (data1, data2, target_sr).

(** Assignment to one attribute of the result (lines 804 and 805). *)
Definition set_similarity_score (result : ComparisonResult) (score : R)
    : ComparisonResult :=
  {| file1 := file1 result;
     file2 := file2 result;
     sample_rate := sample_rate result;
     duration1_s := duration1_s result;
     duration2_s := duration2_s result;
     aligned := aligned result;
     alignment_offset_ms := alignment_offset_ms result;
     alignment_correlation := alignment_correlation result;
     amplitude1 := amplitude1 result;
     amplitude2 := amplitude2 result;
     spectral1 := spectral1 result;
     spectral2 := spectral2 result;
     timing1 := timing1 result;
     timing2 := timing2 result;
     peak_diff_db := peak_diff_db result;
     rms_diff_db := rms_diff_db result;
     spectral_centroid_diff_hz := spectral_centroid_diff_hz result;
     waveform_correlation := waveform_correlation result;
     envelope_correlation := envelope_correlation result;
     spectral_correlation := spectral_correlation result;
     similarity_score := score;
     issues := issues result |}.

Definition set_issues (result : ComparisonResult) (found : list Issue)
    : ComparisonResult :=
  {| file1 := file1 result;
     file2 := file2 result;
     sample_rate := sample_rate result;
     duration1_s := duration1_s result;
     duration2_s := duration2_s result;
     aligned := aligned result;
     alignment_offset_ms := alignment_offset_ms result;
     alignment_correlation := alignment_correlation result;
     amplitude1 := amplitude1 result;
     amplitude2 := amplitude2 result;
     spectral1 := spectral1 result;
     spectral2 := spectral2 result;
     timing1 := timing1 result;
     timing2 := timing2 result;
     peak_diff_db := peak_diff_db result;
     rms_diff_db := rms_diff_db result;
     spectral_centroid_diff_hz := spectral_centroid_diff_hz result;
     waveform_correlation := waveform_correlation result;
     envelope_correlation := envelope_correlation result;
     spectral_correlation := spectral_correlation result;
     similarity_score := similarity_score result;
     issues := found |}.

(** Lines 753-807: per-file statistics, correlations, score and issues. *)
Definition analyze_views `{E : Env}
    (path1 path2 : String.string) (target_sr : nat) (duration1 : R)
    (align : bool) (silence_threshold_db : R) (v : Views)
    : result ComparisonResult :=
  amp1 <- calculate_amplitude_stats (data1 v) target_sr silence_threshold_db ;;
  amp2 <- calculate_amplitude_stats (data2 v) target_sr silence_threshold_db ;;
  spec1 <- calculate_spectral_stats (data1 v) target_sr ;;
  spec2 <- calculate_spectral_stats (data2 v) target_sr ;;
  timing1 <- detect_transients (data1 v) target_sr silence_threshold_db ;;
  timing2 <- detect_transients (data2 v) target_sr silence_threshold_db ;;
  let waveform_corr :=
    calculate_correlation (data1_aligned v) (data2_aligned v) in
  env1 <- calculate_envelope (data1_aligned v) target_sr
            calculate_envelope_default_window_ms ;;
  env2 <- calculate_envelope (data2_aligned v) target_sr
            calculate_envelope_default_window_ms ;;
  let envelope_corr := calculate_correlation env1 env2 in
  spectral_corr <-
    calculate_spectral_correlation
      (data1_aligned v) (data2_aligned v) target_sr ;;
  env_stats1 <-
    calculate_envelope_stats (data1 v) target_sr silence_threshold_db ;;
  env_stats2 <-
    calculate_envelope_stats (data2 v) target_sr silence_threshold_db ;;
  let result :=
    {| file1 := path1;
       file2 := path2;
       sample_rate := target_sr;
       duration1_s := duration1;
       duration2_s := duration2 v;
       aligned := align;
       alignment_offset_ms := offset_ms v;
       alignment_correlation := align_corr v;
       amplitude1 := amp1;
       amplitude2 := amp2;
       spectral1 := spec1;
       spectral2 := spec2;
       timing1 := timing1;
       timing2 := timing2;
       peak_diff_db := peak_db amp2 - peak_db amp1;
       rms_diff_db := rms_db amp2 - rms_db amp1;
       spectral_centroid_diff_hz := centroid_hz spec2 - centroid_hz spec1;
       waveform_correlation := waveform_corr;
       envelope_correlation := envelope_corr;
       spectral_correlation := spectral_corr;
       similarity_score := 0;
       issues := [] |} in
  let result :=
    set_similarity_score result (calculate_similarity_score result) in
  let result := set_issues result (detect_issues result) in
  Ok result.

Definition compare_audio `{E : Env}
    (path1 path2 : String.string)
    (align trim normalize : bool) (silence_threshold_db : R)
    : result ComparisonResult :=
  loaded <- load_and_resample path1 path2 ;;
  let data1 := fst (fst loaded) in
  let data2 := snd (fst loaded) in
  let target_sr := snd loaded in
  duration1 <- py_truediv_nat (length data1) target_sr ;;
  duration2 <- py_truediv_nat (length data2) target_sr ;;
  v <- align_views data1 data2 target_sr duration2 align trim
         silence_threshold_db ;;
  v <- normalize_views normalize v ;;
  analyze_views path1 path2 target_sr duration1 align silence_threshold_db v.

(** ** Trimming to an offset (lines 250-266) *)

Definition align_audio (ref target : list R) (offset : Z)
    : list R * list R :=
  let target' :=
    if (0 <? offset)%Z then skipn (Z.to_nat offset) target else target in
  let ref' :=
    if (0 <? offset)%Z then ref
    else if (offset <? 0)%Z then skipn (Z.to_nat (- offset)) ref
    else ref in
  let min_len := Nat.min (length ref') (length target') in
  (firstn min_len ref', firstn min_len target').

(** ** Alignment by cross-correlation *)

(** [y[m]] for the cross-correlation sum: zero outside the range of [y]. *)
Definition nth_or_zero (y : list R) (m : Z) : R :=
  if (m <? 0)%Z then 0 else nth (Z.to_nat m) y 0.

(** [scipy.signal.correlate(in1, in2, mode="full")] on real one-dimensional
    arrays: [z[k] = sum_l in1[l] * in2[l - k + N - 1]] for
    [k = 0 .. len(in1) + len(in2) - 2], with [N = max(len(in1), len(in2))].
    On empty inputs the list is empty; the one caller then raises
    ValueError at [np.argmax], as it does when SciPy refuses the empty
    input itself. *)
Definition signal_correlate_full (in1 in2 : list R) : list R :=
  let N := Z.of_nat (Nat.max (length in1) (length in2)) in
  map (fun k =>
         np_sum (map (fun l =>
                        nth l in1 0
                        * nth_or_zero in2
                            (Z.of_nat l - Z.of_nat k + N - 1))
                     (seq 0 (length in1))))
      (seq 0 (length in1 + length in2 - 1)).

(** [a[lo:hi]] with Python's reading of negative and oversized bounds. *)
Definition py_slice (a : list R) (lo hi : Z) : list R :=
  let n := Z.of_nat (length a) in
  let clamp (i : Z) :=
    if (i <? 0)%Z then Z.max (i + n) 0 else Z.min i n in
  slice a (Z.to_nat (clamp lo)) (Z.to_nat (clamp hi)).

(** The defaults of [max_offset_ms] and [sample_rate] are 500 and 48000. *)
Definition find_alignment_offset
    (ref target : list R) (max_offset_ms : R) (sample_rate : nat)
    : result (Z * R) :=
  let max_offset_samples := py_int (max_offset_ms * INR sample_rate / 1000) in
  let max_len :=
    Nat.min (Nat.min (length ref) (length target)) (sample_rate * 2) in
  let ref_seg := firstn max_len ref in
  let target_seg := firstn max_len target in
  let correlation := signal_correlate_full ref_seg target_seg in
  let center := (Z.of_nat (length target_seg) - 1)%Z in
  let search_start := Z.max 0 (center - max_offset_samples) in
  let search_end :=
    Z.min (Z.of_nat (length correlation)) (center + max_offset_samples) in
  let search_region := py_slice correlation search_start search_end in
  peak_idx <- np_argmax (np_abs search_region) ;;
  let offset := (search_start + Z.of_nat peak_idx - center)%Z in
  let peak_corr :=
    nth (Z.to_nat (search_start + Z.of_nat peak_idx)) correlation 0 in
  let norm_factor :=
    sqrt (np_sum (np_square ref_seg) * np_sum (np_square target_seg)) in
  let corr_coef :=
    if Rgtb norm_factor 0 then peak_corr / norm_factor else 0 in
  Ok (offset, corr_coef).

(** ** Derived quantities used in the statements *)

(** The offset the transient strategy estimates. *)
Definition transient_offset
    (ref target : list R) (sample_rate : nat) (threshold_db : R) : Z :=
  (Z.of_nat (find_first_transient target sample_rate threshold_db)
   - Z.of_nat (find_first_transient ref sample_rate threshold_db))%Z.

(** The buffer the per-file analyzers of the second file are given. *)
Definition second_analyzed_buffer
    (data1 data2 : list R) (target_sr : nat) (align trim : bool)
    (silence_threshold_db : R) : list R :=
  let offset := transient_offset data1 data2 target_sr silence_threshold_db in
  if align && trim && (0 <? offset)%Z
  then slice data2 (Z.to_nat offset) (Z.to_nat offset + length data1)
  else data2.

(** The aligned views before normalisation. *)
Definition aligned_pair
    (data1 data2 : list R) (target_sr : nat) (align trim : bool)
    (silence_threshold_db : R) : list R * list R :=
  if align then
    let offset :=
      transient_offset data1 data2 target_sr silence_threshold_db in
    let shifted2 :=
      if (0 <? offset)%Z then skipn (Z.to_nat offset) data2 else data2 in
    let shifted1 :=
      if (0 <? offset)%Z then data1
      else if (offset <? 0)%Z then skipn (Z.to_nat (- offset)) data1
      else data1 in
    let min_len := Nat.min (length shifted1) (length shifted2) in
    if trim
    then (firstn (length data1) (firstn min_len shifted1),
          firstn (length data1) (firstn min_len shifted2))
    else (firstn min_len shifted1, firstn min_len shifted2)
  else
    let min_len := Nat.min (length data1) (length data2) in
    (firstn min_len data1, firstn min_len data2).

(** The peaks [detect_transients] works with: none when the buffer is
    shorter than one analysis window, otherwise what [signal.find_peaks]
    reports on the onset strength. *)
Definition detected_peaks `{E : Env} (data : list R) (sample_rate : nat)
    (peaks : list nat) : Prop :=
  (onset_strength data sample_rate = Ok None /\ peaks = []) \/
  (exists onset,
     onset_strength data sample_rate = Ok (Some onset) /\
     peaks =
       signal_find_peaks onset 0.1
         (Some (Z.to_nat (Z.max 1
            (py_int (0.05 * INR sample_rate
                     / IZR (py_int (0.01 * INR sample_rate)))))))).

(** ** Buffers and files of the closed examples *)

(** A click followed by silence, 20 ms at 200 Hz. *)
Definition impulse : list R := [1; 0; 0; 0].

(** The same click one sample late. *)
Definition delayed_impulse : list R := [0; 1; 0; 0; 0].

(** The click one sample late behind a lead-in at -46 dB, between the
    -60 dB and -40 dB thresholds. *)
Definition quiet_lead : list R := [0.005; 1; 0; 0].

(** A click every 50 ms for 1.06 s at 100 Hz: 21 clicks in 106 samples. *)
Definition click_train : list R :=
  concat (repeat [0; 0; 0; 0; 1] 21) ++ [0].

(** The onset strength of the click train before normalisation: the frame
    energy rises once per click. *)
Definition click_train_onset : list R :=
  concat (repeat [0; 0; 1; 0; 0] 20) ++ [0; 0; 1; 0].

(** Two mono files. *)
Definition two_files (first second : list R * nat)
    : String.string -> result (ndarray * nat) :=
  fun path =>
    if String.eqb path "a.wav"%string then Ok (Array1 (fst first), snd first)
    else if String.eqb path "b.wav"%string
    then Ok (Array1 (fst second), snd second)
    else Raise RuntimeError.

(** A result whose correlations are 1 and whose differences are 0. *)
Definition perfect_result : ComparisonResult :=
  let silent :=
    {| peak_linear := 0; peak_db := -200; rms_linear := 0; rms_db := -200;
       crest_factor_db := 0; dynamic_range_db := 0; dc_offset := 0 |} in
  let still :=
    {| first_transient_ms := 0; num_transients := 0;
       transient_times_ms := [] |} in
  {| file1 := "a.wav"%string;
     file2 := "b.wav"%string;
     sample_rate := 200;
     duration1_s := 0;
     duration2_s := 0;
     aligned := true;
     alignment_offset_ms := 0;
     alignment_correlation := 1;
     amplitude1 := silent;
     amplitude2 := silent;
     spectral1 := spectral_silence;
     spectral2 := spectral_silence;
     timing1 := still;
     timing2 := still;
     peak_diff_db := 0;
     rms_diff_db := 0;
     spectral_centroid_diff_hz := 0;
     waveform_correlation := 1;
     envelope_correlation := 1;
     spectral_correlation := 1;
     similarity_score := 0;
     issues := [] |}.


(** A unit click after [i] samples of silence, followed by [p] more. *)
Definition unit_impulse (i p : nat) : list R := repeat 0 i ++ 1 :: repeat 0 p.


(** * Properties *)

(** ** Comparisons, powers and truncation *)

Lemma Rgtb_true (a b : R) : a > b -> Rgtb a b = true.
Proof.
  intros Hab. unfold Rgtb.
  destruct (Rgt_dec a b); [reflexivity | contradiction].
Qed.

Lemma Rgtb_false (a b : R) : a <= b -> Rgtb a b = false.
Proof.
  intros Hab. unfold Rgtb. destruct (Rgt_dec a b); [lra | reflexivity].
Qed.

Lemma Rltb_true (a b : R) : a < b -> Rltb a b = true.
Proof.
  intros Hab. unfold Rltb.
  destruct (Rlt_dec a b); [reflexivity | contradiction].
Qed.

Lemma Rltb_false (a b : R) : b <= a -> Rltb a b = false.
Proof.
  intros Hab. unfold Rltb. destruct (Rlt_dec a b); [lra | reflexivity].
Qed.

Lemma Rltb_true_if (a b x y : R) :
  a < b -> (if Rltb a b then x else y) = x.
Proof. intros Hab. rewrite Rltb_true by exact Hab. reflexivity. Qed.

Lemma Rgtb_spec (a b : R) : Rgtb a b = true <-> a > b.
Proof.
  unfold Rgtb. destruct (Rgt_dec a b); split; intros; auto; discriminate.
Qed.

Lemma py_pow_pos (x y : R) : 0 < py_pow x y.
Proof. unfold py_pow, Rpower. apply exp_pos. Qed.

Lemma py_pow_10_neg (n : nat) : py_pow 10 (- INR n) = / 10 ^ n.
Proof. unfold py_pow. rewrite Rpower_Ropp, Rpower_pow by lra. reflexivity. Qed.

Lemma threshold_minus_60 : py_pow 10 (-60 / 20) = 0.001.
Proof.
  replace (-60 / 20) with (- INR 3) by (simpl; lra).
  rewrite py_pow_10_neg. simpl. lra.
Qed.

Lemma threshold_minus_40 : py_pow 10 (-40 / 20) = 0.01.
Proof.
  replace (-40 / 20) with (- INR 2) by (simpl; lra).
  rewrite py_pow_10_neg. simpl. lra.
Qed.

Lemma py_int_floor (x : R) (z : Z) :
  0 <= x -> IZR z <= x < IZR z + 1 -> py_int x = z.
Proof.
  intros Hx Hz. unfold py_int.
  destruct (Rle_dec 0 x); [| contradiction].
  symmetry. apply Int_part_spec. lra.
Qed.

(** ** Index search *)

Lemma where_from_shift (mask : list bool) (i : nat) :
  where_from i mask = map (Nat.add i) (where_from 0 mask).
Proof.
  revert i. induction mask as [| b t IH]; intros i; [reflexivity |].
  assert (Hshift : where_from (S i) t
                   = map (Nat.add i) (where_from 1 t)).
  { rewrite (IH (S i)), (IH 1%nat), map_map.
    apply map_ext. intros x. lia. }
  simpl. destruct b; simpl; rewrite Hshift;
    [rewrite Nat.add_0_r |]; reflexivity.
Qed.

Lemma where_from_repeat_false (k i : nat) (mask : list bool) :
  where_from i (repeat false k ++ mask) = where_from (i + k) mask.
Proof.
  revert i. induction k as [| k IH]; intros i; simpl.
  - rewrite Nat.add_0_r. reflexivity.
  - rewrite IH. f_equal. lia.
Qed.

Lemma where_from_nonempty (mask : list bool) (i : nat) :
  In true mask -> where_from i mask <> [].
Proof.
  revert i. induction mask as [| b t IH]; intros i Hin; [destruct Hin |].
  simpl. destruct b; [discriminate |].
  destruct Hin as [Hb | Hin]; [discriminate | auto].
Qed.

(** The head of [np.where] is the least index at which the mask holds. *)
Lemma where_from_head (mask : list bool) (j : nat) (rest : list nat) :
  where_from 0 mask = j :: rest ->
  nth j mask false = true /\
  forall i, (i < j)%nat -> nth i mask false = false.
Proof.
  revert j rest. induction mask as [| b t IH]; intros j rest Hw;
    [discriminate |].
  simpl in Hw. destruct b.
  - injection Hw as <- _. split; [reflexivity | intros i Hi; lia].
  - rewrite where_from_shift in Hw.
    destruct (where_from 0 t) as [| j' rest'] eqn:Ht; [discriminate |].
    simpl in Hw. injection Hw as <- _.
    destruct (IH j' rest' eq_refl) as [Hj Hlt].
    split; [exact Hj |].
    intros [| i] Hi; [reflexivity | simpl; apply Hlt; lia].
Qed.

Lemma silence_below_threshold (threshold_db : R) (k : nat) :
  map (fun x => Rgtb (Rabs x) (py_pow 10 (threshold_db / 20))) (repeat 0 k)
  = repeat false k.
Proof.
  induction k as [| k IH]; [reflexivity |].
  simpl. rewrite IH. f_equal.
  apply Rgtb_false. rewrite Rabs_R0.
  apply Rlt_le, py_pow_pos.
Qed.

(** Prepending [k] samples of silence moves the first transient by [k],
    provided there is one. *)
Lemma find_first_transient_delayed
    (sig : list R) (k sample_rate : nat) (threshold_db : R) :
  Exists (fun x => Rabs x > py_pow 10 (threshold_db / 20)) sig ->
  find_first_transient (repeat 0 k ++ sig) sample_rate threshold_db
  = (k + find_first_transient sig sample_rate threshold_db)%nat.
Proof.
  intros Hex. unfold find_first_transient, np_where.
  rewrite map_app, silence_below_threshold, where_from_repeat_false.
  rewrite where_from_shift. simpl.
  set (mask := map _ sig).
  assert (Hne : where_from 0 mask <> []).
  { apply where_from_nonempty. apply Exists_exists in Hex.
    destruct Hex as [x [Hin Hx]]. apply in_map_iff.
    exists x. split; [apply Rgtb_true; exact Hx | exact Hin]. }
  destruct (where_from 0 mask); [contradiction | reflexivity].
Qed.

Lemma np_max_nonempty (a : list R) :
  a <> [] -> exists m, np_max a = Ok m.
Proof. destruct a; [contradiction | intros _; eexists; reflexivity]. Qed.

Lemma leading_peak_defined (a : list R) (sample_rate : nat) :
  (0 < sample_rate)%nat -> a <> [] ->
  exists m,
    (if (sample_rate <? length a)%nat
     then np_max (np_abs (firstn sample_rate a))
     else np_max (np_abs a)) = Ok m.
Proof.
  intros Hsr Ha. destruct a as [| x t]; [contradiction |].
  destruct sample_rate as [| sr]; [lia |].
  destruct (S sr <? length (x :: t))%nat; eexists; reflexivity.
Qed.

(** C8. A signal with at least one sample above the alignment threshold,
    aligned as reference against a copy of itself delayed by [k] samples of
    prepended silence, yields the estimated offset [k] under the transient
    strategy. *)
Theorem delayed_copy_offset
    (sig : list R) (k sample_rate : nat) (threshold_db : R) :
  (0 < sample_rate)%nat ->
  Exists (fun x => Rabs x > py_pow 10 (threshold_db / 20)) sig ->
  exists confidence,
    find_alignment_offset_by_transient
      sig (repeat 0 k ++ sig) sample_rate threshold_db
    = Ok (Z.of_nat k, confidence).
Proof.
  intros Hsr Hex. unfold find_alignment_offset_by_transient.
  rewrite find_first_transient_delayed by exact Hex.
  assert (Hsig : sig <> []).
  { intros ->. inversion Hex. }
  destruct (leading_peak_defined sig sample_rate Hsr Hsig) as [p1 ->].
  assert (Hdel : repeat 0 k ++ sig <> []).
  { destruct k; simpl; [exact Hsig | discriminate]. }
  destruct (leading_peak_defined _ sample_rate Hsr Hdel) as [p2 ->].
  simpl. eexists. f_equal. f_equal. lia.
Qed.

Lemma delayed_copy_offset_witness :
  (0 < 8)%nat /\
  Exists (fun x => Rabs x > py_pow 10 (-60 / 20)) [0.5; 0.25] /\
  exists confidence,
    find_alignment_offset_by_transient
      [0.5; 0.25] (repeat 0 3 ++ [0.5; 0.25]) 8 (-60)
    = Ok (3%Z, confidence).
Proof.
  assert (Hsr : (0 < 8)%nat) by lia.
  assert (Hex : Exists (fun x => Rabs x > py_pow 10 (-60 / 20)) [0.5; 0.25]).
  { apply Exists_cons_hd. rewrite threshold_minus_60.
    rewrite Rabs_pos_eq; lra. }
  split; [exact Hsr | split; [exact Hex |]].
  exact (delayed_copy_offset [0.5; 0.25] 3 8 (-60) Hsr Hex).
Defined.

(** ** Sums *)

Lemma np_sum_opp (a : list R) : np_sum (map Ropp a) = - np_sum a.
Proof. induction a as [| x t IH]; simpl; [lra | rewrite IH; lra]. Qed.

Lemma np_mean_opp (a : list R) : np_mean (map Ropp a) = - np_mean a.
Proof. unfold np_mean. rewrite np_sum_opp, length_map. lra. Qed.

Lemma np_sum_square_nonneg (a : list R) : 0 <= np_sum (np_square a).
Proof. induction a as [| x t IH]; simpl; [lra | nra]. Qed.

Lemma zip_with_self (a : list R) : zip_with Rmult a a = np_square a.
Proof.
  unfold zip_with, np_square.
  induction a as [| x t IH]; simpl; [| rewrite IH]; reflexivity.
Qed.




Lemma fold_left_Rplus (a : list R) (acc : R) :
  fold_left Rplus a acc = acc + np_sum a.
Proof.
  revert acc. induction a as [| x t IH]; intros acc; simpl;
    [lra | rewrite IH; lra].
Qed.

Lemma py_sum_np_sum (a : list R) : py_sum a = np_sum a.
Proof. unfold py_sum. rewrite fold_left_Rplus. lra. Qed.

(** ** Correlation engine *)

Lemma pearson_denominator_self (a : list R) :
  pearson_denominator a a
  = np_sum (np_square (map (fun x => x - np_mean a) a)).
Proof.
  unfold pearson_denominator. rewrite Nat.eqb_refl.
  apply sqrt_square, np_sum_square_nonneg.
Qed.




Lemma calculate_correlation_self (a : list R) :
  1e-10 <= pearson_denominator a a -> calculate_correlation a a = 1.
Proof.
  intros Hden. rewrite pearson_denominator_self in Hden.
  unfold calculate_correlation. rewrite Nat.eqb_refl.
  destruct (length a =? 0)%nat eqn:Hlen.
  - apply Nat.eqb_eq in Hlen. apply length_zero_iff_nil in Hlen. subst a.
    simpl in Hden. lra.
  - set (c := map (fun x => x - np_mean a) a) in *.
    rewrite zip_with_self, sqrt_square by apply np_sum_square_nonneg.
    rewrite Rltb_false by exact Hden.
    field. lra.
Qed.





(** ** Similarity scorer *)

(** C9. The similarity score is the weighted average of the component
    scores: each correlation clamped at 0 and scaled by 100 with weights
    3.0 (waveform), 2.0 (envelope) and 2.0 (spectral);
    [max(0, 100 - |rms_diff_db| * (100 / 12))] with weight 1.5, the same
    formula on the peak difference with weight 1.0,
    [max(0, 100 - |centroid_diff_hz| * (100 / 1000))] with weight 1.0, and
    the clamped alignment correlation times 100 with weight 0.5 exactly when
    the result is flagged aligned; the weighted sum is divided by the sum
    of the weights applied. *)
Theorem similarity_score_weighted_average (result : ComparisonResult) :
  calculate_similarity_score result
  = (Rmax 0 (waveform_correlation result) * 100 * 3.0
     + Rmax 0 (envelope_correlation result) * 100 * 2.0
     + Rmax 0 (spectral_correlation result) * 100 * 2.0
     + Rmax 0 (100 - Rabs (rms_diff_db result) * (100 / 12)) * 1.5
     + Rmax 0 (100 - Rabs (peak_diff_db result) * (100 / 12)) * 1.0
     + Rmax 0 (100 - Rabs (spectral_centroid_diff_hz result) * (100 / 1000))
       * 1.0
     + (if aligned result
        then Rmax 0 (alignment_correlation result) * 100 * 0.5 else 0))
    / (3.0 + 2.0 + 2.0 + 1.5 + 1.0 + 1.0
       + (if aligned result then 0.5 else 0)).
Proof.
  unfold calculate_similarity_score.
  destruct (aligned result); simpl; unfold py_sum; simpl; f_equal; lra.
Qed.

(** ** Resampler *)

Lemma INR_of_nat_Z (n : nat) : INR n = IZR (Z.of_nat n).
Proof. apply INR_IZR_INZ. Qed.

(** *** The sample count, in binary64 *)

Lemma shr_1_nonneg (mrs : shr_record) :
  (0 <= shr_m mrs)%Z -> (0 <= shr_m (shr_1 mrs))%Z.
Proof.
  destruct mrs as [m r s]. simpl.
  destruct m as [| p | p]; [| destruct p | lia]; simpl; lia.
Qed.

Lemma iter_shr_1_nonneg (p : positive) (mrs : shr_record) :
  (0 <= shr_m mrs)%Z -> (0 <= shr_m (iter_pos shr_1 p mrs))%Z.
Proof.
  revert mrs.
  induction p as [p IH | p IH |]; intros mrs Hm; simpl.
  - apply IH, IH, shr_1_nonneg, Hm.
  - apply IH, IH, Hm.
  - apply shr_1_nonneg, Hm.
Qed.

Lemma shr_fexp_nonneg (m e : Z) (l : location) :
  (0 <= m)%Z -> (0 <= shr_m (fst (shr_fexp 53 1024 m e l)))%Z.
Proof.
  intros Hm. unfold shr_fexp, shr.
  assert (H0 : (0 <= shr_m (shr_record_of_loc m l))%Z)
    by (destruct l as [| []]; exact Hm).
  destruct (fexp 53 1024 (Zdigits2 m + e) - e)%Z; simpl;
    [exact H0 | apply iter_shr_1_nonneg, H0 | exact H0].
Qed.

Lemma round_nearest_even_nonneg (m : Z) (l : location) :
  (0 <= m)%Z -> (0 <= round_nearest_even m l)%Z.
Proof.
  intros Hm. unfold round_nearest_even.
  destruct l as [| []]; [lia | destruct (Z.even m); lia | lia | lia].
Qed.

(** Rounding a non-negative mantissa gives a zero, a positive finite double
    or the positive infinity: never a NaN, never a negative sign. *)
Lemma binary_round_aux_nonneg (m e : Z) (l : location) :
  (0 <= m)%Z ->
  nonneg_finite (binary_round_aux 53 1024 false m e l) \/
  binary_round_aux 53 1024 false m e l = S754_infinity false.
Proof.
  intros Hm. unfold binary_round_aux.
  pose proof (shr_fexp_nonneg m e l Hm) as H1.
  destruct (shr_fexp 53 1024 m e l) as [mrs' e'].
  cbn [fst] in H1.
  pose proof (shr_fexp_nonneg
                (round_nearest_even (shr_m mrs') (loc_of_shr_record mrs'))
                e' loc_Exact
                (round_nearest_even_nonneg _ _ H1)) as H2.
  destruct (shr_fexp 53 1024 _ e' loc_Exact) as [mrs'' e''].
  cbn [fst] in H2.
  destruct (shr_m mrs'') as [| p | p]; [left; exact I | | lia].
  destruct (e'' <=? 1024 - 53)%Z; [left; exact I | right; reflexivity].
Qed.

Lemma py_truediv_binary64_outcome (a b : nat) :
  (0 < b)%nat ->
  (exists q, py_truediv_binary64 a b = Ok q /\ nonneg_finite q) \/
  py_truediv_binary64 a b = Raise OverflowError.
Proof.
  intros Hb. unfold py_truediv_binary64.
  destruct (Nat.eqb_spec b 0) as [-> | _]; [lia |].
  destruct b as [| b]; [lia |].
  destruct a as [| a].
  - left. eexists. split; [reflexivity | exact I].
  - cbn [exact_int]. unfold SFdiv. cbn [xorb].
    destruct (SFdiv_core_binary 53 1024 (Z.pos (Pos.of_nat (S a))) 0
                (Z.pos (Pos.of_nat (S b))) 0) as [[mz ez] lz] eqn:Hcore.
    assert (Hmz : (0 <= mz)%Z).
    { unfold SFdiv_core_binary in Hcore.
      set (m' := match (0 - 0 - _)%Z with
                 | Z0 => _ | Zpos _ => _ | Zneg _ => _ end) in Hcore.
      assert (Hm' : (0 <= m')%Z).
      { unfold m'. destruct (0 - 0 - _)%Z; [lia | | lia].
        apply Z.shiftl_nonneg. lia. }
      pose proof (Z.div_eucl_eq m' (Z.pos (Pos.of_nat (S b)))
                    ltac:(lia)) as Heq.
      pose proof (Z.mod_pos_bound m' (Z.pos (Pos.of_nat (S b)))
                    ltac:(lia)) as Hmod.
      unfold Z.modulo in Hmod.
      destruct (Z.div_eucl m' (Z.pos (Pos.of_nat (S b)))) as [q r].
      injection Hcore as <- _ _. nia. }
    destruct (binary_round_aux_nonneg mz ez lz Hmz) as [Hfin | Hinf].
    + left. destruct (binary_round_aux 53 1024 false mz ez lz)
        as [[] | [] | | [] m e]; try contradiction;
        eexists; (split; [reflexivity | exact I]).
    + right. rewrite Hinf. reflexivity.
Qed.

Lemma py_float_of_int_outcome (n : nat) :
  (exists y, py_float_of_int n = Ok y /\ nonneg_finite y) \/
  py_float_of_int n = Raise OverflowError.
Proof.
  unfold py_float_of_int, binary_normalize.
  destruct (Z.of_nat n) as [| p | p] eqn:Hn; [| | lia].
  - left. eexists. split; [reflexivity | exact I].
  - unfold binary_round.
    destruct (shl_align p 0 _) as [mz ez].
    destruct (binary_round_aux_nonneg (Z.pos mz) ez loc_Exact ltac:(lia))
      as [Hfin | Hinf].
    + left. destruct (binary_round_aux 53 1024 false (Z.pos mz) ez loc_Exact)
        as [[] | [] | | [] m e]; try contradiction;
        eexists; (split; [reflexivity | exact I]).
    + right. rewrite Hinf. reflexivity.
Qed.

Lemma SFmul_nonneg (x y : spec_float) :
  nonneg_finite x -> nonneg_finite y ->
  nonneg_finite (SFmul 53 1024 x y) \/
  SFmul 53 1024 x y = S754_infinity false.
Proof.
  intros Hx Hy.
  destruct x as [[] | [] | | [] mx ex]; try contradiction;
    destruct y as [[] | [] | | [] my ey]; try contradiction;
    try (left; exact I).
  cbn [SFmul xorb]. apply binary_round_aux_nonneg. lia.
Qed.

Lemma py_int_binary64_nonneg (x : spec_float) :
  nonneg_finite x -> exists n, py_int_binary64 x = Ok n /\ (0 <= n)%Z.
Proof.
  intros Hx.
  destruct x as [[] | [] | | [] m e]; try contradiction.
  - exists 0%Z. split; [reflexivity | lia].
  - eexists. split; [reflexivity |]. apply Z.shiftl_nonneg. lia.
Qed.

(** The count is computed, and is not negative, unless a double overflows:
    for a positive source rate no other error is possible. *)
Lemma resample_new_length_outcome (len sr_orig sr_target : nat) :
  (0 < sr_orig)%nat ->
  (exists n, resample_new_length len sr_orig sr_target = Ok n /\ (0 <= n)%Z) \/
  resample_new_length len sr_orig sr_target = Raise OverflowError.
Proof.
  intros Hsr. unfold resample_new_length.
  destruct (py_truediv_binary64_outcome len sr_orig Hsr)
    as [[q [-> Hq]] | ->]; [| right; reflexivity].
  cbn [bind]. unfold py_mul_float_int.
  destruct (py_float_of_int_outcome sr_target)
    as [[y [-> Hy]] | ->]; [| right; reflexivity].
  cbn [bind].
  destruct (SFmul_nonneg q y Hq Hy) as [Hfin | ->];
    [| right; reflexivity].
  left. apply py_int_binary64_nonneg, Hfin.
Qed.

(** No overflow on lengths and rates below [2 ^ 64]. *)

Lemma digits2_pos_size (p : positive) : digits2_pos p = Pos.size p.
Proof. induction p; simpl; congruence. Qed.

Lemma Zdigits2_log2 (m : Z) : (0 < m)%Z -> Zdigits2 m = (Z.log2 m + 1)%Z.
Proof.
  destruct m as [| p | p]; try lia. intros _.
  destruct p; simpl; rewrite ?digits2_pos_size; lia.
Qed.

Lemma Zdigits2_nonneg (m : Z) : (0 <= Zdigits2 m)%Z.
Proof. destruct m; simpl; lia. Qed.

Lemma Zdigits2_le (m k : Z) :
  (0 <= m)%Z -> (0 <= k)%Z -> (m < 2 ^ k)%Z -> (Zdigits2 m <= k)%Z.
Proof.
  intros Hm Hk Hlt.
  destruct (Z.eq_dec m 0) as [-> | Hne]; [simpl; lia |].
  rewrite Zdigits2_log2 by lia.
  apply Z.log2_lt_pow2 in Hlt; lia.
Qed.

Lemma Zdigits2_gt (m : Z) : (0 <= m)%Z -> (m < 2 ^ Zdigits2 m)%Z.
Proof.
  intros Hm.
  destruct (Z.eq_dec m 0) as [-> | Hne]; [simpl; lia |].
  rewrite Zdigits2_log2 by lia.
  apply Z.log2_spec. lia.
Qed.

Lemma Zdigits2_mono (a b : Z) :
  (0 <= a <= b)%Z -> (Zdigits2 a <= Zdigits2 b)%Z.
Proof.
  intros Hab.
  apply Zdigits2_le; [lia | apply Zdigits2_nonneg |].
  pose proof (Zdigits2_gt b ltac:(lia)). lia.
Qed.

Lemma Zdigits2_succ (m : Z) :
  (0 <= m)%Z -> (Zdigits2 (m + 1) <= Zdigits2 m + 1)%Z.
Proof.
  intros Hm. pose proof (Zdigits2_nonneg m) as Hd.
  apply Zdigits2_le; [lia | lia |].
  pose proof (Zdigits2_gt m Hm) as Hlt.
  rewrite Z.pow_add_r by lia. lia.
Qed.

Lemma Zdigits2_mul (a b : Z) :
  (0 <= a)%Z -> (0 <= b)%Z ->
  (Zdigits2 (a * b) <= Zdigits2 a + Zdigits2 b)%Z.
Proof.
  intros Ha Hb.
  pose proof (Zdigits2_nonneg a) as Hda.
  pose proof (Zdigits2_nonneg b) as Hdb.
  apply Zdigits2_le; [nia | lia |].
  pose proof (Zdigits2_gt a Ha) as Hla.
  pose proof (Zdigits2_gt b Hb) as Hlb.
  rewrite Z.pow_add_r by lia. nia.
Qed.

Lemma Zdigits2_shiftl (a s : Z) :
  (0 <= a)%Z -> (0 <= s)%Z ->
  (Zdigits2 (Z.shiftl a s) <= Zdigits2 a + s)%Z.
Proof.
  intros Ha Hs. pose proof (Zdigits2_nonneg a) as Hda.
  rewrite Z.shiftl_mul_pow2 by exact Hs.
  assert (Hp : (0 < 2 ^ s)%Z) by (apply Z.pow_pos_nonneg; lia).
  apply Zdigits2_le; [nia | lia |].
  pose proof (Zdigits2_gt a Ha) as Hla.
  rewrite Z.pow_add_r by lia. nia.
Qed.

Lemma shr_1_digits (mrs : shr_record) :
  (0 <= shr_m mrs)%Z ->
  Zdigits2 (shr_m (shr_1 mrs)) = Z.max 0 (Zdigits2 (shr_m mrs) - 1).
Proof.
  destruct mrs as [m r s]. cbn [shr_m]. intros Hm.
  destruct m as [| p | p]; [| destruct p | lia];
    cbn [shr_1 shr_m Zdigits2 digits2_pos]; lia.
Qed.

Lemma iter_shr_1_digits (p : positive) (mrs : shr_record) :
  (0 <= shr_m mrs)%Z ->
  Zdigits2 (shr_m (iter_pos shr_1 p mrs))
  = Z.max 0 (Zdigits2 (shr_m mrs) - Z.pos p).
Proof.
  revert mrs.
  induction p as [p IH | p IH |]; intros mrs Hm; simpl iter_pos.
  - rewrite IH by (apply iter_shr_1_nonneg, shr_1_nonneg, Hm).
    rewrite IH by (apply shr_1_nonneg, Hm).
    rewrite shr_1_digits by exact Hm. lia.
  - rewrite IH by (apply iter_shr_1_nonneg, Hm).
    rewrite IH by exact Hm. lia.
  - apply shr_1_digits, Hm.
Qed.

(** One shift to the canonical exponent: the exponent it leaves and the
    size of the mantissa it leaves. *)
Lemma shr_fexp_bounds (m e : Z) (l : location) :
  (0 <= m)%Z ->
  (0 <= shr_m (fst (shr_fexp 53 1024 m e l)))%Z /\
  snd (shr_fexp 53 1024 m e l)
  = Z.max e (Z.max (Zdigits2 m + e - 53) (-1074)) /\
  (Zdigits2 (shr_m (fst (shr_fexp 53 1024 m e l)))
   + snd (shr_fexp 53 1024 m e l)
   <= Z.max (snd (shr_fexp 53 1024 m e l)) (Zdigits2 m + e))%Z.
Proof.
  intros Hm. split; [apply shr_fexp_nonneg, Hm |].
  unfold shr_fexp, shr, fexp, emin.
  assert (H0 : shr_m (shr_record_of_loc m l) = m)
    by (destruct l as [| []]; reflexivity).
  destruct (Z.max (Zdigits2 m + e - 53) (3 - 1024 - 53) - e)%Z
    as [| p | p] eqn:Hn; cbn [fst snd].
  - rewrite H0. lia.
  - rewrite iter_shr_1_digits by (rewrite H0; exact Hm).
    rewrite H0. lia.
  - rewrite H0. lia.
Qed.

Lemma sized_nonneg_finite (E M : Z) (x : spec_float) :
  sized E M x -> nonneg_finite x.
Proof. destruct x as [[] | [] | | [] m e]; simpl; tauto. Qed.

(** Rounding a mantissa that is far from the largest doubles never
    overflows. *)
Lemma binary_round_aux_sized (m e : Z) (l : location) (E M : Z) :
  (0 <= m)%Z -> (e <= E)%Z -> (Zdigits2 m + e <= M)%Z ->
  (-1074 <= E)%Z -> (M - 52 <= E)%Z -> (E <= 971)%Z ->
  sized E (Z.max (E + 1) (M + 1)) (binary_round_aux 53 1024 false m e l).
Proof.
  intros Hm He Hd HE HM Hmax. unfold binary_round_aux.
  destruct (shr_fexp_bounds m e l Hm) as [H1 [He1 Hd1]].
  destruct (shr_fexp 53 1024 m e l) as [mrs' e'].
  cbn [fst snd] in H1, He1, Hd1.
  set (m1 := round_nearest_even (shr_m mrs') (loc_of_shr_record mrs')).
  assert (Hm1 : (0 <= m1)%Z) by (apply round_nearest_even_nonneg, H1).
  assert (Hdm1 : (Zdigits2 m1 <= Zdigits2 (shr_m mrs') + 1)%Z).
  { unfold m1, round_nearest_even.
    pose proof (Zdigits2_succ (shr_m mrs') H1).
    destruct (loc_of_shr_record mrs') as [| []];
      [lia | destruct (Z.even (shr_m mrs')); lia | lia | lia]. }
  destruct (shr_fexp_bounds m1 e' loc_Exact Hm1) as [H2 [He2 Hd2]].
  destruct (shr_fexp 53 1024 m1 e' loc_Exact) as [mrs'' e''].
  cbn [fst snd] in H2, He2, Hd2.
  destruct (shr_m mrs'') as [| p | p] eqn:Hp; [exact I | | lia].
  assert (Hle : (e'' <= E)%Z) by lia.
  destruct (Z.leb_spec e'' (1024 - 53)) as [_ | Hgt]; [| lia].
  cbn [sized]. split; [exact Hle | lia].
Qed.

Lemma Pos_of_nat_Z (n : nat) :
  (0 < n)%nat -> Z.pos (Pos.of_nat n) = Z.of_nat n.
Proof. intros Hn. lia. Qed.

Lemma py_truediv_binary64_sized (a b : nat) :
  (0 < b)%nat -> (Z.of_nat a < 2 ^ 64)%Z ->
  exists q, py_truediv_binary64 a b = Ok q /\ sized 12 65 q.
Proof.
  intros Hb Ha. unfold py_truediv_binary64.
  destruct (Nat.eqb_spec b 0) as [-> | _]; [lia |].
  destruct b as [| b]; [lia |].
  destruct a as [| a].
  - eexists. split; [reflexivity | exact I].
  - cbn [exact_int]. unfold SFdiv. cbn [xorb].
    set (ma := Z.pos (Pos.of_nat (S a))).
    set (mb := Z.pos (Pos.of_nat (S b))).
    assert (Hma : (0 < ma < 2 ^ 64)%Z) by (unfold ma; lia).
    assert (Hda : (Zdigits2 ma <= 64)%Z)
      by (apply Zdigits2_le; lia).
    destruct (SFdiv_core_binary 53 1024 ma 0 mb 0) as [[mz ez] lz] eqn:Hcore.
    assert (Hq : (0 <= mz)%Z /\ (ez <= 0)%Z /\ (Zdigits2 mz + ez <= 64)%Z).
    { unfold SFdiv_core_binary in Hcore.
      set (e' := Z.min (fexp 53 1024 (Zdigits2 ma + 0 - (Zdigits2 mb + 0)))
                       (0 - 0)) in Hcore.
      assert (He' : (e' <= 0)%Z) by (unfold e'; lia).
      set (m' := match (0 - 0 - e')%Z with
                 | Z0 => _ | Zpos _ => _ | Zneg _ => _ end) in Hcore.
      assert (Hm' : (0 <= m')%Z /\ (Zdigits2 m' + e' <= 64)%Z).
      { unfold m'. destruct (0 - 0 - e')%Z as [| s | s] eqn:Hs.
        - split; lia.
        - split; [apply Z.shiftl_nonneg; lia |].
          pose proof (Zdigits2_shiftl ma (Z.pos s) ltac:(lia) ltac:(lia)).
          lia.
        - lia. }
      pose proof (Z.div_eucl_eq m' mb ltac:(unfold mb; lia)) as Heq.
      pose proof (Z.mod_pos_bound m' mb ltac:(unfold mb; lia)) as Hmod.
      unfold Z.modulo in Hmod.
      destruct (Z.div_eucl m' mb) as [q r].
      injection Hcore as <- <- _.
      assert (Hq0 : (0 <= q)%Z) by (unfold mb in *; nia).
      assert (Hqm : (q <= m')%Z) by (unfold mb in *; nia).
      pose proof (Zdigits2_mono q m' ltac:(lia)).
      repeat split; lia. }
    destruct Hq as [Hmz [Hez Hdz]].
    pose proof (binary_round_aux_sized mz ez lz 12 64 Hmz ltac:(lia) Hdz
                  ltac:(lia) ltac:(lia) ltac:(lia)) as Hs.
    change (Z.max (12 + 1) (64 + 1)) with 65%Z in Hs.
    destruct (binary_round_aux 53 1024 false mz ez lz)
      as [[] | [] | | [] m e]; try contradiction;
      eexists; (split; [reflexivity | exact Hs]).
Qed.

Lemma iter_xO_digits (p k : positive) :
  Z.pos (digits2_pos (Pos.iter xO p k)) = (Z.pos (digits2_pos p) + Z.pos k)%Z.
Proof.
  induction k as [| k IH] using Pos.peano_ind.
  - simpl. lia.
  - rewrite Pos.iter_succ. simpl digits2_pos. lia.
Qed.

Lemma py_float_of_int_sized (n : nat) :
  (Z.of_nat n < 2 ^ 64)%Z ->
  exists y, py_float_of_int n = Ok y /\ sized 12 65 y.
Proof.
  intros Hn. unfold py_float_of_int, binary_normalize.
  destruct (Z.of_nat n) as [| p | p] eqn:Hp; [| | lia].
  - eexists. split; [reflexivity | exact I].
  - assert (Hd : (Zdigits2 (Z.pos p) <= 64)%Z)
      by (apply Zdigits2_le; lia).
    unfold binary_round.
    destruct (shl_align p 0 (fexp 53 1024 (Z.pos (digits2_pos p) + 0)))
      as [mz ez] eqn:Halign.
    assert (Hz : (ez <= 0)%Z /\ (Zdigits2 (Z.pos mz) + ez <= 64)%Z).
    { unfold shl_align in Halign.
      destruct (fexp 53 1024 (Z.pos (digits2_pos p) + 0) - 0)%Z
        as [| k | k] eqn:Hk; injection Halign as <- <-.
      - split; lia.
      - split; lia.
      - simpl Zdigits2. rewrite iter_xO_digits.
        simpl Zdigits2 in Hd. rewrite Z.add_0_r in Hk. lia. }
    destruct Hz as [Hez Hdz].
    pose proof (binary_round_aux_sized (Z.pos mz) ez loc_Exact 12 64
                  ltac:(lia) ltac:(lia) Hdz
                  ltac:(lia) ltac:(lia) ltac:(lia)) as Hs.
    change (Z.max (12 + 1) (64 + 1)) with 65%Z in Hs.
    destruct (binary_round_aux 53 1024 false (Z.pos mz) ez loc_Exact)
      as [[] | [] | | [] m e]; try contradiction;
      eexists; (split; [reflexivity | exact Hs]).
Qed.

Lemma SFmul_sized (x y : spec_float) :
  sized 12 65 x -> sized 12 65 y ->
  nonneg_finite (SFmul 53 1024 x y).
Proof.
  intros Hx Hy.
  destruct x as [[] | [] | | [] mx ex]; try contradiction;
    destruct y as [[] | [] | | [] my ey]; try contradiction;
    try exact I.
  destruct Hx as [Hex Hdx]. destruct Hy as [Hey Hdy].
  cbn [SFmul xorb].
  pose proof (Zdigits2_mul (Z.pos mx) (Z.pos my) ltac:(lia) ltac:(lia))
    as Hmul.
  apply (sized_nonneg_finite 78 (Z.max (78 + 1) (130 + 1))).
  apply binary_round_aux_sized; try lia.
  change (Z.pos (mx * my)) with (Z.pos mx * Z.pos my)%Z. lia.
Qed.

(** For a positive source rate, a length and a target rate below [2 ^ 64]
    the count is computed: no double overflows on the way. *)
Lemma resample_new_length_defined (len sr_orig sr_target : nat) :
  (0 < sr_orig)%nat ->
  (Z.of_nat len < 2 ^ 64)%Z -> (Z.of_nat sr_target < 2 ^ 64)%Z ->
  exists duration scaled n,
    py_truediv_binary64 len sr_orig = Ok duration /\
    py_mul_float_int duration sr_target = Ok scaled /\
    nonneg_finite scaled /\
    py_int_binary64 scaled = Ok n /\
    resample_new_length len sr_orig sr_target = Ok n /\ (0 <= n)%Z.
Proof.
  intros Hsr Hlen Ht. unfold resample_new_length.
  destruct (py_truediv_binary64_sized len sr_orig Hsr Hlen)
    as [q [Hq Hsq]].
  unfold py_mul_float_int.
  destruct (py_float_of_int_sized sr_target Ht) as [y [Hy Hsy]].
  pose proof (SFmul_sized q y Hsq Hsy) as Hfin.
  destruct (py_int_binary64_nonneg _ Hfin) as [n [Hn Hn0]].
  exists q, (SFmul 53 1024 q y), n.
  rewrite Hq, Hy. cbn [bind].
  repeat split; assumption || reflexivity.
Qed.

Lemma powerRZ_2_pow (k : Z) : (0 <= k)%Z -> powerRZ 2 k = IZR (2 ^ k).
Proof.
  intros Hk. destruct k as [| p | p]; [reflexivity | | lia].
  symmetry. apply (Zpower_pos_powerRZ 2 p).
Qed.

(** [int(x)] is the integer part of a non-negative double. *)
Lemma py_int_binary64_truncates (x : spec_float) (n : Z) :
  nonneg_finite x -> py_int_binary64 x = Ok n ->
  IZR n <= binary64_value x < IZR n + 1.
Proof.
  intros Hx Hn.
  destruct x as [[] | [] | | [] m e]; try contradiction.
  - injection Hn as <-. simpl. lra.
  - cbn [py_int_binary64] in Hn. injection Hn as <-.
    cbn [binary64_value]. rewrite Rmult_1_l.
    destruct (Z.le_gt_cases 0 e) as [He | He].
    + rewrite Z.shiftl_mul_pow2, powerRZ_2_pow, mult_IZR by exact He. lra.
    + rewrite Z.shiftl_div_pow2 by lia.
      replace e with (- (- e))%Z at 2 3 by lia.
      rewrite powerRZ_neg', powerRZ_2_pow by lia.
      set (k := (2 ^ (- e))%Z).
      assert (Hk : (0 < k)%Z) by (apply Z.pow_pos_nonneg; lia).
      pose proof (Z.div_mod (Z.pos m) k ltac:(lia)) as Hdiv.
      pose proof (Z.mod_pos_bound (Z.pos m) k Hk) as Hmod.
      set (q := (Z.pos m / k)%Z) in *.
      assert (Hlo : (q * k <= Z.pos m)%Z) by lia.
      assert (Hhi : (Z.pos m < (q + 1) * k)%Z) by lia.
      apply IZR_le in Hlo. apply IZR_lt in Hhi.
      rewrite mult_IZR in Hlo, Hhi. rewrite plus_IZR in Hhi.
      assert (HkR : 0 < IZR k) by (apply IZR_lt; exact Hk).
      split.
      * apply (Rmult_le_reg_r (IZR k)); [exact HkR |].
        rewrite Rmult_assoc, Rinv_l by lra. lra.
      * apply (Rmult_lt_reg_r (IZR k)); [exact HkR |].
        rewrite Rmult_assoc, Rinv_l by lra. lra.
Qed.

(** *** The resampled buffer *)

Lemma resample_if_needed_length `{E : Env}
    (data : list R) (sr_orig sr_target : nat) (n : Z) :
  sr_orig <> sr_target -> data <> [] ->
  resample_new_length (length data) sr_orig sr_target = Ok n -> (0 < n)%Z ->
  exists out,
    resample_if_needed data sr_orig sr_target = Ok out /\
    Z.of_nat (length out) = n.
Proof.
  intros Hne Hdata Hn Hpos. unfold resample_if_needed.
  destruct (Nat.eqb_spec sr_orig sr_target) as [Heq | _];
    [contradiction |].
  rewrite Hn. cbn [bind].
  destruct (signal_resample_defined data (Z.to_nat n) Hdata ltac:(lia))
    as [out Hout].
  exists out. split; [exact Hout |].
  rewrite (signal_resample_length _ _ _ Hout). lia.
Qed.

(** C4, as the code has it. Resampling to the buffer's own rate returns the
    input unchanged.  Otherwise, for a positive source rate (and a length
    and a target rate below [2 ^ 64], so that no double overflows), the
    count [int(len / sr_orig * sr_target)] is computed: the quotient and
    the product are doubles, and the count is the integer part of the
    product, truncated and not rounded; a non-empty buffer with a count of
    at least one sample is resampled to that many samples. *)
Theorem resample_length_truncated `{E : Env}
    (data : list R) (sr_orig sr_target : nat) :
  resample_if_needed data sr_orig sr_orig = Ok data /\
  (sr_orig <> sr_target -> (0 < sr_orig)%nat ->
   (Z.of_nat (length data) < 2 ^ 64)%Z -> (Z.of_nat sr_target < 2 ^ 64)%Z ->
   exists duration scaled n,
     py_truediv_binary64 (length data) sr_orig = Ok duration /\
     py_mul_float_int duration sr_target = Ok scaled /\
     resample_new_length (length data) sr_orig sr_target = Ok n /\
     (0 <= n)%Z /\
     IZR n <= binary64_value scaled < IZR n + 1 /\
     (data <> [] -> (0 < n)%Z ->
      exists out,
        resample_if_needed data sr_orig sr_target = Ok out /\
        Z.of_nat (length out) = n)).
Proof.
  split.
  - unfold resample_if_needed. rewrite Nat.eqb_refl. reflexivity.
  - intros Hne Hsr Hlen Ht.
    destruct (resample_new_length_defined (length data) sr_orig sr_target
                Hsr Hlen Ht)
      as [duration [scaled [n [Hd [Hs [Hfin [Hint [Hn Hn0]]]]]]]].
    exists duration, scaled, n.
    split; [exact Hd |]. split; [exact Hs |]. split; [exact Hn |].
    split; [exact Hn0 |].
    split; [exact (py_int_binary64_truncates scaled n Hfin Hint) |].
    intros Hdata Hpos.
    exact (resample_if_needed_length data sr_orig sr_target n
             Hne Hdata Hn Hpos).
Qed.

Lemma rates_differ (a b : nat) : (a =? b)%nat = false -> a <> b.
Proof. apply Nat.eqb_neq. Qed.

Lemma resample_length_truncated_witness :
  exists out,
    resample_if_needed (E := example_env no_files)
      [0; 0; 0; 0; 0; 0; 0; 0; 0; 0; 0; 0; 0; 0; 0] 44100 88200 = Ok out /\
    length out = 29%nat.
Proof.
  assert (Hne : (44100 <> 88200)%nat)
    by (apply rates_differ; vm_compute; reflexivity).
  assert (Hsr : (0 < 44100)%nat)
    by (apply Nat.ltb_lt; vm_compute; reflexivity).
  assert (Hlen : (Z.of_nat
                    (length [0; 0; 0; 0; 0; 0; 0; 0; 0; 0; 0; 0; 0; 0; 0])
                  < 2 ^ 64)%Z)
    by (cbn [length]; vm_compute; reflexivity).
  assert (Ht : (Z.of_nat 88200 < 2 ^ 64)%Z) by (vm_compute; reflexivity).
  destruct (proj2 (resample_length_truncated (E := example_env no_files)
                     [0; 0; 0; 0; 0; 0; 0; 0; 0; 0; 0; 0; 0; 0; 0]
                     44100 88200) Hne Hsr Hlen Ht)
    as [duration [scaled [n [_ [_ [Hn [_ [_ Hout]]]]]]]].
  cbn [length] in Hn.
  assert (H29 : resample_new_length 15 44100 88200 = Ok 29%Z)
    by (vm_compute; reflexivity).
  rewrite H29 in Hn. injection Hn as <-.
  destruct (Hout ltac:(discriminate) ltac:(lia)) as [out [Hok Hl]].
  exists out. split; [exact Hok | lia].
Defined.

Lemma py_round_up (x : R) (z : Z) :
  IZR z + 0.5 < x < IZR z + 1 -> py_round x = (z + 1)%Z.
Proof.
  intros Hx. unfold py_round.
  assert (Hf : z = Int_part x) by (apply Int_part_spec; lra).
  rewrite <- Hf.
  rewrite Rltb_false by lra. rewrite Rgtb_true by lra. reflexivity.
Qed.

(** C4, as stated, fails: seven samples taken from 44100 Hz to
    48000 Hz become [int(7.619...)] = 7 samples, where rounding gives 8. *)
Lemma resample_length_not_rounded :
  exists out,
    resample_if_needed (E := example_env no_files)
      [0; 0; 0; 0; 0; 0; 0] 44100 48000 = Ok out /\
    Z.of_nat (length out)
    <> py_round (INR (length [0; 0; 0; 0; 0; 0; 0]) / INR 44100 * INR 48000).
Proof.
  assert (H7 : resample_new_length (length [0; 0; 0; 0; 0; 0; 0]) 44100 48000
               = Ok 7%Z)
    by (cbn [length]; vm_compute; reflexivity).
  destruct (resample_if_needed_length (E := example_env no_files)
              [0; 0; 0; 0; 0; 0; 0] 44100 48000 7
              ltac:(apply rates_differ; vm_compute; reflexivity)
              ltac:(discriminate) H7 ltac:(lia))
    as [out [Hout Hlen]].
  exists out. split; [exact Hout |].
  rewrite Hlen.
  assert (Hx : INR (length [0; 0; 0; 0; 0; 0; 0]) / INR 44100 * INR 48000
               = 7 * 48000 / 44100).
  { rewrite !INR_of_nat_Z.
    replace (Z.of_nat 44100) with 44100%Z by (vm_compute; reflexivity).
    replace (Z.of_nat 48000) with 48000%Z by (vm_compute; reflexivity).
    simpl. lra. }
  rewrite Hx, (py_round_up _ 7) by lra.
  discriminate.
Qed.

(** ** The exception monad *)

Lemma bind_Ok {A B : Type} (a : A) (k : A -> result B) : bind (Ok a) k = k a.
Proof. reflexivity. Qed.

Lemma bind_Raise {A B : Type} (e : exn) (k : A -> result B) :
  bind (Raise e) k = Raise e.
Proof. reflexivity. Qed.

Lemma bind_inv {A B : Type} (c : result A) (k : A -> result B) (b : B) :
  bind c k = Ok b -> exists a, c = Ok a /\ k a = Ok b.
Proof.
  destruct c as [a | e]; simpl; intros Hb; [| discriminate].
  exists a. split; [reflexivity | exact Hb].
Qed.

Lemma Ok_inj {A : Type} (a b : A) : Ok a = Ok b -> a = b.
Proof. intros Hab. injection Hab as Hab. exact Hab. Qed.

(** ** Amplitude analyzer *)

(** C2, at the empty buffer: [np.max] has no value to reduce and the
    analyzer raises before any statistic is produced. *)
Theorem amplitude_stats_empty_raises `{E : Env}
    (sample_rate : nat) (silence_threshold_db : R) :
  calculate_amplitude_stats [] sample_rate silence_threshold_db
  = Raise ValueError.
Proof. reflexivity. Qed.

Lemma np_sum_zeros (a : list R) : Forall (eq 0) a -> np_sum a = 0.
Proof.
  induction 1 as [| x t Hx _ IH]; simpl; [reflexivity |].
  rewrite IH, <- Hx. lra.
Qed.

Lemma np_square_zeros (a : list R) :
  Forall (eq 0) a -> Forall (eq 0) (np_square a).
Proof.
  unfold np_square. induction 1 as [| x t Hx _ IH]; simpl; constructor;
    [subst x; lra | exact IH].
Qed.

Lemma Forall_skipn {A : Type} (P : A -> Prop) (n : nat) (a : list A) :
  Forall P a -> Forall P (skipn n a).
Proof.
  intros Ha. apply Forall_forall. intros x Hx.
  rewrite Forall_forall in Ha. apply Ha.
  rewrite <- (firstn_skipn n a). apply in_or_app. right. exact Hx.
Qed.

Lemma Forall_firstn {A : Type} (P : A -> Prop) (n : nat) (a : list A) :
  Forall P a -> Forall P (firstn n a).
Proof.
  intros Ha. apply Forall_forall. intros x Hx.
  rewrite Forall_forall in Ha. apply Ha.
  rewrite <- (firstn_skipn n a). apply in_or_app. left. exact Hx.
Qed.

Lemma slice_zeros (a : list R) (lo hi : nat) :
  Forall (eq 0) a -> Forall (eq 0) (slice a lo hi).
Proof. intros Ha. unfold slice. apply Forall_firstn, Forall_skipn, Ha. Qed.

Lemma repeat_zeros (n : nat) : Forall (eq 0) (repeat 0 n).
Proof. induction n; simpl; constructor; auto. Qed.

Lemma rms_zeros (a : list R) :
  Forall (eq 0) a -> sqrt (np_mean (np_square a)) = 0.
Proof.
  intros Ha. unfold np_mean.
  rewrite (np_sum_zeros _ (np_square_zeros _ Ha)).
  unfold Rdiv. rewrite Rmult_0_l. apply sqrt_0.
Qed.

Lemma fold_left_Rmax_zeros (a : list R) :
  Forall (eq 0) a -> fold_left Rmax a 0 = 0.
Proof.
  induction 1 as [| x t Hx _ IH]; simpl; [reflexivity |].
  subst x. rewrite Rmax_left by lra. exact IH.
Qed.

Lemma np_abs_zeros (a : list R) : Forall (eq 0) a -> Forall (eq 0) (np_abs a).
Proof.
  unfold np_abs. induction 1 as [| x t Hx _ IH]; simpl; constructor;
    [subst x; symmetry; apply Rabs_R0 | exact IH].
Qed.

Lemma np_log10_floor : 20 * np_log10 (Rmax 0 1e-10) = -200.
Proof.
  rewrite Rmax_right by lra. unfold np_log10.
  replace 1e-10 with (/ (10 ^ 10)) by lra.
  rewrite ln_Rinv by lra. rewrite ln_pow by lra.
  assert (Hln : 0 < ln 10) by (rewrite <- ln_1; apply ln_increasing; lra).
  simpl INR. field. lra.
Qed.

Lemma silent_windows_dropped
    (a : list R) (window_size num_windows : nat) (silence_threshold_db : R) :
  Forall (eq 0) a ->
  window_rms_values a window_size num_windows silence_threshold_db = [].
Proof.
  intros Ha. unfold window_rms_values.
  induction (seq 0 num_windows) as [| i t IH]; [reflexivity |].
  simpl. rewrite (rms_zeros _ (slice_zeros a _ _ Ha)).
  rewrite Rgtb_false by (apply Rlt_le, py_pow_pos). exact IH.
Qed.

Lemma window_size_pos (sample_rate : nat) :
  (10 <= sample_rate)%nat ->
  (0 < Z.to_nat (py_int (0.1 * INR sample_rate)))%nat.
Proof.
  intros Hsr.
  assert (H10 : 10 <= INR sample_rate).
  { replace 10 with (INR 10) by (simpl; lra). apply le_INR. exact Hsr. }
  unfold py_int. destruct (Rle_dec 0 (0.1 * INR sample_rate)); [| lra].
  destruct (base_Int_part (0.1 * INR sample_rate)) as [_ Hlow].
  assert (Hpos : 0 < IZR (Int_part (0.1 * INR sample_rate))) by lra.
  apply lt_0_IZR in Hpos. lia.
Qed.

Lemma dynamic_range_silence `{E : Env}
    (a : list R) (sample_rate : nat) (silence_threshold_db : R) :
  (10 <= sample_rate)%nat -> Forall (eq 0) a ->
  dynamic_range_of a sample_rate silence_threshold_db = Ok 0.
Proof.
  intros Hsr Ha. unfold dynamic_range_of.
  pose proof (window_size_pos sample_rate Hsr) as Hws.
  destruct (_ <=? length a)%nat; [| reflexivity].
  unfold py_floordiv.
  destruct (Z.of_nat _ =? 0)%Z eqn:Hw0; [apply Z.eqb_eq in Hw0; lia |].
  rewrite bind_Ok. cbv zeta.
  rewrite (silent_windows_dropped _ _ _ _ Ha). reflexivity.
Qed.

(** The all-zero part of C2: a non-empty all-zero buffer (at a rate of at
    least 10 Hz, so that the 100 ms window holds a sample) has peak and RMS
    zero, both levels at the epsilon floor of -200 dB, and no crest factor,
    dynamic range or DC offset. *)
Lemma amplitude_stats_silence `{E : Env}
    (n sample_rate : nat) (silence_threshold_db : R) :
  (10 <= sample_rate)%nat ->
  calculate_amplitude_stats (repeat 0 (S n)) sample_rate silence_threshold_db
  = Ok {| peak_linear := 0; peak_db := -200; rms_linear := 0;
          rms_db := -200; crest_factor_db := 0; dynamic_range_db := 0;
          dc_offset := 0 |}.
Proof.
  intros Hsr. unfold calculate_amplitude_stats.
  assert (Hz : Forall (eq 0) (repeat 0 (S n))) by apply repeat_zeros.
  assert (Hpeak : np_max (np_abs (repeat 0 (S n))) = Ok 0).
  { simpl. rewrite Rabs_R0. f_equal.
    apply fold_left_Rmax_zeros, (np_abs_zeros _ (repeat_zeros n)). }
  rewrite Hpeak, bind_Ok. cbv zeta.
  rewrite (dynamic_range_silence _ _ _ Hsr Hz), bind_Ok.
  rewrite (rms_zeros _ Hz), np_log10_floor.
  assert (Hdc : np_mean (repeat 0 (S n)) = 0).
  { unfold np_mean. rewrite (np_sum_zeros _ Hz). lra. }
  rewrite Hdc. f_equal. f_equal; lra.
Qed.

(** ** Spectral analyzer *)

Lemma np_hanning_length (M : nat) : length (np_hanning M) = M.
Proof.
  destruct M as [| [| M]]; [reflexivity | reflexivity |].
  unfold np_hanning. rewrite length_map, length_seq. reflexivity.
Qed.

Lemma zip_with_zeros_l (a w : list R) :
  Forall (eq 0) a -> Forall (eq 0) (zip_with Rmult a w).
Proof.
  unfold zip_with. intros Ha. revert w.
  induction Ha as [| x t Hx _ IH]; intros w; [constructor |].
  destruct w as [| y w]; simpl; constructor; [subst x; lra | apply IH].
Qed.

Lemma zip_with_length (f : R -> R -> R) (a b : list R) :
  length (zip_with f a b) = Nat.min (length a) (length b).
Proof. unfold zip_with. rewrite length_map, length_combine. reflexivity. Qed.

Lemma weighted_sum_zeros (x : list R) (f : nat -> R) (idx : list nat) :
  Forall (eq 0) x ->
  np_sum (map (fun p => snd p * f (fst p)) (combine idx x)) = 0.
Proof.
  intros Hx. revert idx.
  induction Hx as [| v t Hv _ IH]; intros idx.
  - destruct idx; reflexivity.
  - destruct idx as [| i idx]; simpl; [reflexivity |].
    rewrite IH. subst v. lra.
Qed.

Lemma dft_re_zeros (x : list R) (k : nat) : Forall (eq 0) x -> dft_re x k = 0.
Proof.
  intros Hx. unfold dft_re.
  apply (weighted_sum_zeros x
           (fun n => cos (2 * PI * INR k * INR n / INR (length x)))), Hx.
Qed.

Lemma dft_im_zeros (x : list R) (k : nat) : Forall (eq 0) x -> dft_im x k = 0.
Proof.
  intros Hx. unfold dft_im.
  rewrite (weighted_sum_zeros x
             (fun n => sin (2 * PI * INR k * INR n / INR (length x))))
    by exact Hx.
  lra.
Qed.

Lemma rfft_abs_zeros (x : list R) :
  x <> [] -> Forall (eq 0) x ->
  exists spectrum, rfft_abs x = Ok spectrum /\ Forall (eq 0) spectrum.
Proof.
  intros Hne Hx. destruct x as [| v t]; [contradiction |].
  eexists. split; [reflexivity |].
  apply Forall_forall. intros s Hs. apply in_map_iff in Hs.
  destruct Hs as [k [<- _]].
  rewrite (dft_re_zeros _ k Hx), (dft_im_zeros _ k Hx).
  rewrite Rmult_0_l, Rplus_0_l. symmetry. apply sqrt_0.
Qed.

Lemma Forall_tl {A : Type} (P : A -> Prop) (a : list A) :
  Forall P a -> Forall P (tl a).
Proof. destruct 1; simpl; [constructor | assumption]. Qed.

Lemma spectral_segment_length (data : list R) (sample_rate : nat) :
  length (spectral_segment data sample_rate)
  = Nat.min (length data) (sample_rate * 2).
Proof.
  unfold spectral_segment, slice. cbv zeta.
  set (m := Nat.min (length data) (sample_rate * 2)).
  rewrite length_firstn, length_skipn.
  assert (Hhalf : ((length data - m) / 2 <= length data - m)%nat)
    by (apply Nat.Div0.div_le_upper_bound; lia).
  lia.
Qed.

(** The spectrum of a non-empty all-zero buffer is computed and is zero. *)
Lemma spectrum_of_silence (n sample_rate : nat) :
  (0 < n)%nat -> (0 < sample_rate)%nat ->
  exists spectrum freqs,
    spectrum_and_freqs (repeat 0 n) sample_rate = Ok (spectrum, freqs) /\
    Forall (eq 0) spectrum.
Proof.
  intros Hn Hsr. unfold spectrum_and_freqs.
  set (segment := spectral_segment (repeat 0 n) sample_rate).
  assert (Hseg : Forall (eq 0) segment)
    by (apply slice_zeros, repeat_zeros).
  assert (Hlen : (0 < length segment)%nat).
  { unfold segment. rewrite spectral_segment_length, repeat_length. lia. }
  set (windowed := zip_with Rmult segment (np_hanning (length segment))).
  assert (Hwz : Forall (eq 0) windowed) by (apply zip_with_zeros_l, Hseg).
  assert (Hwl : length windowed = length segment).
  { unfold windowed. rewrite zip_with_length, np_hanning_length. lia. }
  assert (Hwne : windowed <> []).
  { intros Hnil. rewrite Hnil in Hwl. simpl in Hwl. lia. }
  destruct (rfft_abs_zeros windowed Hwne Hwz) as [spectrum [-> Hspec]].
  rewrite bind_Ok. unfold py_truediv_nat.
  destruct (sample_rate =? 0)%nat eqn:Hsr0;
    [apply Nat.eqb_eq in Hsr0; lia |].
  rewrite bind_Ok. unfold rfftfreq.
  destruct (length windowed =? 0)%nat eqn:Hw0;
    [apply Nat.eqb_eq in Hw0; lia |].
  rewrite bind_Ok. do 2 eexists. split; [reflexivity |].
  apply Forall_tl, Hspec.
Qed.

(** The empty buffer has no spectrum: the transform of zero points is
    refused. *)
Lemma spectral_stats_empty_raises `{E : Env} (sample_rate : nat) :
  calculate_spectral_stats [] sample_rate = Raise ValueError.
Proof. reflexivity. Qed.

(** C7. Whenever the spectrum is computed and its total power (the sum of
    the squared magnitudes without the DC bin) is below 1e-10, the spectral
    analyzer returns the all-zero statistics with no dominant frequency; in
    particular it does so, without raising, on every non-empty all-zero
    buffer at a positive sample rate. *)
Theorem spectral_stats_silence_guard `{E : Env}
    (data : list R) (sample_rate : nat) :
  (forall spectrum freqs,
     spectrum_and_freqs data sample_rate = Ok (spectrum, freqs) ->
     np_sum (np_square spectrum) < 1e-10 ->
     calculate_spectral_stats data sample_rate = Ok spectral_silence) /\
  (forall n,
     (0 < n)%nat -> (0 < sample_rate)%nat ->
     calculate_spectral_stats (repeat 0 n) sample_rate = Ok spectral_silence).
Proof.
  assert (Hguard : forall d spectrum freqs,
    spectrum_and_freqs d sample_rate = Ok (spectrum, freqs) ->
    np_sum (np_square spectrum) < 1e-10 ->
    calculate_spectral_stats d sample_rate = Ok spectral_silence).
  { intros d spectrum freqs Hsf Hpow. unfold calculate_spectral_stats.
    rewrite Hsf, bind_Ok. cbv zeta. simpl fst.
    rewrite Rltb_true by exact Hpow. reflexivity. }
  split; [apply Hguard |].
  intros n Hn Hsr.
  destruct (spectrum_of_silence n sample_rate Hn Hsr)
    as [spectrum [freqs [Hsf Hzero]]].
  apply (Hguard _ spectrum freqs Hsf).
  rewrite (np_sum_zeros _ (np_square_zeros _ Hzero)). lra.
Qed.

Lemma spectral_stats_silence_guard_witness :
  (0 < 4)%nat /\ (0 < 200)%nat /\
  calculate_spectral_stats (E := example_env no_files) (repeat 0 4) 200
  = Ok spectral_silence /\
  exists spectrum freqs,
    spectrum_and_freqs (repeat 0 4) 200 = Ok (spectrum, freqs) /\
    np_sum (np_square spectrum) < 1e-10 /\
    calculate_spectral_stats (E := example_env no_files) (repeat 0 4) 200
    = Ok spectral_silence.
Proof.
  assert (Hn : (0 < 4)%nat) by lia.
  assert (Hsr : (0 < 200)%nat) by lia.
  split; [exact Hn | split; [exact Hsr |]].
  split.
  - exact (proj2 (spectral_stats_silence_guard (E := example_env no_files)
                    [] 200) 4%nat Hn Hsr).
  - destruct (spectrum_of_silence 4 200 Hn Hsr)
      as [spectrum [freqs [Hsf Hzero]]].
    assert (Hpow : np_sum (np_square spectrum) < 1e-10).
    { rewrite (np_sum_zeros _ (np_square_zeros _ Hzero)). lra. }
    exists spectrum, freqs. split; [exact Hsf |]. split; [exact Hpow |].
    exact (proj1 (spectral_stats_silence_guard (E := example_env no_files)
                    (repeat 0 4) 200) spectrum freqs Hsf Hpow).
Defined.

(** ** Transient detector *)

(** C10. The reported transient count is the number of detected peaks,
    uncapped, while the reported times are those of the first 20 peaks; so
    with more than 20 peaks the count exceeds the length of the list. *)
Theorem transient_count_uncapped `{E : Env}
    (data : list R) (sample_rate : nat) (threshold_db : R) (t : TimingStats) :
  detect_transients data sample_rate threshold_db = Ok t ->
  exists peaks,
    detected_peaks data sample_rate peaks /\
    num_transients t = length peaks /\
    transient_times_ms t
    = firstn 20
        (map (fun p => INR p * IZR (py_int (0.01 * INR sample_rate))
                       / INR sample_rate * 1000) peaks) /\
    length (transient_times_ms t) = Nat.min 20 (length peaks) /\
    ((20 < length peaks)%nat ->
     (length (transient_times_ms t) < num_transients t)%nat).
Proof.
  unfold detect_transients. intros Hdet.
  apply bind_inv in Hdet. destruct Hdet as [os [Hos Hdet]].
  destruct os as [onset |]; cbv zeta in Hdet; apply Ok_inj in Hdet;
    subst t.
  - eexists. split; [right; exists onset; split; [exact Hos | reflexivity] |].
    unfold num_transients, transient_times_ms. cbv beta iota.
    rewrite length_firstn, length_map.
    repeat split; try reflexivity. lia.
  - exists []. split; [left; split; [exact Hos | reflexivity] |].
    unfold num_transients, transient_times_ms. cbv beta iota.
    repeat split; try reflexivity. simpl. lia.
Qed.

(** ** Orchestrator: what each stage leaves behind *)

Lemma find_alignment_offset_by_transient_inv
    (ref target : list R) (sample_rate : nat) (threshold_db : R)
    (offset : Z) (confidence : R) :
  find_alignment_offset_by_transient ref target sample_rate threshold_db
  = Ok (offset, confidence) ->
  offset = transient_offset ref target sample_rate threshold_db.
Proof.
  unfold find_alignment_offset_by_transient. cbv zeta. intros Hf.
  apply bind_inv in Hf. destruct Hf as [p1 [_ Hf]].
  apply bind_inv in Hf. destruct Hf as [p2 [_ Hf]].
  apply Ok_inj in Hf. injection Hf as <- _. reflexivity.
Qed.

Lemma find_alignment_offset_by_transient_defined
    (ref target : list R) (sample_rate : nat) (threshold_db : R) :
  ref <> [] -> target <> [] -> (0 < sample_rate)%nat ->
  exists confidence,
    find_alignment_offset_by_transient ref target sample_rate threshold_db
    = Ok (transient_offset ref target sample_rate threshold_db, confidence).
Proof.
  intros Hr Ht Hsr. unfold find_alignment_offset_by_transient. cbv zeta.
  destruct (leading_peak_defined ref sample_rate Hsr Hr) as [p1 ->].
  destruct (leading_peak_defined target sample_rate Hsr Ht) as [p2 ->].
  rewrite !bind_Ok. eexists. reflexivity.
Qed.

Lemma align_views_inv
    (d1 d2 : list R) (target_sr : nat) (dur2 : R) (align trim : bool)
    (silence_threshold_db : R) (v : Views) :
  align_views d1 d2 target_sr dur2 align trim silence_threshold_db = Ok v ->
  data1 v = d1 /\
  data2 v
  = second_analyzed_buffer d1 d2 target_sr align trim silence_threshold_db /\
  (data1_aligned v, data2_aligned v)
  = aligned_pair d1 d2 target_sr align trim silence_threshold_db /\
  (if align then
     exists confidence,
       find_alignment_offset_by_transient
         d1 d2 target_sr silence_threshold_db
       = Ok (transient_offset d1 d2 target_sr silence_threshold_db,
             confidence) /\
       offset_ms v
       = IZR (transient_offset d1 d2 target_sr silence_threshold_db)
         / INR target_sr * 1000 /\
       align_corr v = confidence
   else offset_ms v = 0 /\ align_corr v = 0).
Proof.
  unfold align_views, second_analyzed_buffer, aligned_pair.
  destruct align; cbv zeta; intros Hv.
  - apply bind_inv in Hv. destruct Hv as [[offset confidence] [Hoc Hv]].
    pose proof (find_alignment_offset_by_transient_inv _ _ _ _ _ _ Hoc)
      as Hoff.
    simpl fst in Hv. simpl snd in Hv. subst offset.
    set (offset := transient_offset d1 d2 target_sr silence_threshold_db)
      in *.
    apply bind_inv in Hv. destruct Hv as [q [Hq Hv]].
    unfold py_truediv in Hq.
    destruct (Req_dec_T (INR target_sr) 0); [discriminate |].
    apply Ok_inj in Hq. subst q.
    destruct trim.
    + apply bind_inv in Hv. destruct Hv as [dur [_ Hv]].
      apply Ok_inj in Hv. subst v. simpl.
      repeat split; try reflexivity.
      exists confidence. repeat split; try reflexivity. exact Hoc.
    + apply Ok_inj in Hv. subst v. simpl.
      repeat split; try reflexivity.
      exists confidence. repeat split; try reflexivity. exact Hoc.
  - apply Ok_inj in Hv. subst v. simpl. repeat split; reflexivity.
Qed.

Lemma align_views_defined
    (d1 d2 : list R) (target_sr : nat) (dur2 : R) (align trim : bool)
    (silence_threshold_db : R) :
  d1 <> [] -> d2 <> [] -> (0 < target_sr)%nat ->
  exists v,
    align_views d1 d2 target_sr dur2 align trim silence_threshold_db = Ok v.
Proof.
  intros H1 H2 Hsr. unfold align_views.
  destruct align; [| eexists; reflexivity].
  destruct (find_alignment_offset_by_transient_defined
              d1 d2 target_sr silence_threshold_db H1 H2 Hsr) as [c ->].
  rewrite bind_Ok. cbv zeta. unfold py_truediv.
  destruct (Req_dec_T (INR target_sr) 0) as [H0 | _].
  { apply lt_0_INR in Hsr. lra. }
  rewrite bind_Ok. destruct trim; [| eexists; reflexivity].
  unfold py_truediv_nat.
  destruct (target_sr =? 0)%nat eqn:Hz; [apply Nat.eqb_eq in Hz; lia |].
  rewrite bind_Ok. eexists. reflexivity.
Qed.

Lemma normalize_views_inv (normalize : bool) (v0 v : Views) :
  normalize_views normalize v0 = Ok v ->
  data1 v = data1 v0 /\ data2 v = data2 v0 /\
  offset_ms v = offset_ms v0 /\ align_corr v = align_corr v0 /\
  (normalize = false -> v = v0).
Proof.
  unfold normalize_views. destruct normalize; intros Hv.
  - apply bind_inv in Hv. destruct Hv as [p1 [_ Hv]].
    apply bind_inv in Hv. destruct Hv as [p2 [_ Hv]].
    apply Ok_inj in Hv. subst v. simpl.
    repeat split; try reflexivity. discriminate.
  - apply Ok_inj in Hv. subst v. repeat split; reflexivity.
Qed.

(** The fields of the result, read off the analysis stage. *)
Lemma analyze_views_inv `{E : Env}
    (path1 path2 : String.string) (target_sr : nat) (duration1 : R)
    (align : bool) (silence_threshold_db : R) (v : Views)
    (r : ComparisonResult) :
  analyze_views path1 path2 target_sr duration1 align silence_threshold_db v
  = Ok r ->
  calculate_amplitude_stats (data1 v) target_sr silence_threshold_db
  = Ok (amplitude1 r) /\
  calculate_amplitude_stats (data2 v) target_sr silence_threshold_db
  = Ok (amplitude2 r) /\
  calculate_spectral_stats (data1 v) target_sr = Ok (spectral1 r) /\
  calculate_spectral_stats (data2 v) target_sr = Ok (spectral2 r) /\
  detect_transients (data1 v) target_sr silence_threshold_db
  = Ok (timing1 r) /\
  detect_transients (data2 v) target_sr silence_threshold_db
  = Ok (timing2 r) /\
  (exists es1 es2,
     calculate_envelope_stats (data1 v) target_sr silence_threshold_db
     = Ok es1 /\
     calculate_envelope_stats (data2 v) target_sr silence_threshold_db
     = Ok es2) /\
  (exists env1 env2,
     calculate_envelope (data1_aligned v) target_sr
       calculate_envelope_default_window_ms = Ok env1 /\
     calculate_envelope (data2_aligned v) target_sr
       calculate_envelope_default_window_ms = Ok env2 /\
     envelope_correlation r = calculate_correlation env1 env2) /\
  waveform_correlation r
  = calculate_correlation (data1_aligned v) (data2_aligned v) /\
  aligned r = align /\
  alignment_offset_ms r = offset_ms v /\
  alignment_correlation r = align_corr v.
Proof.
  unfold analyze_views. intros Hr.
  apply bind_inv in Hr. destruct Hr as [amp1 [Hamp1 Hr]].
  apply bind_inv in Hr. destruct Hr as [amp2 [Hamp2 Hr]].
  apply bind_inv in Hr. destruct Hr as [spec1 [Hspec1 Hr]].
  apply bind_inv in Hr. destruct Hr as [spec2 [Hspec2 Hr]].
  apply bind_inv in Hr. destruct Hr as [tim1 [Htim1 Hr]].
  apply bind_inv in Hr. destruct Hr as [tim2 [Htim2 Hr]].
  cbv zeta in Hr.
  apply bind_inv in Hr. destruct Hr as [env1 [Henv1 Hr]].
  apply bind_inv in Hr. destruct Hr as [env2 [Henv2 Hr]].
  apply bind_inv in Hr. destruct Hr as [scorr [Hscorr Hr]].
  apply bind_inv in Hr. destruct Hr as [es1 [Hes1 Hr]].
  apply bind_inv in Hr. destruct Hr as [es2 [Hes2 Hr]].
  apply Ok_inj in Hr. subst r.
  unfold set_issues, set_similarity_score. simpl.
  repeat split; try assumption; try reflexivity.
  - exists es1, es2. split; assumption.
  - exists env1, env2. repeat split; assumption.
Qed.

Lemma compare_audio_inv `{E : Env}
    (path1 path2 : String.string) (align trim normalize : bool)
    (silence_threshold_db : R) (r : ComparisonResult) :
  compare_audio path1 path2 align trim normalize silence_threshold_db = Ok r ->
  exists d1 d2 target_sr duration1 duration2 v0 v,
    load_and_resample path1 path2 = Ok (d1, d2, target_sr) /\
    align_views d1 d2 target_sr duration2 align trim silence_threshold_db
    = Ok v0 /\
    normalize_views normalize v0 = Ok v /\
    analyze_views path1 path2 target_sr duration1 align
      silence_threshold_db v = Ok r.
Proof.
  unfold compare_audio. intros Hr.
  apply bind_inv in Hr. destruct Hr as [[[d1 d2] sr] [Hload Hr]].
  cbv zeta in Hr. simpl fst in Hr. simpl snd in Hr.
  apply bind_inv in Hr. destruct Hr as [dur1 [_ Hr]].
  apply bind_inv in Hr. destruct Hr as [dur2 [_ Hr]].
  apply bind_inv in Hr. destruct Hr as [v0 [Hv0 Hr]].
  apply bind_inv in Hr. destruct Hr as [v [Hv Hr]].
  exists d1, d2, sr, dur1, dur2, v0, v. repeat split; assumption.
Qed.

(** ** When the analyzers return *)

Lemma dynamic_range_defined `{E : Env}
    (data : list R) (sample_rate : nat) (silence_threshold_db : R) :
  (10 <= sample_rate)%nat ->
  exists d, dynamic_range_of data sample_rate silence_threshold_db = Ok d.
Proof.
  intros Hsr. unfold dynamic_range_of.
  pose proof (window_size_pos sample_rate Hsr) as Hws. cbv zeta.
  destruct (_ <=? length data)%nat; [| eexists; reflexivity].
  unfold py_floordiv.
  destruct (Z.of_nat _ =? 0)%Z eqn:Hw0; [apply Z.eqb_eq in Hw0; lia |].
  rewrite bind_Ok.
  destruct (2 <=? _)%nat; eexists; reflexivity.
Qed.

Lemma amplitude_stats_defined `{E : Env}
    (data : list R) (sample_rate : nat) (silence_threshold_db : R) :
  data <> [] -> (10 <= sample_rate)%nat ->
  exists s,
    calculate_amplitude_stats data sample_rate silence_threshold_db = Ok s /\
    dc_offset s = np_mean data.
Proof.
  intros Hne Hsr. unfold calculate_amplitude_stats.
  assert (Habs : np_abs data <> []).
  { destruct data; [contradiction | discriminate]. }
  destruct (np_max_nonempty _ Habs) as [peak ->].
  rewrite bind_Ok. cbv zeta.
  destruct (dynamic_range_defined data sample_rate silence_threshold_db Hsr)
    as [d ->].
  rewrite bind_Ok. eexists. split; reflexivity.
Qed.

Lemma spectrum_defined (data : list R) (sample_rate : nat) :
  data <> [] -> (0 < sample_rate)%nat ->
  exists spectrum freqs,
    spectrum_and_freqs data sample_rate = Ok (spectrum, freqs).
Proof.
  intros Hne Hsr. unfold spectrum_and_freqs.
  set (segment := spectral_segment data sample_rate).
  assert (Hlen : (0 < length segment)%nat).
  { unfold segment. rewrite spectral_segment_length.
    destruct data; [contradiction | cbn [length]; lia]. }
  set (windowed := zip_with Rmult segment (np_hanning (length segment))).
  assert (Hwl : length windowed = length segment).
  { unfold windowed. rewrite zip_with_length, np_hanning_length. lia. }
  destruct windowed as [| w0 wt] eqn:Hw; [simpl in Hwl; lia |].
  unfold rfft_abs. rewrite bind_Ok. unfold py_truediv_nat.
  destruct (sample_rate =? 0)%nat eqn:Hsr0;
    [apply Nat.eqb_eq in Hsr0; lia |].
  rewrite bind_Ok. unfold rfftfreq.
  destruct (length (w0 :: wt) =? 0)%nat eqn:Hw0;
    [apply Nat.eqb_eq in Hw0; discriminate |].
  rewrite bind_Ok. do 2 eexists. reflexivity.
Qed.

Lemma spectral_stats_defined `{E : Env} (data : list R) (sample_rate : nat) :
  data <> [] -> (0 < sample_rate)%nat ->
  exists s, calculate_spectral_stats data sample_rate = Ok s.
Proof.
  intros Hne Hsr.
  destruct (spectrum_defined data sample_rate Hne Hsr)
    as [spectrum [freqs Hsf]].
  unfold calculate_spectral_stats. rewrite Hsf, bind_Ok. cbv zeta.
  simpl fst. simpl snd.
  unfold Rltb at 1. destruct (Rlt_dec (np_sum (np_square spectrum)) 1e-10)
    as [Hlow | Hhigh]; [eexists; reflexivity |].
  assert (Hspec : spectrum <> []).
  { intros ->. apply Hhigh. simpl. lra. }
  destruct (np_max_nonempty _ Hspec) as [top ->].
  rewrite bind_Ok. eexists. reflexivity.
Qed.

(** A buffer shorter than the 25 ms analysis window has no frame. *)
Lemma onset_strength_short (data : list R) (sample_rate : nat) :
  (0 < py_int (0.01 * INR sample_rate))%Z ->
  (Z.of_nat (length data) < py_int (0.025 * INR sample_rate))%Z ->
  onset_strength data sample_rate = Ok None.
Proof.
  intros Hhop Hshort. unfold onset_strength. cbv zeta. unfold py_floordiv.
  destruct (py_int (0.01 * INR sample_rate) =? 0)%Z eqn:H0;
    [apply Z.eqb_eq in H0; lia |].
  rewrite bind_Ok.
  set (hop := py_int (0.01 * INR sample_rate)) in *.
  set (wl := py_int (0.025 * INR sample_rate)) in *.
  assert (Hq : ((Z.of_nat (length data) - wl) / hop < 0)%Z)
    by (apply Z.div_lt_upper_bound; lia).
  destruct (_ <=? 0)%Z eqn:Hle; [reflexivity |].
  apply Z.leb_gt in Hle. lia.
Qed.

Lemma detect_transients_short `{E : Env}
    (data : list R) (sample_rate : nat) (threshold_db : R) :
  (0 < py_int (0.01 * INR sample_rate))%Z ->
  (Z.of_nat (length data) < py_int (0.025 * INR sample_rate))%Z ->
  detect_transients data sample_rate threshold_db
  = Ok {| first_transient_ms := 0; num_transients := 0;
          transient_times_ms := [] |}.
Proof.
  intros Hhop Hshort. unfold detect_transients.
  rewrite (onset_strength_short _ _ Hhop Hshort). reflexivity.
Qed.

Lemma calculate_envelope_defined
    (data : list R) (sample_rate : nat) (window_ms : R) :
  (1 <= py_int (window_ms * INR sample_rate / 1000))%Z ->
  exists envelope,
    calculate_envelope data sample_rate window_ms = Ok envelope /\
    (data <> [] -> envelope <> []).
Proof.
  intros Hw. unfold calculate_envelope. cbv zeta.
  set (w := py_int (window_ms * INR sample_rate / 1000)) in *.
  unfold maximum_filter1d, uniform_filter1d, stride.
  destruct (w <? 1)%Z eqn:Hlt; [apply Z.ltb_lt in Hlt; lia |].
  rewrite !bind_Ok.
  destruct (w =? 0)%Z eqn:H0; [apply Z.eqb_eq in H0; lia |].
  eexists. split; [reflexivity |].
  intros Hne Hnil. apply (f_equal (@length R)) in Hnil.
  rewrite !length_map, !length_seq in Hnil. unfold np_abs in Hnil.
  rewrite length_map in Hnil. simpl in Hnil.
  assert (Hlen : (0 < length data)%nat)
    by (destruct data; [contradiction | simpl; lia]).
  assert (Hd : (0 < Z.to_nat w)%nat) by lia.
  apply Nat.div_small_iff in Hnil; lia.
Qed.

Lemma np_argmax_nonempty (a : list R) :
  a <> [] -> exists i, np_argmax a = Ok i.
Proof. destruct a; [contradiction | intros _; eexists; reflexivity]. Qed.

Lemma calculate_envelope_stats_defined
    (data : list R) (sample_rate : nat) (silence_threshold_db : R) :
  (1 <= py_int (5 * INR sample_rate / 1000))%Z -> (0 < sample_rate)%nat ->
  exists s,
    calculate_envelope_stats data sample_rate silence_threshold_db = Ok s.
Proof.
  intros Hw Hsr. unfold calculate_envelope_stats.
  destruct (calculate_envelope_defined data sample_rate 5 Hw)
    as [envelope [-> _]].
  rewrite bind_Ok. unfold py_truediv.
  destruct (Req_dec_T (5 * INR sample_rate / 1000) 0) as [H0 | _].
  { apply lt_0_INR in Hsr. lra. }
  rewrite bind_Ok.
  destruct (length envelope =? 0)%nat eqn:Hlen; [eexists; reflexivity |].
  assert (Hne : envelope <> []).
  { intros ->. discriminate. }
  destruct (np_max_nonempty _ Hne) as [peak ->]. rewrite bind_Ok.
  destruct (Rltb peak 1e-10); [eexists; reflexivity |]. cbv zeta.
  assert (Hnorm : map (fun e => e / peak) envelope <> []).
  { destruct envelope; [contradiction | discriminate]. }
  destruct (np_argmax_nonempty _ Hnorm) as [peak_idx ->].
  rewrite bind_Ok. eexists. reflexivity.
Qed.

Lemma spectral_correlation_defined
    (a b : list R) (sample_rate : nat) :
  a <> [] -> b <> [] -> (0 < sample_rate)%nat ->
  exists c, calculate_spectral_correlation a b sample_rate = Ok c.
Proof.
  intros Ha Hb Hsr. unfold calculate_spectral_correlation. cbv zeta.
  destruct a as [| a0 ta]; [contradiction |].
  destruct b as [| b0 tb]; [contradiction |].
  destruct sample_rate as [| sr]; [lia |].
  simpl. eexists. reflexivity.
Qed.

(** The analysis stage returns on buffers shorter than one 25 ms frame, at
    a rate that gives every window at least one sample. *)
Lemma analyze_views_defined `{E : Env}
    (path1 path2 : String.string) (target_sr : nat) (duration1 : R)
    (align : bool) (silence_threshold_db : R) (v : Views) :
  data1 v <> [] -> data2 v <> [] ->
  data1_aligned v <> [] -> data2_aligned v <> [] ->
  (10 <= target_sr)%nat ->
  (0 < py_int (0.01 * INR target_sr))%Z ->
  (Z.of_nat (length (data1 v)) < py_int (0.025 * INR target_sr))%Z ->
  (Z.of_nat (length (data2 v)) < py_int (0.025 * INR target_sr))%Z ->
  (1 <= py_int (5 * INR target_sr / 1000))%Z ->
  (1 <= py_int (10 * INR target_sr / 1000))%Z ->
  exists r,
    analyze_views path1 path2 target_sr duration1 align
      silence_threshold_db v = Ok r.
Proof.
  intros H1 H2 Ha1 Ha2 Hsr Hhop Hs1 Hs2 Hw5 Hw10.
  assert (Hpos : (0 < target_sr)%nat) by lia.
  unfold analyze_views.
  destruct (amplitude_stats_defined (data1 v) target_sr silence_threshold_db
              H1 Hsr) as [amp1 [-> _]].
  destruct (amplitude_stats_defined (data2 v) target_sr silence_threshold_db
              H2 Hsr) as [amp2 [-> _]].
  destruct (spectral_stats_defined (data1 v) target_sr H1 Hpos) as [sp1 ->].
  destruct (spectral_stats_defined (data2 v) target_sr H2 Hpos) as [sp2 ->].
  rewrite (detect_transients_short _ _ silence_threshold_db Hhop Hs1).
  rewrite (detect_transients_short _ _ silence_threshold_db Hhop Hs2).
  rewrite !bind_Ok. cbv zeta.
  unfold calculate_envelope_default_window_ms.
  destruct (calculate_envelope_defined (data1_aligned v) target_sr 10 Hw10)
    as [e1 [-> _]].
  destruct (calculate_envelope_defined (data2_aligned v) target_sr 10 Hw10)
    as [e2 [-> _]].
  destruct (spectral_correlation_defined _ _ target_sr Ha1 Ha2 Hpos)
    as [sc ->].
  destruct (calculate_envelope_stats_defined (data1 v) target_sr
              silence_threshold_db Hw5 Hpos) as [es1 ->].
  destruct (calculate_envelope_stats_defined (data2 v) target_sr
              silence_threshold_db Hw5 Hpos) as [es2 ->].
  rewrite !bind_Ok. eexists. reflexivity.
Qed.

(** ** Closed examples at 200 Hz *)

Lemma INR_200 : INR 200 = 200.
Proof. rewrite INR_of_nat_Z. reflexivity. Qed.

Lemma INR_100 : INR 100 = 100.
Proof. rewrite INR_of_nat_Z. reflexivity. Qed.

Ltac py_int_eval z :=
  rewrite ?INR_200, ?INR_100; apply (py_int_floor _ z); lra.

Lemma hop_length_200 : py_int (0.01 * INR 200) = 2%Z.
Proof. py_int_eval 2%Z. Qed.

Lemma window_length_200 : py_int (0.025 * INR 200) = 5%Z.
Proof. py_int_eval 5%Z. Qed.

Lemma window_5ms_200 : py_int (5 * INR 200 / 1000) = 1%Z.
Proof. py_int_eval 1%Z. Qed.

Lemma window_10ms_200 : py_int (10 * INR 200 / 1000) = 2%Z.
Proof. py_int_eval 2%Z. Qed.

Lemma window_20ms_200 : py_int (20 * INR 200 / 1000) = 4%Z.
Proof. py_int_eval 4%Z. Qed.

Lemma hop_length_100 : py_int (0.01 * INR 100) = 1%Z.
Proof. py_int_eval 1%Z. Qed.

Lemma window_length_100 : py_int (0.025 * INR 100) = 2%Z.
Proof. py_int_eval 2%Z. Qed.

(** Evaluation of the list and index structure, leaving the real numbers
    alone. *)
Ltac shape_eval :=
  cbv - [Rmax Rmin Rplus Rminus Rmult Rdiv Rinv Ropp Rabs IZR INR sqrt cos sin
         PI Rgtb Rltb exp ln Rpower py_pow py_int np_log10 Req_dec_T
         Rle_dec Rlt_dec Rgt_dec Rge_dec].

(** Evaluation of comparisons between numerals. *)
Ltac compare_eval :=
  repeat first
    [ rewrite Rabs_R0
    | rewrite Rabs_R1
    | rewrite Rabs_pos_eq by lra
    | rewrite Rgtb_true by lra
    | rewrite Rgtb_false by lra
    | rewrite Rltb_true by lra
    | rewrite Rltb_false by lra
    | rewrite Rmax_left by lra
    | rewrite Rmax_right by lra ].

Lemma first_transient_impulse :
  find_first_transient impulse 200 (-60) = 0%nat.
Proof.
  unfold find_first_transient, impulse, np_where. cbv zeta.
  rewrite threshold_minus_60. cbn [map]. compare_eval. reflexivity.
Qed.

Lemma first_transient_delayed_impulse :
  find_first_transient delayed_impulse 200 (-60) = 1%nat.
Proof.
  unfold find_first_transient, delayed_impulse, np_where. cbv zeta.
  rewrite threshold_minus_60. cbn [map]. compare_eval. reflexivity.
Qed.

Lemma first_transient_quiet_lead :
  find_first_transient quiet_lead 200 (-60) = 0%nat.
Proof.
  unfold find_first_transient, quiet_lead, np_where. cbv zeta.
  rewrite threshold_minus_60. cbn [map]. compare_eval. reflexivity.
Qed.

Lemma first_transient_impulse_default :
  find_first_transient impulse 200
    find_alignment_offset_by_transient_default_threshold_db = 0%nat.
Proof.
  unfold find_first_transient, impulse, np_where,
    find_alignment_offset_by_transient_default_threshold_db. cbv zeta.
  rewrite threshold_minus_40. cbn [map]. compare_eval. reflexivity.
Qed.

Lemma first_transient_quiet_lead_default :
  find_first_transient quiet_lead 200
    find_alignment_offset_by_transient_default_threshold_db = 1%nat.
Proof.
  unfold find_first_transient, quiet_lead, np_where,
    find_alignment_offset_by_transient_default_threshold_db. cbv zeta.
  rewrite threshold_minus_40. cbn [map]. compare_eval. reflexivity.
Qed.

Lemma load_two_files (b1 b2 : list R) :
  load_and_resample (E := example_env (two_files (b1, 200%nat) (b2, 200%nat)))
    "a.wav"%string "b.wav"%string
  = Ok (b1, b2, 200%nat).
Proof. reflexivity. Qed.

(** A comparison of two files at 200 Hz, each analysed buffer shorter than
    one 25 ms frame, returns a result. *)
Lemma compare_audio_short_files
    (b1 b2 : list R) (align trim : bool) (silence_threshold_db : R) :
  b1 <> [] -> b2 <> [] -> (length b1 < 5)%nat ->
  second_analyzed_buffer b1 b2 200 align trim silence_threshold_db <> [] ->
  (length (second_analyzed_buffer b1 b2 200 align trim silence_threshold_db)
   < 5)%nat ->
  fst (aligned_pair b1 b2 200 align trim silence_threshold_db) <> [] ->
  snd (aligned_pair b1 b2 200 align trim silence_threshold_db) <> [] ->
  exists r,
    compare_audio
      (E := example_env (two_files (b1, 200%nat) (b2, 200%nat)))
      "a.wav"%string "b.wav"%string align trim false silence_threshold_db
    = Ok r.
Proof.
  intros H1 H2 Hl1 Hs2 Hl2 Ha1 Ha2.
  unfold compare_audio. rewrite load_two_files, bind_Ok. cbv zeta.
  simpl fst. simpl snd.
  unfold py_truediv_nat. change (200 =? 0)%nat with false.
  cbv iota. rewrite !bind_Ok.
  assert (Hsr : (0 < 200)%nat) by lia.
  destruct (align_views_defined b1 b2 200 (INR (length b2) / INR 200)
              align trim silence_threshold_db H1 H2 Hsr) as [v Hv].
  rewrite Hv, bind_Ok. unfold normalize_views at 1. rewrite bind_Ok.
  destruct (align_views_inv _ _ _ _ _ _ _ _ Hv) as [Hd1 [Hd2 [Hpair _]]].
  apply analyze_views_defined.
  - rewrite Hd1. exact H1.
  - rewrite Hd2. exact Hs2.
  - rewrite <- Hpair in Ha1. exact Ha1.
  - rewrite <- Hpair in Ha2. exact Ha2.
  - lia.
  - rewrite hop_length_200. lia.
  - rewrite window_length_200, Hd1. lia.
  - rewrite window_length_200, Hd2. lia.
  - rewrite window_5ms_200. lia.
  - rewrite window_10ms_200. lia.
Qed.

Lemma transient_offset_impulse_impulse :
  transient_offset impulse impulse 200 (-60) = 0%Z.
Proof.
  unfold transient_offset. rewrite first_transient_impulse. reflexivity.
Qed.

Lemma transient_offset_impulse_delayed :
  transient_offset impulse delayed_impulse 200 (-60) = 1%Z.
Proof.
  unfold transient_offset.
  rewrite first_transient_impulse, first_transient_delayed_impulse.
  reflexivity.
Qed.

Lemma transient_offset_impulse_quiet_lead :
  transient_offset impulse quiet_lead 200 (-60) = 0%Z.
Proof.
  unfold transient_offset.
  rewrite first_transient_impulse, first_transient_quiet_lead.
  reflexivity.
Qed.

Lemma transient_offset_impulse_quiet_lead_default :
  transient_offset impulse quiet_lead 200
    find_alignment_offset_by_transient_default_threshold_db = 1%Z.
Proof.
  unfold transient_offset.
  rewrite first_transient_impulse_default, first_transient_quiet_lead_default.
  reflexivity.
Qed.

Lemma aligned_pair_impulse_impulse :
  aligned_pair impulse impulse 200 true false (-60) = (impulse, impulse).
Proof.
  unfold aligned_pair. rewrite transient_offset_impulse_impulse.
  reflexivity.
Qed.

Lemma second_buffer_impulse_impulse :
  second_analyzed_buffer impulse impulse 200 true false (-60) = impulse.
Proof. reflexivity. Qed.

Lemma aligned_pair_impulse_delayed :
  aligned_pair impulse delayed_impulse 200 true true (-60)
  = (impulse, impulse).
Proof.
  unfold aligned_pair. rewrite transient_offset_impulse_delayed.
  reflexivity.
Qed.

Lemma second_buffer_impulse_delayed :
  second_analyzed_buffer impulse delayed_impulse 200 true true (-60)
  = impulse.
Proof.
  unfold second_analyzed_buffer. rewrite transient_offset_impulse_delayed.
  reflexivity.
Qed.

Lemma aligned_pair_impulse_quiet_lead :
  aligned_pair impulse quiet_lead 200 true false (-60)
  = (impulse, quiet_lead).
Proof.
  unfold aligned_pair. rewrite transient_offset_impulse_quiet_lead.
  reflexivity.
Qed.

Lemma second_buffer_impulse_quiet_lead :
  second_analyzed_buffer impulse quiet_lead 200 true false (-60)
  = quiet_lead.
Proof. reflexivity. Qed.

Lemma compare_impulse_impulse :
  exists r,
    compare_audio
      (E := example_env (two_files (impulse, 200%nat) (impulse, 200%nat)))
      "a.wav"%string "b.wav"%string true false false (-60) = Ok r.
Proof.
  apply compare_audio_short_files;
    rewrite ?second_buffer_impulse_impulse, ?aligned_pair_impulse_impulse;
    simpl; try discriminate; lia.
Qed.

Lemma compare_impulse_delayed :
  exists r,
    compare_audio
      (E := example_env
              (two_files (impulse, 200%nat) (delayed_impulse, 200%nat)))
      "a.wav"%string "b.wav"%string true true false (-60) = Ok r.
Proof.
  apply compare_audio_short_files;
    rewrite ?second_buffer_impulse_delayed, ?aligned_pair_impulse_delayed;
    simpl; try discriminate; lia.
Qed.

Lemma compare_impulse_quiet_lead :
  exists r,
    compare_audio
      (E := example_env (two_files (impulse, 200%nat) (quiet_lead, 200%nat)))
      "a.wav"%string "b.wav"%string true false false (-60) = Ok r.
Proof.
  apply compare_audio_short_files;
    rewrite ?second_buffer_impulse_quiet_lead,
      ?aligned_pair_impulse_quiet_lead;
    simpl; try discriminate; lia.
Qed.

(** ** Claims about the orchestrator *)

(** C1, as the code has it. The per-file statistics of the first file are
    those of its unaligned buffer, whatever the options. Those of the second
    file are computed on its unaligned buffer too, except when alignment and
    trim are both on and the estimated offset is positive: then they are
    computed on [data2[offset : offset + len(data1)]]. *)
Theorem per_file_statistics_inputs `{E : Env}
    (path1 path2 : String.string) (align trim normalize : bool)
    (silence_threshold_db : R) (r : ComparisonResult) :
  compare_audio path1 path2 align trim normalize silence_threshold_db = Ok r ->
  exists d1 d2 target_sr,
    load_and_resample path1 path2 = Ok (d1, d2, target_sr) /\
    let d2' :=
      if align && trim
         && (0 <? transient_offset d1 d2 target_sr silence_threshold_db)%Z
      then
        slice d2
          (Z.to_nat (transient_offset d1 d2 target_sr silence_threshold_db))
          (Z.to_nat (transient_offset d1 d2 target_sr silence_threshold_db)
           + length d1)
      else d2 in
    calculate_amplitude_stats d1 target_sr silence_threshold_db
    = Ok (amplitude1 r) /\
    calculate_spectral_stats d1 target_sr = Ok (spectral1 r) /\
    detect_transients d1 target_sr silence_threshold_db = Ok (timing1 r) /\
    calculate_amplitude_stats d2' target_sr silence_threshold_db
    = Ok (amplitude2 r) /\
    calculate_spectral_stats d2' target_sr = Ok (spectral2 r) /\
    detect_transients d2' target_sr silence_threshold_db = Ok (timing2 r) /\
    exists es1 es2,
      calculate_envelope_stats d1 target_sr silence_threshold_db = Ok es1 /\
      calculate_envelope_stats d2' target_sr silence_threshold_db = Ok es2.
Proof.
  intros Hr.
  destruct (compare_audio_inv _ _ _ _ _ _ _ Hr)
    as [d1 [d2 [sr [dur1 [dur2 [v0 [v [Hload [Hv0 [Hv Han]]]]]]]]]].
  destruct (align_views_inv _ _ _ _ _ _ _ _ Hv0) as [Hd1 [Hd2 _]].
  destruct (normalize_views_inv _ _ _ Hv) as [Hn1 [Hn2 _]].
  destruct (analyze_views_inv _ _ _ _ _ _ _ _ Han)
    as [Ha1 [Ha2 [Hs1 [Hs2 [Ht1 [Ht2 [Hes _]]]]]]].
  rewrite Hn1, Hd1 in Ha1, Hs1, Ht1, Hes.
  rewrite Hn2, Hd2 in Ha2, Hs2, Ht2, Hes.
  unfold second_analyzed_buffer in Ha2, Hs2, Ht2, Hes.
  exists d1, d2, sr. split; [exact Hload |].
  cbv zeta. repeat split; assumption.
Qed.

Lemma per_file_statistics_inputs_witness :
  exists r,
    compare_audio
      (E := example_env
              (two_files (impulse, 200%nat) (delayed_impulse, 200%nat)))
      "a.wav"%string "b.wav"%string true true false (-60) = Ok r /\
    calculate_amplitude_stats
      (E := example_env
              (two_files (impulse, 200%nat) (delayed_impulse, 200%nat)))
      (slice delayed_impulse 1 5) 200 (-60)
    = Ok (amplitude2 r).
Proof.
  destruct compare_impulse_delayed as [r Hr].
  exists r. split; [exact Hr |].
  destruct (per_file_statistics_inputs _ _ _ _ _ _ _ Hr)
    as [d1 [d2 [sr [Hload [_ [_ [_ [Ha2 _]]]]]]]].
  rewrite load_two_files in Hload. apply Ok_inj in Hload.
  injection Hload as <- <- <-.
  rewrite transient_offset_impulse_delayed in Ha2. exact Ha2.
Defined.

(** C1, as stated, fails: with trim on and the second file one sample late,
    the amplitude statistics reported for the second file are not those of
    its unaligned buffer (its DC offset is 1/4, that of the trimmed slice,
    where the unaligned buffer has 1/5). *)
Lemma trimmed_second_file_is_analyzed :
  exists r,
    compare_audio
      (E := example_env
              (two_files (impulse, 200%nat) (delayed_impulse, 200%nat)))
      "a.wav"%string "b.wav"%string true true false (-60) = Ok r /\
    calculate_amplitude_stats
      (E := example_env
              (two_files (impulse, 200%nat) (delayed_impulse, 200%nat)))
      delayed_impulse 200 (-60)
    <> Ok (amplitude2 r).
Proof.
  destruct compare_impulse_delayed as [r Hr].
  exists r. split; [exact Hr |].
  destruct (compare_audio_inv _ _ _ _ _ _ _ Hr)
    as [d1 [d2 [sr [dur1 [dur2 [v0 [v [Hload [Hv0 [Hv Han]]]]]]]]]].
  rewrite load_two_files in Hload. apply Ok_inj in Hload.
  injection Hload as <- <- <-.
  destruct (align_views_inv _ _ _ _ _ _ _ _ Hv0) as [_ [Hd2 _]].
  destruct (normalize_views_inv _ _ _ Hv) as [_ [Hn2 _]].
  destruct (analyze_views_inv _ _ _ _ _ _ _ _ Han) as [_ [Ha2 _]].
  rewrite Hn2, Hd2, second_buffer_impulse_delayed in Ha2.
  destruct (amplitude_stats_defined
              (E := example_env
                      (two_files (impulse, 200%nat)
                         (delayed_impulse, 200%nat)))
              impulse 200 (-60)) as [s [Hs Hdc]];
    [discriminate | lia |].
  destruct (amplitude_stats_defined
              (E := example_env
                      (two_files (impulse, 200%nat)
                         (delayed_impulse, 200%nat)))
              delayed_impulse 200 (-60)) as [s' [Hs' Hdc']];
    [discriminate | lia |].
  rewrite Hs in Ha2. apply Ok_inj in Ha2. subst s.
  rewrite Hs'. intros Heq. apply Ok_inj in Heq. subst s'.
  rewrite Hdc in Hdc'. unfold np_mean, impulse, delayed_impulse in Hdc'.
  simpl in Hdc'. lra.
Qed.

(** The first transient is the least index whose sample exceeds the linear
    threshold [10 ** (threshold_db / 20)], and 0 when no sample does. *)
Lemma find_first_transient_spec
    (data : list R) (sample_rate : nat) (threshold_db : R) :
  let threshold_linear := py_pow 10 (threshold_db / 20) in
  let first := find_first_transient data sample_rate threshold_db in
  (Rabs (nth first data 0) > threshold_linear /\
   forall i, (i < first)%nat -> Rabs (nth i data 0) <= threshold_linear) \/
  (first = 0%nat /\ forall x, In x data -> Rabs x <= threshold_linear).
Proof.
  cbv zeta. unfold find_first_transient, np_where. cbv zeta.
  set (T := py_pow 10 (threshold_db / 20)).
  set (mask := map (fun x => Rgtb (Rabs x) T) data).
  assert (Hnth : forall i, nth i mask false = Rgtb (Rabs (nth i data 0)) T).
  { intros i. unfold mask.
    destruct (Nat.lt_ge_cases i (length data)) as [Hi | Hi].
    - rewrite (nth_indep _ false (Rgtb (Rabs 0) T))
        by (rewrite length_map; exact Hi).
      apply (map_nth (fun x => Rgtb (Rabs x) T)).
    - rewrite !nth_overflow by (rewrite ?length_map; exact Hi).
      symmetry. apply Rgtb_false. rewrite Rabs_R0.
      apply Rlt_le, py_pow_pos. }
  destruct (where_from 0 mask) as [| j rest] eqn:Hw.
  - right. split; [reflexivity |]. intros x Hx.
    destruct (Rle_dec (Rabs x) T) as [Hle | Hgt]; [exact Hle | exfalso].
    apply (where_from_nonempty mask 0); [| exact Hw].
    apply in_map_iff. exists x. split; [apply Rgtb_true; lra | exact Hx].
  - left. destruct (where_from_head _ _ _ Hw) as [Hj Hlt]. split.
    + apply Rgtb_spec. rewrite <- Hnth. exact Hj.
    + intros i Hi. specialize (Hlt i Hi). rewrite Hnth in Hlt.
      destruct (Rle_dec (Rabs (nth i data 0)) T) as [Hle | Hgt];
        [exact Hle | exfalso].
      rewrite Rgtb_true in Hlt by lra. discriminate.
Qed.

(** C3, as the code has it. The transient strategy takes its linear
    threshold as [10 ** (threshold_db / 20)] from a dB parameter whose
    default is -40; a comparison with alignment enabled passes the silence
    threshold option as that parameter, so the reported offset and
    confidence are those estimated at [10 ** (silence_threshold_db / 20)]. *)
Theorem alignment_threshold_is_silence_threshold `{E : Env}
    (path1 path2 : String.string) (trim normalize : bool)
    (silence_threshold_db : R) (r : ComparisonResult) :
  compare_audio path1 path2 true trim normalize silence_threshold_db = Ok r ->
  find_alignment_offset_by_transient_default_threshold_db = -40 /\
  exists d1 d2 target_sr confidence,
    load_and_resample path1 path2 = Ok (d1, d2, target_sr) /\
    find_alignment_offset_by_transient d1 d2 target_sr silence_threshold_db
    = Ok (transient_offset d1 d2 target_sr silence_threshold_db,
          confidence) /\
    alignment_offset_ms r
    = IZR (transient_offset d1 d2 target_sr silence_threshold_db)
      / INR target_sr * 1000 /\
    alignment_correlation r = confidence /\
    forall data,
      let threshold_linear := py_pow 10 (silence_threshold_db / 20) in
      let first :=
        find_first_transient data target_sr silence_threshold_db in
      (Rabs (nth first data 0) > threshold_linear /\
       forall i, (i < first)%nat ->
                 Rabs (nth i data 0) <= threshold_linear) \/
      (first = 0%nat /\ forall x, In x data -> Rabs x <= threshold_linear).
Proof.
  intros Hr. split; [reflexivity |].
  destruct (compare_audio_inv _ _ _ _ _ _ _ Hr)
    as [d1 [d2 [sr [dur1 [dur2 [v0 [v [Hload [Hv0 [Hv Han]]]]]]]]]].
  destruct (align_views_inv _ _ _ _ _ _ _ _ Hv0)
    as [_ [_ [_ [confidence [Hoc [Hms Hcorr]]]]]].
  destruct (normalize_views_inv _ _ _ Hv) as [_ [_ [Hnms [Hncorr _]]]].
  destruct (analyze_views_inv _ _ _ _ _ _ _ _ Han)
    as [_ [_ [_ [_ [_ [_ [_ [_ [_ [_ [Hrms Hrcorr]]]]]]]]]]].
  exists d1, d2, sr, confidence. split; [exact Hload |].
  split; [exact Hoc |]. split; [congruence |]. split; [congruence |].
  intros data. apply find_first_transient_spec.
Qed.

Lemma alignment_threshold_is_silence_threshold_witness :
  exists r,
    compare_audio
      (E := example_env (two_files (impulse, 200%nat) (quiet_lead, 200%nat)))
      "a.wav"%string "b.wav"%string true false false (-60) = Ok r /\
    alignment_offset_ms r = 0.
Proof.
  destruct compare_impulse_quiet_lead as [r Hr].
  exists r. split; [exact Hr |].
  destruct (alignment_threshold_is_silence_threshold _ _ _ _ _ _ Hr)
    as [_ [d1 [d2 [sr [confidence [Hload [_ [Hms _]]]]]]]].
  rewrite load_two_files in Hload. apply Ok_inj in Hload.
  injection Hload as <- <- <-.
  rewrite Hms, transient_offset_impulse_quiet_lead. lra.
Defined.

(** C3, as stated, fails: at the default silence threshold of -60 dB the
    comparison reports no offset for a lead-in at -46 dB, where the
    strategy at its own default of -40 dB estimates one sample (5 ms). *)
Lemma alignment_threshold_not_independent :
  exists r confidence,
    compare_audio
      (E := example_env (two_files (impulse, 200%nat) (quiet_lead, 200%nat)))
      "a.wav"%string "b.wav"%string true false false (-60) = Ok r /\
    find_alignment_offset_by_transient impulse quiet_lead 200
      find_alignment_offset_by_transient_default_threshold_db
    = Ok (1%Z, confidence) /\
    alignment_offset_ms r <> IZR 1 / INR 200 * 1000.
Proof.
  destruct compare_impulse_quiet_lead as [r Hr].
  destruct (find_alignment_offset_by_transient_defined impulse quiet_lead 200
              find_alignment_offset_by_transient_default_threshold_db)
    as [confidence Hdefault]; [discriminate | discriminate | lia |].
  rewrite transient_offset_impulse_quiet_lead_default in Hdefault.
  exists r, confidence. split; [exact Hr |]. split; [exact Hdefault |].
  destruct (compare_audio_inv _ _ _ _ _ _ _ Hr)
    as [d1 [d2 [sr [dur1 [dur2 [v0 [v [Hload [Hv0 [Hv Han]]]]]]]]]].
  rewrite load_two_files in Hload. apply Ok_inj in Hload.
  injection Hload as <- <- <-.
  destruct (align_views_inv _ _ _ _ _ _ _ _ Hv0)
    as [_ [_ [_ [c [_ [Hms _]]]]]].
  destruct (normalize_views_inv _ _ _ Hv) as [_ [_ [Hnms _]]].
  destruct (analyze_views_inv _ _ _ _ _ _ _ _ Han)
    as [_ [_ [_ [_ [_ [_ [_ [_ [_ [_ [Hrms _]]]]]]]]]]].
  rewrite Hrms, Hnms, Hms, transient_offset_impulse_quiet_lead, INR_200.
  lra.
Qed.

(** C5, as the code has it. The envelope correlation is the Pearson
    correlation of the two envelopes extracted from the aligned (and, when
    asked, normalised) views with the extractor's default window of 10 ms. *)
Theorem envelope_correlation_window `{E : Env}
    (path1 path2 : String.string) (align trim normalize : bool)
    (silence_threshold_db : R) (r : ComparisonResult) :
  compare_audio path1 path2 align trim normalize silence_threshold_db = Ok r ->
  calculate_envelope_default_window_ms = 10 /\
  exists d1 d2 target_sr duration2 v0 v env1 env2,
    load_and_resample path1 path2 = Ok (d1, d2, target_sr) /\
    align_views d1 d2 target_sr duration2 align trim silence_threshold_db
    = Ok v0 /\
    (data1_aligned v0, data2_aligned v0)
    = aligned_pair d1 d2 target_sr align trim silence_threshold_db /\
    normalize_views normalize v0 = Ok v /\
    calculate_envelope (data1_aligned v) target_sr 10 = Ok env1 /\
    calculate_envelope (data2_aligned v) target_sr 10 = Ok env2 /\
    envelope_correlation r = calculate_correlation env1 env2.
Proof.
  intros Hr. split; [reflexivity |].
  destruct (compare_audio_inv _ _ _ _ _ _ _ Hr)
    as [d1 [d2 [sr [dur1 [dur2 [v0 [v [Hload [Hv0 [Hv Han]]]]]]]]]].
  destruct (align_views_inv _ _ _ _ _ _ _ _ Hv0) as [_ [_ [Hpair _]]].
  destruct (analyze_views_inv _ _ _ _ _ _ _ _ Han)
    as [_ [_ [_ [_ [_ [_ [_ [[env1 [env2 [He1 [He2 Hcorr]]]] _]]]]]]]].
  exists d1, d2, sr, dur2, v0, v, env1, env2.
  repeat split; assumption.
Qed.

Lemma maximum_filter1d_2 (x0 x1 x2 x3 : R) :
  maximum_filter1d [x0; x1; x2; x3] 2
  = Ok [Rmax x0 x0; Rmax x0 x1; Rmax x1 x2; Rmax x2 x3].
Proof. shape_eval. reflexivity. Qed.

Lemma uniform_filter1d_2 (x0 x1 x2 x3 : R) :
  uniform_filter1d [x0; x1; x2; x3] 2
  = Ok [(x0 + (x0 + 0)) / 2; (x0 + (x1 + 0)) / 2;
        (x1 + (x2 + 0)) / 2; (x2 + (x3 + 0)) / 2].
Proof. shape_eval. reflexivity. Qed.

Lemma stride_2 (x0 x1 x2 x3 : R) : stride [x0; x1; x2; x3] 2 = Ok [x0; x2].
Proof. shape_eval. reflexivity. Qed.

Lemma envelope_10ms_impulse :
  calculate_envelope impulse 200 10 = Ok [1; 1 / 2].
Proof.
  unfold calculate_envelope, impulse, np_abs. cbv zeta.
  rewrite window_10ms_200. cbn [map]. compare_eval.
  rewrite maximum_filter1d_2, bind_Ok. compare_eval.
  rewrite uniform_filter1d_2, bind_Ok, stride_2.
  f_equal. f_equal; [lra | f_equal; lra].
Qed.

Lemma envelope_length_20ms (x0 x1 x2 x3 : R) :
  exists e, calculate_envelope [x0; x1; x2; x3] 200 20 = Ok [e].
Proof.
  unfold calculate_envelope. cbv zeta. rewrite window_20ms_200.
  eexists. shape_eval. reflexivity.
Qed.

Lemma calculate_correlation_singleton (x y : R) :
  calculate_correlation [x] [y] = 0.
Proof.
  unfold calculate_correlation, np_mean. simpl.
  replace (x - (x + 0) / 1) with 0 by lra.
  rewrite !Rmult_0_l, !Rplus_0_l, Rmult_0_l, sqrt_0.
  apply Rltb_true_if. lra.
Qed.

Lemma envelope_correlation_impulse (r : ComparisonResult) :
  compare_audio
    (E := example_env (two_files (impulse, 200%nat) (impulse, 200%nat)))
    "a.wav"%string "b.wav"%string true false false (-60) = Ok r ->
  envelope_correlation r = 1.
Proof.
  intros Hr.
  destruct (compare_audio_inv _ _ _ _ _ _ _ Hr)
    as [d1 [d2 [sr [dur1 [dur2 [v0 [v [Hload [Hv0 [Hv Han]]]]]]]]]].
  rewrite load_two_files in Hload. apply Ok_inj in Hload.
  injection Hload as <- <- <-.
  destruct (align_views_inv _ _ _ _ _ _ _ _ Hv0) as [_ [_ [Hpair _]]].
  rewrite aligned_pair_impulse_impulse in Hpair.
  injection Hpair as Hp1 Hp2.
  destruct (normalize_views_inv _ _ _ Hv) as [_ [_ [_ [_ Hsame]]]].
  rewrite (Hsame eq_refl) in Han.
  destruct (analyze_views_inv _ _ _ _ _ _ _ _ Han)
    as [_ [_ [_ [_ [_ [_ [_ [[env1 [env2 [He1 [He2 Hcorr]]]] _]]]]]]]].
  unfold calculate_envelope_default_window_ms in He1, He2.
  rewrite Hp1, envelope_10ms_impulse in He1. apply Ok_inj in He1.
  rewrite Hp2, envelope_10ms_impulse in He2. apply Ok_inj in He2.
  subst env1 env2. rewrite Hcorr.
  apply calculate_correlation_self.
  rewrite pearson_denominator_self. unfold np_mean. simpl. lra.
Qed.

Lemma envelope_correlation_window_witness :
  exists r,
    compare_audio
      (E := example_env (two_files (impulse, 200%nat) (impulse, 200%nat)))
      "a.wav"%string "b.wav"%string true false false (-60) = Ok r /\
    envelope_correlation r = calculate_correlation [1; 1 / 2] [1; 1 / 2].
Proof.
  destruct compare_impulse_impulse as [r Hr].
  exists r. split; [exact Hr |].
  destruct (envelope_correlation_window _ _ _ _ _ _ _ Hr)
    as [_ [d1 [d2 [sr [dur2 [v0 [v [env1 [env2
         [Hload [Hv0 [Hpair [Hv [He1 [He2 Hcorr]]]]]]]]]]]]]]].
  rewrite load_two_files in Hload. apply Ok_inj in Hload.
  injection Hload as <- <- <-.
  rewrite aligned_pair_impulse_impulse in Hpair.
  injection Hpair as Hp1 Hp2.
  destruct (normalize_views_inv _ _ _ Hv) as [_ [_ [_ [_ Hsame]]]].
  rewrite (Hsame eq_refl), Hp1, envelope_10ms_impulse in He1.
  rewrite (Hsame eq_refl), Hp2, envelope_10ms_impulse in He2.
  apply Ok_inj in He1. apply Ok_inj in He2. subst env1 env2.
  exact Hcorr.
Defined.

(** C5, as stated, fails: for two copies of a click at 200 Hz the reported
    envelope correlation is 1, that of the 10 ms envelopes, while the 20 ms
    envelopes of the aligned views hold one value each and correlate to 0. *)
Lemma envelope_window_is_not_20ms :
  exists r e1 e2,
    compare_audio
      (E := example_env (two_files (impulse, 200%nat) (impulse, 200%nat)))
      "a.wav"%string "b.wav"%string true false false (-60) = Ok r /\
    calculate_envelope
      (fst (aligned_pair impulse impulse 200 true false (-60))) 200 20
    = Ok e1 /\
    calculate_envelope
      (snd (aligned_pair impulse impulse 200 true false (-60))) 200 20
    = Ok e2 /\
    envelope_correlation r <> calculate_correlation e1 e2.
Proof.
  destruct compare_impulse_impulse as [r Hr].
  destruct (envelope_length_20ms 1 0 0 0) as [e He].
  exists r, [e], [e].
  rewrite aligned_pair_impulse_impulse. simpl fst. simpl snd.
  split; [exact Hr |]. split; [exact He |]. split; [exact He |].
  rewrite (envelope_correlation_impulse r Hr),
    calculate_correlation_singleton.
  lra.
Qed.

(** ** A buffer with more than 20 detected transients *)


(** Evaluation of the list and index structure that stops at the
    reductions and at the index searches. *)
Ltac frame_eval :=
  cbv - [Rmax Rmin Rplus Rminus Rmult Rdiv Rinv Ropp Rabs IZR INR sqrt cos sin
         PI Rgtb Rltb exp ln Rpower py_pow py_int np_log10 Req_dec_T
         Rle_dec Rlt_dec Rgt_dec Rge_dec np_max np_where where_from].

Ltac clamp_eval :=
  repeat match goal with
  | |- context [Rmax ?a 0] =>
    first [ replace (Rmax a 0) with 1
              by (rewrite Rmax_left by lra; lra)
          | replace (Rmax a 0) with 0
              by (first [ rewrite Rmax_right by lra; lra
                        | rewrite Rmax_left by lra; lra ]) ]
  end.

Ltac less_eval :=
  repeat match goal with
  | |- context [Rltb ?a ?b] =>
    first [ rewrite (Rltb_true a b) by lra
          | rewrite (Rltb_false a b) by lra ]
  end.

Lemma fold_left_Rmax_unit (l : list R) (x : R) :
  Forall (fun v => 0 <= v <= 1) l -> 0 <= x <= 1 -> x = 1 \/ In 1 l ->
  fold_left Rmax l x = 1.
Proof.
  intros Hl. revert x. induction Hl as [| v t Hv _ IH]; intros x Hx Hin.
  - destruct Hin as [-> | []]. reflexivity.
  - cbv beta in Hv. simpl. apply IH.
    + unfold Rmax. destruct (Rle_dec x v); lra.
    + destruct Hin as [Hx1 | [Hv1 | Hin]].
      * left. subst x. apply Rmax_left. lra.
      * left. subst v. apply Rmax_right. lra.
      * right. exact Hin.
Qed.

Lemma onset_strength_click_train :
  onset_strength click_train 100
  = Ok (Some (map (fun o => o / 1) click_train_onset)).
Proof.
  unfold onset_strength. cbv zeta.
  rewrite hop_length_100, window_length_100.
  change (py_floordiv (Z.of_nat (length click_train) - 2) 1)
    with (Ok 104%Z).
  rewrite bind_Ok.
  change (104 + 1 <=? 0)%Z with false. cbv iota.
  change (Z.to_nat (104 + 1)) with 105%nat.
  match goal with
  | |- context [np_max ?o] => assert (Hraw : o = click_train_onset)
  end.
  { frame_eval. clamp_eval. reflexivity. }
  rewrite Hraw.
  assert (Htop : np_max click_train_onset = Ok 1).
  { unfold np_max.
    change click_train_onset with (0 :: tl click_train_onset).
    cbv iota. f_equal. apply fold_left_Rmax_unit.
    - cbv [click_train_onset tl concat repeat app].
      repeat (constructor; [lra |]). constructor.
    - lra.
    - right. cbv [click_train_onset tl concat repeat app].
      right. left. reflexivity. }
  rewrite Htop, bind_Ok. rewrite Rgtb_true by lra. reflexivity.
Qed.

(** The plain peak finder reports one peak per click, 50 ms apart. *)
Lemma plain_peaks_click_train :
  plain_find_peaks (map (fun o => o / 1) click_train_onset) 0.1
  = map (fun k => (2 + 5 * k)%nat) (seq 0 21).
Proof. unfold plain_find_peaks. frame_eval. less_eval. reflexivity. Qed.

Lemma transient_count_uncapped_witness :
  exists t,
    detect_transients (E := example_env no_files) click_train 100 (-60)
    = Ok t /\
    num_transients t = 21%nat /\
    length (transient_times_ms t) = 20%nat.
Proof.
  pose proof onset_strength_click_train as Hos.
  assert (Hdet : exists t,
    detect_transients (E := example_env no_files) click_train 100 (-60)
    = Ok t).
  { unfold detect_transients. rewrite Hos, bind_Ok. eexists. reflexivity. }
  destruct Hdet as [t Ht]. exists t. split; [exact Ht |].
  destruct (transient_count_uncapped (E := example_env no_files) _ _ _ _ Ht)
    as [peaks [Hpeaks [Hnum [_ [Htimes _]]]]].
  assert (Hcount : length peaks = 21%nat).
  { destruct Hpeaks as [[Hnone _] | [onset' [Hsome Hp]]].
    - rewrite Hos in Hnone. discriminate.
    - rewrite Hos in Hsome.
      assert (Ho : onset' = map (fun o => o / 1) click_train_onset)
        by congruence.
      rewrite Hp, Ho. cbv [signal_find_peaks example_env].
      rewrite plain_peaks_click_train, length_map, length_seq.
      reflexivity. }
  rewrite Hnum, Htimes, Hcount. split; reflexivity.
Defined.

(** * Further properties of the code *)

(** ** Trimming to an offset *)

Lemma skipn_to_nat_nonpos (a : list R) (z : Z) :
  (z <= 0)%Z -> skipn (Z.to_nat z) a = a.
Proof. intros Hz. replace (Z.to_nat z) with 0%nat by lia. reflexivity. Qed.

Lemma align_audio_eq (ref target : list R) (offset : Z) :
  align_audio ref target offset
  = (firstn (Nat.min (length ref - Z.to_nat (- offset))
                     (length target - Z.to_nat offset))
            (skipn (Z.to_nat (- offset)) ref),
     firstn (Nat.min (length ref - Z.to_nat (- offset))
                     (length target - Z.to_nat offset))
            (skipn (Z.to_nat offset) target)).
Proof.
  unfold align_audio. cbv zeta.
  destruct (0 <? offset)%Z eqn:Hpos.
  - apply Z.ltb_lt in Hpos.
    rewrite (skipn_to_nat_nonpos ref (- offset)) by lia.
    rewrite length_skipn. replace (Z.to_nat (- offset)) with 0%nat by lia.
    rewrite Nat.sub_0_r. reflexivity.
  - apply Z.ltb_ge in Hpos.
    rewrite (skipn_to_nat_nonpos target offset) by lia.
    replace (Z.to_nat offset) with 0%nat by lia. rewrite Nat.sub_0_r.
    destruct (offset <? 0)%Z eqn:Hneg.
    + rewrite length_skipn. reflexivity.
    + apply Z.ltb_ge in Hneg.
      replace (Z.to_nat (- offset)) with 0%nat by lia.
      rewrite Nat.sub_0_r. reflexivity.
Qed.

Lemma align_audio_lengths (ref target : list R) (offset : Z) :
  length (fst (align_audio ref target offset))
  = Nat.min (length ref - Z.to_nat (- offset))
            (length target - Z.to_nat offset) /\
  length (snd (align_audio ref target offset))
  = Nat.min (length ref - Z.to_nat (- offset))
            (length target - Z.to_nat offset).
Proof.
  rewrite align_audio_eq. simpl fst. simpl snd.
  rewrite !length_firstn, !length_skipn. split; lia.
Qed.

(** X1. [align_audio] returns two arrays of equal length: the reference
    without its first [-offset] samples (none for a non-negative offset) and
    the target without its first [offset] samples (none for a non-positive
    offset), both cut to the shorter of the two remainders. *)
Theorem align_audio_equal_length (ref target : list R) (offset : Z) :
  fst (align_audio ref target offset)
  = firstn (Nat.min (length ref - Z.to_nat (- offset))
                    (length target - Z.to_nat offset))
           (skipn (Z.to_nat (- offset)) ref) /\
  snd (align_audio ref target offset)
  = firstn (Nat.min (length ref - Z.to_nat (- offset))
                    (length target - Z.to_nat offset))
           (skipn (Z.to_nat offset) target) /\
  length (fst (align_audio ref target offset))
  = length (snd (align_audio ref target offset)) /\
  length (fst (align_audio ref target offset))
  = Nat.min (length ref - Z.to_nat (- offset))
            (length target - Z.to_nat offset).
Proof.
  rewrite align_audio_eq. simpl fst. simpl snd.
  rewrite !length_firstn, !length_skipn.
  repeat split; lia.
Qed.

Lemma skipn_silence (k : nat) (sig : list R) :
  skipn k (repeat 0 k ++ sig) = sig.
Proof.
  rewrite skipn_app, repeat_length, Nat.sub_diag.
  rewrite skipn_all2 by (rewrite repeat_length; lia). reflexivity.
Qed.

Lemma align_audio_delayed_target (sig : list R) (k : nat) :
  align_audio sig (repeat 0 k ++ sig) (Z.of_nat k) = (sig, sig).
Proof.
  rewrite align_audio_eq.
  replace (Z.to_nat (- Z.of_nat k)) with 0%nat by lia.
  rewrite Nat2Z.id, skipn_silence, length_app, repeat_length.
  simpl skipn. replace (k + length sig - k)%nat with (length sig) by lia.
  rewrite Nat.sub_0_r, Nat.min_id, firstn_all. reflexivity.
Qed.

Lemma align_audio_delayed_ref (sig : list R) (k : nat) :
  align_audio (repeat 0 k ++ sig) sig (- Z.of_nat k) = (sig, sig).
Proof.
  rewrite align_audio_eq.
  replace (Z.to_nat (- - Z.of_nat k)) with k by lia.
  replace (Z.to_nat (- Z.of_nat k)) with 0%nat by lia.
  rewrite skipn_silence, length_app, repeat_length.
  simpl skipn. replace (k + length sig - k)%nat with (length sig) by lia.
  rewrite Nat.sub_0_r, Nat.min_id, firstn_all. reflexivity.
Qed.

(** X2. Estimating the offset by first transients and trimming to it undoes
    a delay: for a signal with a sample above the threshold and a copy
    delayed by [k] samples of silence, whichever of the two is the
    reference, [align_audio] at the estimated offset returns the signal
    twice. *)
Theorem transient_alignment_undoes_delay
    (sig : list R) (k sample_rate : nat) (threshold_db : R) :
  (0 < sample_rate)%nat ->
  Exists (fun x => Rabs x > py_pow 10 (threshold_db / 20)) sig ->
  (exists offset confidence,
     find_alignment_offset_by_transient
       sig (repeat 0 k ++ sig) sample_rate threshold_db
     = Ok (offset, confidence) /\
     align_audio sig (repeat 0 k ++ sig) offset = (sig, sig)) /\
  (exists offset confidence,
     find_alignment_offset_by_transient
       (repeat 0 k ++ sig) sig sample_rate threshold_db
     = Ok (offset, confidence) /\
     align_audio (repeat 0 k ++ sig) sig offset = (sig, sig)).
Proof.
  intros Hsr Hex.
  assert (Hsig : sig <> []) by (intros ->; inversion Hex).
  assert (Hdel : repeat 0 k ++ sig <> []).
  { destruct k; simpl; [exact Hsig | discriminate]. }
  split.
  - destruct (find_alignment_offset_by_transient_defined
                sig (repeat 0 k ++ sig) sample_rate threshold_db
                Hsig Hdel Hsr) as [c Hc].
    exists (transient_offset sig (repeat 0 k ++ sig) sample_rate threshold_db),
      c.
    split; [exact Hc |].
    unfold transient_offset.
    rewrite find_first_transient_delayed by exact Hex.
    replace (Z.of_nat (k + find_first_transient sig sample_rate threshold_db)
             - Z.of_nat (find_first_transient sig sample_rate threshold_db))%Z
      with (Z.of_nat k) by lia.
    apply align_audio_delayed_target.
  - destruct (find_alignment_offset_by_transient_defined
                (repeat 0 k ++ sig) sig sample_rate threshold_db
                Hdel Hsig Hsr) as [c Hc].
    exists (transient_offset (repeat 0 k ++ sig) sig sample_rate threshold_db),
      c.
    split; [exact Hc |].
    unfold transient_offset.
    rewrite find_first_transient_delayed by exact Hex.
    replace (Z.of_nat (find_first_transient sig sample_rate threshold_db)
             - Z.of_nat (k + find_first_transient sig sample_rate
                               threshold_db))%Z
      with (- Z.of_nat k)%Z by lia.
    apply align_audio_delayed_ref.
Qed.

Lemma transient_alignment_undoes_delay_witness :
  exists offset confidence,
    find_alignment_offset_by_transient
      [0.5; 0.25] (repeat 0 3 ++ [0.5; 0.25]) 8 (-60)
    = Ok (offset, confidence) /\
    align_audio [0.5; 0.25] (repeat 0 3 ++ [0.5; 0.25]) offset
    = ([0.5; 0.25], [0.5; 0.25]).
Proof.
  assert (Hsr : (0 < 8)%nat) by lia.
  assert (Hex : Exists (fun x => Rabs x > py_pow 10 (-60 / 20)) [0.5; 0.25]).
  { apply Exists_cons_hd. rewrite threshold_minus_60.
    rewrite Rabs_pos_eq; lra. }
  exact (proj1 (transient_alignment_undoes_delay [0.5; 0.25] 3 8 (-60)
                  Hsr Hex)).
Defined.

(** ** Alignment inside the comparison *)

Lemma fold_left_Rmax_spec (t : list R) (x : R) :
  (fold_left Rmax t x = x \/ In (fold_left Rmax t x) t) /\
  x <= fold_left Rmax t x /\
  Forall (fun y => y <= fold_left Rmax t x) t.
Proof.
  revert x. induction t as [| y t IH]; intros x; simpl.
  - split; [left; reflexivity | split; [lra | constructor]].
  - destruct (IH (Rmax x y)) as [Hin [Hle Hall]].
    pose proof (Rmax_l x y) as Hl. pose proof (Rmax_r x y) as Hr.
    split; [| split].
    + destruct Hin as [Heq | Hin]; [| right; right; exact Hin].
      rewrite Heq. unfold Rmax. destruct (Rle_dec x y); auto.
    + lra.
    + constructor; [lra | exact Hall].
Qed.

Lemma np_max_spec (a : list R) (m : R) :
  np_max a = Ok m -> In m a /\ Forall (fun y => y <= m) a.
Proof.
  destruct a as [| x t]; simpl; intros Hm; [discriminate |].
  apply Ok_inj in Hm. subst m.
  destruct (fold_left_Rmax_spec t x) as [Hin [Hle Hall]].
  split; [| constructor; assumption].
  destruct Hin as [-> | Hin]; [left; reflexivity | right; exact Hin].
Qed.





Lemma where_from_bound (mask : list bool) (i j : nat) :
  In j (where_from i mask) -> (i <= j < i + length mask)%nat.
Proof.
  revert i. induction mask as [| b t IH]; intros i Hin; [destruct Hin |].
  simpl in Hin. simpl length.
  destruct b.
  - destruct Hin as [<- | Hin]; [lia |]. apply IH in Hin. lia.
  - apply IH in Hin. lia.
Qed.

Lemma find_first_transient_bound
    (data : list R) (sample_rate : nat) (threshold_db : R) :
  data <> [] ->
  (find_first_transient data sample_rate threshold_db < length data)%nat.
Proof.
  intros Hne. unfold find_first_transient, np_where. cbv zeta.
  destruct (where_from 0 _) as [| j rest] eqn:Hw.
  - destruct data; [contradiction | simpl; lia].
  - assert (Hin : In j (where_from 0
      (map (fun x => Rgtb (Rabs x) (py_pow 10 (threshold_db / 20))) data)))
      by (rewrite Hw; left; reflexivity).
    apply where_from_bound in Hin. rewrite length_map in Hin. lia.
Qed.

Lemma transient_offset_bound
    (ref target : list R) (sample_rate : nat) (threshold_db : R) :
  ref <> [] -> target <> [] ->
  (- Z.of_nat (length ref)
   < transient_offset ref target sample_rate threshold_db
   < Z.of_nat (length target))%Z.
Proof.
  intros Hr Ht. unfold transient_offset.
  pose proof (find_first_transient_bound ref sample_rate threshold_db Hr).
  pose proof (find_first_transient_bound target sample_rate threshold_db Ht).
  lia.
Qed.

Lemma aligned_pair_align_audio
    (d1 d2 : list R) (target_sr : nat) (trim : bool)
    (silence_threshold_db : R) :
  aligned_pair d1 d2 target_sr true trim silence_threshold_db
  = align_audio d1 d2
      (transient_offset d1 d2 target_sr silence_threshold_db).
Proof.
  unfold aligned_pair, align_audio. cbv zeta.
  set (offset := transient_offset d1 d2 target_sr silence_threshold_db).
  set (shifted2 :=
         if (0 <? offset)%Z then skipn (Z.to_nat offset) d2 else d2).
  set (shifted1 :=
         if (0 <? offset)%Z then d1
         else if (offset <? 0)%Z then skipn (Z.to_nat (- offset)) d1
         else d1).
  destruct trim; [| reflexivity].
  assert (Hlen : (length shifted1 <= length d1)%nat).
  { unfold shifted1.
    destruct (0 <? offset)%Z; [lia |].
    destruct (offset <? 0)%Z; [rewrite length_skipn |]; lia. }
  rewrite !firstn_firstn.
  replace (Nat.min (length d1)
             (Nat.min (length shifted1) (length shifted2)))
    with (Nat.min (length shifted1) (length shifted2)) by lia.
  reflexivity.
Qed.

(** X4. With alignment on, the aligned views of a comparison are what
    [align_audio] returns at the estimated offset, whether trim is on or
    off: the trim option never changes the aligned views. *)
Theorem trim_keeps_aligned_views
    (d1 d2 : list R) (target_sr : nat) (dur2 : R) (trim : bool)
    (silence_threshold_db : R) (v : Views) :
  align_views d1 d2 target_sr dur2 true trim silence_threshold_db = Ok v ->
  (data1_aligned v, data2_aligned v)
  = align_audio d1 d2
      (transient_offset d1 d2 target_sr silence_threshold_db).
Proof.
  intros Hv.
  destruct (align_views_inv _ _ _ _ _ _ _ _ Hv) as [_ [_ [Hpair _]]].
  rewrite Hpair. apply aligned_pair_align_audio.
Qed.

Lemma trim_keeps_aligned_views_witness :
  exists v,
    align_views impulse delayed_impulse 200 0 true true (-60) = Ok v /\
    (data1_aligned v, data2_aligned v)
    = align_audio impulse delayed_impulse 1.
Proof.
  destruct (align_views_defined impulse delayed_impulse 200 0 true true
              (-60)) as [v Hv]; [discriminate | discriminate | lia |].
  exists v. split; [exact Hv |].
  rewrite <- transient_offset_impulse_delayed.
  exact (trim_keeps_aligned_views _ _ _ _ _ _ _ Hv).
Defined.

Lemma align_audio_nonempty (ref target : list R) (offset : Z) :
  ref <> [] -> target <> [] ->
  (- Z.of_nat (length ref) < offset < Z.of_nat (length target))%Z ->
  fst (align_audio ref target offset) <> [] /\
  snd (align_audio ref target offset) <> [].
Proof.
  intros Hr Ht Hoff.
  assert (Hlr : (0 < length ref)%nat)
    by (destruct ref; [contradiction | simpl; lia]).
  assert (Hlt : (0 < length target)%nat)
    by (destruct target; [contradiction | simpl; lia]).
  assert (Hn : (0 < Nat.min (length ref - Z.to_nat (- offset))
                            (length target - Z.to_nat offset))%nat) by lia.
  destruct (align_audio_lengths ref target offset) as [H1 H2].
  split; intros Hnil; apply (f_equal (@length R)) in Hnil;
    rewrite ?H1, ?H2 in Hnil; simpl in Hnil; lia.
Qed.

Lemma aligned_views_shape
    (d1 d2 : list R) (target_sr : nat) (dur2 : R) (align trim : bool)
    (silence_threshold_db : R) (v : Views) :
  align_views d1 d2 target_sr dur2 align trim silence_threshold_db = Ok v ->
  length (data1_aligned v) = length (data2_aligned v) /\
  (length (data1_aligned v) <= Nat.min (length d1) (length d2))%nat /\
  (align = true -> data1_aligned v <> [] /\ data2_aligned v <> []) /\
  (d1 <> [] -> d2 <> [] -> data1_aligned v <> [] /\ data2_aligned v <> []).
Proof.
  intros Hv.
  destruct (align_views_inv _ _ _ _ _ _ _ _ Hv) as [_ [_ [Hpair Halign]]].
  assert (Hne : d1 <> [] -> d2 <> [] ->
                data1_aligned v <> [] /\ data2_aligned v <> []).
  { intros H1 H2. destruct align.
    - rewrite aligned_pair_align_audio in Hpair.
      pose proof (align_audio_nonempty d1 d2 _ H1 H2
                    (transient_offset_bound d1 d2 target_sr
                       silence_threshold_db H1 H2)) as Hn.
      rewrite <- Hpair in Hn. exact Hn.
    - unfold aligned_pair in Hpair. cbv zeta in Hpair.
      injection Hpair as -> ->.
      assert (Hl1 : (0 < length d1)%nat)
        by (destruct d1; [contradiction | simpl; lia]).
      assert (Hl2 : (0 < length d2)%nat)
        by (destruct d2; [contradiction | simpl; lia]).
      split; intros Hnil; apply (f_equal (@length R)) in Hnil;
        rewrite length_firstn in Hnil; simpl in Hnil; lia. }
  assert (Hlen : length (data1_aligned v) = length (data2_aligned v) /\
                 (length (data1_aligned v)
                  <= Nat.min (length d1) (length d2))%nat).
  { destruct align.
    - rewrite aligned_pair_align_audio in Hpair.
      destruct (align_audio_lengths d1 d2
                  (transient_offset d1 d2 target_sr silence_threshold_db))
        as [Ha Hb].
      rewrite <- Hpair in Ha, Hb. simpl in Ha, Hb. lia.
    - unfold aligned_pair in Hpair. cbv zeta in Hpair.
      injection Hpair as -> ->. rewrite !length_firstn. lia. }
  destruct Hlen as [Heq Hle].
  split; [exact Heq |]. split; [exact Hle |]. split; [| exact Hne].
  intros ->. destruct Halign as [c [Hoc _]].
  apply Hne.
  - intros ->. unfold find_alignment_offset_by_transient in Hoc.
    cbv zeta in Hoc. destruct target_sr; discriminate.
  - intros ->. unfold find_alignment_offset_by_transient in Hoc.
    cbv zeta in Hoc. apply bind_inv in Hoc. destruct Hoc as [p1 [_ Hoc]].
    destruct target_sr; discriminate.
Qed.

(** X5. The views a comparison correlates always have equal length, no
    longer than either buffer; with alignment on they are never empty, and
    with alignment off they are empty only when a buffer is. *)
Theorem aligned_views_lengths
    (d1 d2 : list R) (target_sr : nat) (dur2 : R) (align trim : bool)
    (silence_threshold_db : R) (v : Views) :
  align_views d1 d2 target_sr dur2 align trim silence_threshold_db = Ok v ->
  length (data1_aligned v) = length (data2_aligned v) /\
  (length (data1_aligned v) <= Nat.min (length d1) (length d2))%nat /\
  (align = true -> data1_aligned v <> [] /\ data2_aligned v <> []) /\
  (d1 <> [] -> d2 <> [] -> data1_aligned v <> [] /\ data2_aligned v <> []).
Proof. apply aligned_views_shape. Qed.

Lemma aligned_views_lengths_witness :
  exists v,
    align_views impulse delayed_impulse 200 0 true true (-60) = Ok v /\
    length (data1_aligned v) = length (data2_aligned v) /\
    data1_aligned v <> [].
Proof.
  destruct (align_views_defined impulse delayed_impulse 200 0 true true
              (-60)) as [v Hv]; [discriminate | discriminate | lia |].
  exists v. split; [exact Hv |].
  destruct (aligned_views_lengths _ _ _ _ _ _ _ _ Hv)
    as [Heq [_ [Hne _]]].
  split; [exact Heq | exact (proj1 (Hne eq_refl))].
Defined.

(** ** Amplitude analyzer: errors, ranges and gain *)





Lemma np_sum_le_bound (a : list R) (b : R) :
  Forall (fun x => x <= b) a -> np_sum a <= INR (length a) * b.
Proof.
  induction 1 as [| x t Hx _ IH].
  - simpl. lra.
  - change (np_sum (x :: t)) with (x + np_sum t).
    change (length (x :: t)) with (S (length t)). rewrite S_INR. lra.
Qed.

Lemma np_mean_le_bound (a : list R) (b : R) :
  a <> [] -> Forall (fun x => x <= b) a -> np_mean a <= b.
Proof.
  intros Hne Hall. unfold np_mean.
  assert (Hlen : 0 < INR (length a)).
  { apply lt_0_INR. destruct a; [contradiction | simpl; lia]. }
  pose proof (np_sum_le_bound a b Hall) as Hsum.
  apply (Rmult_le_reg_r (INR (length a))); [exact Hlen |].
  unfold Rdiv. rewrite Rmult_assoc, Rinv_l by lra. lra.
Qed.

Lemma np_mean_ge_bound (a : list R) (b : R) :
  a <> [] -> Forall (fun x => b <= x) a -> b <= np_mean a.
Proof.
  intros Hne Hall.
  assert (Hopp : np_mean (map Ropp a) <= - b).
  { apply np_mean_le_bound.
    - destruct a; [contradiction | discriminate].
    - apply Forall_forall. intros y Hy. apply in_map_iff in Hy.
      destruct Hy as [x [<- Hx]]. rewrite Forall_forall in Hall.
      specialize (Hall x Hx). lra. }
  rewrite np_mean_opp in Hopp. lra.
Qed.



















(** ** Correlation engine: symmetry, range and invariance *)

Lemma zip_with_comm (a b : list R) :
  zip_with Rmult a b = zip_with Rmult b a.
Proof.
  unfold zip_with. revert b. induction a as [| x t IH]; intros [| y u];
    simpl; try reflexivity.
  rewrite IH. f_equal. lra.
Qed.





Lemma correlation_symmetric (a b : list R) :
  calculate_correlation a b = calculate_correlation b a.
Proof.
  unfold calculate_correlation. cbv zeta.
  rewrite (Nat.eqb_sym (length b) (length a)).
  rewrite (Nat.min_comm (length b) (length a)).
  set (a' := if (length a =? length b)%nat then a
             else firstn (Nat.min (length a) (length b)) a).
  set (b' := if (length a =? length b)%nat then b
             else firstn (Nat.min (length a) (length b)) b).
  assert (Hlen : length a' = length b').
  { unfold a', b'. destruct (length a =? length b)%nat eqn:He.
    - apply Nat.eqb_eq. exact He.
    - rewrite !length_firstn. lia. }
  rewrite Hlen.
  destruct (length b' =? 0)%nat; [reflexivity |].
  rewrite (zip_with_comm (map (fun x => x - np_mean b') b')).
  rewrite (Rmult_comm (np_sum (np_square (map (fun x => x - np_mean b') b')))).
  reflexivity.
Qed.

(** X10. The correlation coefficient does not depend on the order of its
    arguments. *)
Theorem calculate_correlation_symmetric (a b : list R) :
  calculate_correlation a b = calculate_correlation b a.
Proof. apply correlation_symmetric. Qed.


Lemma np_sum_shift (c : R) (a : list R) :
  np_sum (map (fun x => x + c) a) = np_sum a + INR (length a) * c.
Proof.
  induction a as [| x t IH]; [simpl; lra |].
  change (np_sum (map (fun x => x + c) (x :: t)))
    with (x + c + np_sum (map (fun x => x + c) t)).
  change (length (x :: t)) with (S (length t)). rewrite S_INR, IH.
  simpl. lra.
Qed.





Lemma np_mean_zeros (a : list R) : Forall (eq 0) a -> np_mean a = 0.
Proof.
  intros Hall. unfold np_mean. rewrite (np_sum_zeros a Hall).
  unfold Rdiv. apply Rmult_0_l.
Qed.

(** X12. A silent input (every sample 0) has no correlation to report:
    against any input within full scale, in either argument position, the
    coefficient is 0 (the mean is 0, the centred samples are all 0, so the
    denominator is 0, under the floor, and is not divided by).  The other
    input is kept within full scale, where its sum of squares is finite in
    floating point as it is here. *)
Theorem calculate_correlation_silent (a b : list R) :
  Forall (eq 0) a -> Forall (fun y => -1 <= y <= 1) b ->
  calculate_correlation a b = 0 /\ calculate_correlation b a = 0.
Proof.
  intros Hall _.
  assert (Hleft : calculate_correlation a b = 0).
  { unfold calculate_correlation. cbv zeta.
    set (a' := if (length a =? length b)%nat then a
               else firstn (Nat.min (length a) (length b)) a).
    assert (Hall' : Forall (eq 0) a').
    { unfold a'. destruct (length a =? length b)%nat;
        [exact Hall | apply Forall_firstn, Hall]. }
    destruct (length a' =? 0)%nat eqn:Hlen; [reflexivity |].
    rewrite (np_mean_zeros a' Hall').
    assert (Hzero : Forall (eq 0) (map (fun x => x - 0) a')).
    { apply Forall_forall. intros y Hy. apply in_map_iff in Hy.
      destruct Hy as [x [<- Hx]]. rewrite Forall_forall in Hall'.
      rewrite <- (Hall' x Hx). lra. }
    rewrite (np_sum_zeros _ (np_square_zeros _ Hzero)).
    rewrite Rmult_0_l, sqrt_0. apply Rltb_true_if. lra. }
  split; [exact Hleft |].
  rewrite correlation_symmetric. exact Hleft.
Qed.

Lemma calculate_correlation_silent_witness :
  calculate_correlation [0; 0; 0] [0; 1; 0] = 0 /\
  calculate_correlation [0; 1; 0] [0; 0; 0] = 0.
Proof.
  assert (Hall : Forall (eq 0) [0; 0; 0])
    by (repeat constructor).
  assert (Hscale : Forall (fun y => -1 <= y <= 1) [0; 1; 0])
    by (repeat constructor; lra).
  exact (calculate_correlation_silent _ [0; 1; 0] Hall Hscale).
Defined.

(** ** Similarity scorer and the finished result *)

Lemma similarity_score_closed_form (result : ComparisonResult) :
  calculate_similarity_score result
  = (Rmax 0 (waveform_correlation result) * 100 * 3.0
     + Rmax 0 (envelope_correlation result) * 100 * 2.0
     + Rmax 0 (spectral_correlation result) * 100 * 2.0
     + Rmax 0 (100 - Rabs (rms_diff_db result) * (100 / 12)) * 1.5
     + Rmax 0 (100 - Rabs (peak_diff_db result) * (100 / 12)) * 1.0
     + Rmax 0 (100 - Rabs (spectral_centroid_diff_hz result) * (100 / 1000))
       * 1.0
     + (if aligned result
        then Rmax 0 (alignment_correlation result) * 100 * 0.5 else 0))
    / (3.0 + 2.0 + 2.0 + 1.5 + 1.0 + 1.0
       + (if aligned result then 0.5 else 0)).
Proof.
  unfold calculate_similarity_score.
  destruct (aligned result); simpl; unfold py_sum; simpl; f_equal; lra.
Qed.

Lemma clamp_unit (x : R) : x <= 1 -> 0 <= Rmax 0 x <= 1.
Proof.
  intros Hx. unfold Rmax. destruct (Rle_dec 0 x); lra.
Qed.

Lemma clamp_penalty (d k : R) : 0 <= k -> 0 <= Rmax 0 (100 - Rabs d * k) <= 100.
Proof.
  intros Hk. pose proof (Rabs_pos d) as Hd.
  assert (Hp : 0 <= Rabs d * k) by (apply Rmult_le_pos; assumption).
  unfold Rmax. destruct (Rle_dec 0 (100 - Rabs d * k)); lra.
Qed.

Lemma similarity_score_bounds (result : ComparisonResult) :
  waveform_correlation result <= 1 ->
  envelope_correlation result <= 1 ->
  spectral_correlation result <= 1 ->
  alignment_correlation result <= 1 ->
  0 <= calculate_similarity_score result <= 100.
Proof.
  intros Hw He Hs Ha. rewrite similarity_score_closed_form.
  pose proof (clamp_unit _ Hw) as Cw. pose proof (clamp_unit _ He) as Ce.
  pose proof (clamp_unit _ Hs) as Cs. pose proof (clamp_unit _ Ha) as Ca.
  assert (Hk12 : 0 <= 100 / 12) by lra.
  assert (Hk1000 : 0 <= 100 / 1000) by lra.
  pose proof (clamp_penalty (rms_diff_db result) _ Hk12) as Cr.
  pose proof (clamp_penalty (peak_diff_db result) _ Hk12) as Cp.
  pose proof (clamp_penalty (spectral_centroid_diff_hz result) _ Hk1000)
    as Cc.
  destruct (aligned result).
  - split.
    + apply Rmult_le_pos; [lra | apply Rlt_le, Rinv_0_lt_compat; lra].
    + apply (Rmult_le_reg_r (3.0 + 2.0 + 2.0 + 1.5 + 1.0 + 1.0 + 0.5));
        [lra |].
      unfold Rdiv. rewrite Rmult_assoc, Rinv_l by lra. lra.
  - split.
    + apply Rmult_le_pos; [lra | apply Rlt_le, Rinv_0_lt_compat; lra].
    + apply (Rmult_le_reg_r (3.0 + 2.0 + 2.0 + 1.5 + 1.0 + 1.0 + 0));
        [lra |].
      unfold Rdiv. rewrite Rmult_assoc, Rinv_l by lra. lra.
Qed.

(** X13. The similarity score of a result whose four correlation fields are
    at most 1 lies between 0 and 100, and it is exactly 100 when the three
    correlations are 1, the three differences are 0 and, if aligned, the
    alignment correlation is 1. *)
Theorem similarity_score_range (result : ComparisonResult) :
  waveform_correlation result <= 1 ->
  envelope_correlation result <= 1 ->
  spectral_correlation result <= 1 ->
  alignment_correlation result <= 1 ->
  0 <= calculate_similarity_score result <= 100 /\
  (waveform_correlation result = 1 ->
   envelope_correlation result = 1 ->
   spectral_correlation result = 1 ->
   rms_diff_db result = 0 -> peak_diff_db result = 0 ->
   spectral_centroid_diff_hz result = 0 ->
   (aligned result = true -> alignment_correlation result = 1) ->
   calculate_similarity_score result = 100).
Proof.
  intros Hw He Hs Ha. split; [apply similarity_score_bounds; assumption |].
  intros Ew Ee Es Er Ep Ec Eal. rewrite similarity_score_closed_form.
  rewrite Ew, Ee, Es, Er, Ep, Ec, Rabs_R0.
  replace (100 - 0 * (100 / 12)) with 100 by lra.
  replace (100 - 0 * (100 / 1000)) with 100 by lra.
  rewrite !(Rmax_right 0 1), !(Rmax_right 0 100) by lra.
  destruct (aligned result).
  - rewrite (Eal eq_refl), Rmax_right by lra.
    replace (3.0 + 2.0 + 2.0 + 1.5 + 1.0 + 1.0 + 0.5) with 11 by lra. lra.
  - replace (3.0 + 2.0 + 2.0 + 1.5 + 1.0 + 1.0 + 0) with 10.5 by lra. lra.
Qed.

Lemma similarity_score_range_witness :
  0 <= calculate_similarity_score perfect_result <= 100 /\
  calculate_similarity_score perfect_result = 100.
Proof.
  assert (H1 : 1 <= 1) by lra.
  destruct (similarity_score_range perfect_result H1 H1 H1 H1)
    as [Hrange Hfull].
  split; [exact Hrange |].
  exact (Hfull eq_refl eq_refl eq_refl eq_refl eq_refl eq_refl
           (fun _ => eq_refl)).
Defined.

(** ** The finished comparison *)

(** The derived fields of the result, read off the analysis stage. *)
Lemma analyze_views_fields `{E : Env}
    (path1 path2 : String.string) (target_sr : nat) (duration1 : R)
    (align : bool) (silence_threshold_db : R) (v : Views)
    (r : ComparisonResult) :
  analyze_views path1 path2 target_sr duration1 align silence_threshold_db v
  = Ok r ->
  peak_diff_db r = peak_db (amplitude2 r) - peak_db (amplitude1 r) /\
  rms_diff_db r = rms_db (amplitude2 r) - rms_db (amplitude1 r) /\
  spectral_centroid_diff_hz r
  = centroid_hz (spectral2 r) - centroid_hz (spectral1 r) /\
  calculate_spectral_correlation (data1_aligned v) (data2_aligned v) target_sr
  = Ok (spectral_correlation r) /\
  similarity_score r = calculate_similarity_score r /\
  issues r = detect_issues r /\
  sample_rate r = target_sr /\
  duration1_s r = duration1 /\
  duration2_s r = duration2 v.
Proof.
  unfold analyze_views. intros Hr.
  apply bind_inv in Hr. destruct Hr as [amp1 [Hamp1 Hr]].
  apply bind_inv in Hr. destruct Hr as [amp2 [Hamp2 Hr]].
  apply bind_inv in Hr. destruct Hr as [spec1 [Hspec1 Hr]].
  apply bind_inv in Hr. destruct Hr as [spec2 [Hspec2 Hr]].
  apply bind_inv in Hr. destruct Hr as [tim1 [Htim1 Hr]].
  apply bind_inv in Hr. destruct Hr as [tim2 [Htim2 Hr]].
  cbv zeta in Hr.
  apply bind_inv in Hr. destruct Hr as [env1 [Henv1 Hr]].
  apply bind_inv in Hr. destruct Hr as [env2 [Henv2 Hr]].
  apply bind_inv in Hr. destruct Hr as [scorr [Hscorr Hr]].
  apply bind_inv in Hr. destruct Hr as [es1 [Hes1 Hr]].
  apply bind_inv in Hr. destruct Hr as [es2 [Hes2 Hr]].
  apply Ok_inj in Hr. subst r.
  unfold set_issues, set_similarity_score. simpl.
  repeat split; try assumption; reflexivity.
Qed.





Lemma align_views_duration
    (d1 d2 : list R) (target_sr : nat) (align trim : bool)
    (silence_threshold_db : R) (v : Views) :
  align_views d1 d2 target_sr (INR (length d2) / INR target_sr) align trim
    silence_threshold_db = Ok v ->
  duration2 v = INR (length (data2 v)) / INR target_sr.
Proof.
  unfold align_views. destruct align; cbv zeta; intros Hv.
  - apply bind_inv in Hv. destruct Hv as [[offset confidence] [_ Hv]].
    apply bind_inv in Hv. destruct Hv as [q [_ Hv]].
    destruct trim.
    + apply bind_inv in Hv. destruct Hv as [dur [Hdur Hv]].
      apply Ok_inj in Hv. subst v. unfold duration2, data2.
      unfold py_truediv_nat in Hdur.
      destruct (target_sr =? 0)%nat; [discriminate |].
      apply Ok_inj in Hdur. symmetry. exact Hdur.
    + apply Ok_inj in Hv. subst v. reflexivity.
  - apply Ok_inj in Hv. subst v. reflexivity.
Qed.

Lemma normalize_views_duration (normalize : bool) (v0 v : Views) :
  normalize_views normalize v0 = Ok v -> duration2 v = duration2 v0.
Proof.
  unfold normalize_views. destruct normalize; intros Hv.
  - apply bind_inv in Hv. destruct Hv as [p1 [_ Hv]].
    apply bind_inv in Hv. destruct Hv as [p2 [_ Hv]].
    apply Ok_inj in Hv. subst v. reflexivity.
  - apply Ok_inj in Hv. subst v. reflexivity.
Qed.

Lemma amplitude_stats_nonempty `{E : Env}
    (data : list R) (sample_rate : nat) (silence_threshold_db : R)
    (s : AmplitudeStats) :
  calculate_amplitude_stats data sample_rate silence_threshold_db = Ok s ->
  data <> [].
Proof.
  intros Hs ->. unfold calculate_amplitude_stats in Hs. simpl in Hs.
  discriminate.
Qed.

Lemma duration_pos (data : list R) (sr : nat) :
  data <> [] -> (0 < sr)%nat -> 0 < INR (length data) / INR sr.
Proof.
  intros Hne Hsr.
  assert (Hl : (0 < length data)%nat)
    by (destruct data; [contradiction | cbn [length]; lia]).
  apply lt_0_INR in Hl. apply lt_0_INR in Hsr.
  apply Rdiv_lt_0_compat; assumption.
Qed.

(** The stages of a comparison that returns, with the durations and the
    rate it was given. *)
Lemma compare_audio_stages `{E : Env}
    (path1 path2 : String.string) (align trim normalize : bool)
    (silence_threshold_db : R) (r : ComparisonResult) :
  compare_audio path1 path2 align trim normalize silence_threshold_db = Ok r ->
  exists d1 d2 target_sr v0 v,
    load_and_resample path1 path2 = Ok (d1, d2, target_sr) /\
    (0 < target_sr)%nat /\
    align_views d1 d2 target_sr (INR (length d2) / INR target_sr) align trim
      silence_threshold_db = Ok v0 /\
    normalize_views normalize v0 = Ok v /\
    analyze_views path1 path2 target_sr (INR (length d1) / INR target_sr)
      align silence_threshold_db v = Ok r.
Proof.
  unfold compare_audio. intros Hr.
  apply bind_inv in Hr. destruct Hr as [[[d1 d2] sr] [Hload Hr]].
  cbv zeta in Hr. simpl fst in Hr. simpl snd in Hr.
  apply bind_inv in Hr. destruct Hr as [dur1 [Hdur1 Hr]].
  apply bind_inv in Hr. destruct Hr as [dur2 [Hdur2 Hr]].
  apply bind_inv in Hr. destruct Hr as [v0 [Hv0 Hr]].
  apply bind_inv in Hr. destruct Hr as [v [Hv Hr]].
  unfold py_truediv_nat in Hdur1, Hdur2.
  destruct (sr =? 0)%nat eqn:Hsr; [discriminate |].
  apply Nat.eqb_neq in Hsr.
  apply Ok_inj in Hdur1. apply Ok_inj in Hdur2. subst dur1 dur2.
  exists d1, d2, sr, v0, v. repeat split; try assumption. lia.
Qed.

(** X15. A comparison that returns reports a positive sample rate and two
    positive durations, each the length of the buffer the per-file
    statistics were computed on divided by the rate; its [aligned] flag is
    the [align] option, and with alignment off it reports a zero offset and
    a zero alignment correlation. *)
Theorem compare_audio_result_wellformed `{E : Env}
    (path1 path2 : String.string) (align trim normalize : bool)
    (silence_threshold_db : R) (r : ComparisonResult) :
  compare_audio path1 path2 align trim normalize silence_threshold_db = Ok r ->
  (0 < sample_rate r)%nat /\
  0 < duration1_s r /\ 0 < duration2_s r /\
  (exists d1 d2,
     calculate_amplitude_stats d1 (sample_rate r) silence_threshold_db
     = Ok (amplitude1 r) /\
     calculate_amplitude_stats d2 (sample_rate r) silence_threshold_db
     = Ok (amplitude2 r) /\
     duration1_s r = INR (length d1) / INR (sample_rate r) /\
     duration2_s r = INR (length d2) / INR (sample_rate r)) /\
  aligned r = align /\
  (align = false ->
   alignment_offset_ms r = 0 /\ alignment_correlation r = 0).
Proof.
  intros Hr.
  destruct (compare_audio_stages _ _ _ _ _ _ _ Hr)
    as [d1 [d2 [sr [v0 [v [_ [Hsr [Hv0 [Hv Ha]]]]]]]]].
  destruct (analyze_views_inv _ _ _ _ _ _ _ _ Ha)
    as [Ha1 [Ha2 [_ [_ [_ [_ [_ [_ [_ [Hal [Hoff Hcorr]]]]]]]]]]].
  destruct (analyze_views_fields _ _ _ _ _ _ _ _ Ha)
    as [_ [_ [_ [_ [_ [_ [Hrate [Hdur1 Hdur2]]]]]]]].
  destruct (normalize_views_inv _ _ _ Hv) as [Hn1 [Hn2 [Hnoff [Hncorr _]]]].
  pose proof (normalize_views_duration _ _ _ Hv) as Hnd.
  pose proof (align_views_duration _ _ _ _ _ _ _ Hv0) as Hd2.
  destruct (align_views_inv _ _ _ _ _ _ _ _ Hv0) as [Hd1 [_ [_ Halign]]].
  pose proof (amplitude_stats_nonempty _ _ _ _ Ha1) as Hne1.
  pose proof (amplitude_stats_nonempty _ _ _ _ Ha2) as Hne2.
  assert (E1 : duration1_s r = INR (length (data1 v)) / INR sr)
    by (rewrite Hdur1, Hn1, Hd1; reflexivity).
  assert (E2 : duration2_s r = INR (length (data2 v)) / INR sr)
    by (rewrite Hdur2, Hnd, Hd2, Hn2; reflexivity).
  rewrite Hrate.
  split; [exact Hsr |].
  split; [rewrite E1; apply duration_pos; assumption |].
  split; [rewrite E2; apply duration_pos; assumption |].
  split; [exists (data1 v), (data2 v); repeat split; assumption |].
  split; [exact Hal |].
  intros ->. destruct Halign as [H0 H1].
  rewrite Hoff, Hcorr, Hnoff, Hncorr. split; assumption.
Qed.

Lemma compare_audio_result_wellformed_witness :
  exists r,
    compare_audio
      (E := example_env
              (two_files (impulse, 200%nat) (delayed_impulse, 200%nat)))
      "a.wav"%string "b.wav"%string true true false (-60) = Ok r /\
    (0 < sample_rate r)%nat /\ 0 < duration1_s r /\ 0 < duration2_s r.
Proof.
  destruct compare_impulse_delayed as [r Hr]. exists r.
  split; [exact Hr |].
  destruct (compare_audio_result_wellformed
              (E := example_env
                      (two_files (impulse, 200%nat)
                                 (delayed_impulse, 200%nat)))
              _ _ _ _ _ _ _ Hr) as [Hsr [H1 [H2 _]]].
  repeat split; assumption.
Defined.

(** ** Issue detector *)

Lemma in_flag {A : Type} (b : bool) (x y : A) :
  In y (if b then [x] else []) <-> b = true /\ y = x.
Proof.
  destruct b; simpl; split.
  - intros [H | []]. split; [reflexivity | symmetry; exact H].
  - intros [_ ->]. left. reflexivity.
  - intros [].
  - intros [H _]. discriminate.
Qed.

Lemma Rgtb_true_iff (a b : R) : Rgtb a b = true <-> a > b.
Proof.
  unfold Rgtb. destruct (Rgt_dec a b); split; intros H;
    try assumption; try reflexivity; try discriminate; contradiction.
Qed.

Lemma Rltb_true_iff (a b : R) : Rltb a b = true <-> a < b.
Proof.
  unfold Rltb. destruct (Rlt_dec a b); split; intros H;
    try assumption; try reflexivity; try discriminate; contradiction.
Qed.

(** Which rule emits which issue. *)
Lemma detect_issues_spec (result : ComparisonResult) (i : Issue) :
  In i (detect_issues result) <->
  (i = PeakLevelDiffers (peak_diff_db result)
   /\ Rabs (peak_diff_db result) > 3) \/
  (i = RmsLevelDiffers (rms_diff_db result)
   /\ Rabs (rms_diff_db result) > 3) \/
  (i = TimingOffsetDetected (alignment_offset_ms result)
   /\ aligned result = true /\ Rabs (alignment_offset_ms result) > 10) \/
  (i = FirstTransientDiffers
         (Rabs (first_transient_ms (timing1 result)
                - first_transient_ms (timing2 result)))
   /\ Rabs (first_transient_ms (timing1 result)
            - first_transient_ms (timing2 result)) > 20) \/
  (i = SpectralCentroidDiffers (spectral_centroid_diff_hz result)
   /\ Rabs (spectral_centroid_diff_hz result) > 200) \/
  (i = LowWaveformCorrelation (waveform_correlation result)
   /\ waveform_correlation result < 0.8) \/
  (i = LowSpectralCorrelation (spectral_correlation result)
   /\ spectral_correlation result < 0.9) \/
  (i = File1DcOffset (dc_offset (amplitude1 result))
   /\ Rabs (dc_offset (amplitude1 result)) > 0.01) \/
  (i = File2DcOffset (dc_offset (amplitude2 result))
   /\ Rabs (dc_offset (amplitude2 result)) > 0.01).
Proof.
  unfold detect_issues. cbv zeta.
  rewrite !in_app_iff, !in_flag, Bool.andb_true_iff,
    !Rgtb_true_iff, !Rltb_true_iff.
  tauto.
Qed.

(** X16. The issue detector reports nothing exactly when the two level
    differences are within 3 dB, the alignment offset (if alignment was on)
    within 10 ms, the first transients within 20 ms, the spectral centroids
    within 200 Hz, the waveform correlation at least 0.8, the spectral
    correlation at least 0.9 and both DC offsets within 0.01; the envelope
    correlation plays no part. *)
Theorem detect_issues_none_iff (result : ComparisonResult) :
  detect_issues result = [] <->
  Rabs (peak_diff_db result) <= 3 /\
  Rabs (rms_diff_db result) <= 3 /\
  (aligned result = true -> Rabs (alignment_offset_ms result) <= 10) /\
  Rabs (first_transient_ms (timing1 result)
        - first_transient_ms (timing2 result)) <= 20 /\
  Rabs (spectral_centroid_diff_hz result) <= 200 /\
  0.8 <= waveform_correlation result /\
  0.9 <= spectral_correlation result /\
  Rabs (dc_offset (amplitude1 result)) <= 0.01 /\
  Rabs (dc_offset (amplitude2 result)) <= 0.01.
Proof.
  split.
  - intros Hnil.
    assert (Hno : forall i, ~ In i (detect_issues result))
      by (intros i; rewrite Hnil; intros []).
    repeat split.
    + apply Rnot_gt_le. intros H.
      apply (Hno (PeakLevelDiffers (peak_diff_db result))).
      apply detect_issues_spec. tauto.
    + apply Rnot_gt_le. intros H.
      apply (Hno (RmsLevelDiffers (rms_diff_db result))).
      apply detect_issues_spec. tauto.
    + intros Hal. apply Rnot_gt_le. intros H.
      apply (Hno (TimingOffsetDetected (alignment_offset_ms result))).
      apply detect_issues_spec. tauto.
    + apply Rnot_gt_le. intros H.
      apply (Hno (FirstTransientDiffers
                    (Rabs (first_transient_ms (timing1 result)
                           - first_transient_ms (timing2 result))))).
      apply detect_issues_spec. tauto.
    + apply Rnot_gt_le. intros H.
      apply (Hno (SpectralCentroidDiffers
                    (spectral_centroid_diff_hz result))).
      apply detect_issues_spec. tauto.
    + apply Rnot_lt_le. intros H.
      apply (Hno (LowWaveformCorrelation (waveform_correlation result))).
      apply detect_issues_spec. tauto.
    + apply Rnot_lt_le. intros H.
      apply (Hno (LowSpectralCorrelation (spectral_correlation result))).
      apply detect_issues_spec. tauto.
    + apply Rnot_gt_le. intros H.
      apply (Hno (File1DcOffset (dc_offset (amplitude1 result)))).
      apply detect_issues_spec. tauto.
    + apply Rnot_gt_le. intros H.
      apply (Hno (File2DcOffset (dc_offset (amplitude2 result)))).
      apply detect_issues_spec. tauto.
  - intros [Hp [Hr [Ho [Ht [Hc [Hw [Hs [Hd1 Hd2]]]]]]]].
    destruct (detect_issues result) as [| i rest] eqn:Hi; [reflexivity |].
    assert (Hin : In i (detect_issues result))
      by (rewrite Hi; left; reflexivity).
    apply detect_issues_spec in Hin.
    destruct Hin as [[_ H] | [[_ H] | [[_ [Hal H]] | [[_ H] | [[_ H]
      | [[_ H] | [[_ H] | [[_ H] | [_ H]]]]]]]]]; try lra.
    specialize (Ho Hal). lra.
Qed.

(** ** Comparing a file with a louder copy, and with itself *)














(** ** Transient detector: when it returns, and the first transient *)

Lemma py_int_nonneg (x : R) : 0 <= x -> (0 <= py_int x)%Z.
Proof.
  intros Hx. unfold py_int. destruct (Rle_dec 0 x); [| contradiction].
  destruct (base_Int_part x) as [_ Hlow].
  assert (Hpos : -1 < IZR (Int_part x)) by lra.
  apply lt_IZR in Hpos. lia.
Qed.

Lemma py_int_below_one (x : R) : 0 <= x < 1 -> py_int x = 0%Z.
Proof. intros Hx. apply py_int_floor; simpl; lra. Qed.





(** What the frame count of the onset strength decides. *)
Lemma onset_strength_frames
    (data : list R) (sample_rate : nat) (os : option (list R)) :
  onset_strength data sample_rate = Ok os ->
  (0 < py_int (0.01 * INR sample_rate))%Z /\
  match os with
  | None => (Z.of_nat (length data) < py_int (0.025 * INR sample_rate))%Z
  | Some _ =>
    (py_int (0.025 * INR sample_rate) + py_int (0.01 * INR sample_rate)
     <= Z.of_nat (length data))%Z
  end.
Proof.
  unfold onset_strength. cbv zeta.
  set (hop := py_int (0.01 * INR sample_rate)).
  set (wl := py_int (0.025 * INR sample_rate)).
  assert (Hhop0 : (0 <= hop)%Z).
  { apply py_int_nonneg. pose proof (pos_INR sample_rate). lra. }
  intros Hos. apply bind_inv in Hos. destruct Hos as [q [Hq Hos]].
  unfold py_floordiv in Hq.
  destruct (hop =? 0)%Z eqn:H0; [discriminate |].
  apply Z.eqb_neq in H0. apply Ok_inj in Hq.
  assert (Hhop : (0 < hop)%Z) by lia.
  split; [exact Hhop |].
  pose proof (Z.div_mod (Z.of_nat (length data) - wl) hop H0) as Hdm.
  pose proof (Z.mod_pos_bound (Z.of_nat (length data) - wl) hop Hhop) as Hm.
  rewrite Hq in Hdm.
  destruct (q + 1 <=? 0)%Z eqn:Hnf.
  - apply Z.leb_le in Hnf. apply Ok_inj in Hos. subst os. nia.
  - apply Z.leb_gt in Hnf.
    apply bind_inv in Hos. destruct Hos as [top [Htop Hos]].
    apply Ok_inj in Hos. subst os.
    destruct (Z.eq_dec q 0) as [Hq0 | Hq0]; [| nia].
    exfalso. rewrite Hq0 in Htop. simpl in Htop. discriminate.
Qed.




(** X20. The first transient the detector reports is the one the aligner
    finds: on a buffer of at least one 25 ms window it is the sample index
    [find_first_transient] answers, in milliseconds, so it is not negative
    and lies before the end of the buffer; on a shorter buffer it is 0
    whatever the samples are. *)
Theorem detect_transients_first_transient `{E : Env}
    (data : list R) (sample_rate : nat) (threshold_db : R)
    (t : TimingStats) :
  detect_transients data sample_rate threshold_db = Ok t ->
  first_transient_ms t
  = (if (Z.of_nat (length data) <? py_int (0.025 * INR sample_rate))%Z
     then 0
     else INR (find_first_transient data sample_rate threshold_db)
          / INR sample_rate * 1000) /\
  0 <= first_transient_ms t /\
  first_transient_ms t * INR sample_rate <= 1000 * INR (length data).
Proof.
  unfold detect_transients. intros Hdet.
  apply bind_inv in Hdet. destruct Hdet as [os [Hos Hdet]].
  destruct (onset_strength_frames _ _ _ Hos) as [Hhop Hframes].
  assert (Hsr : 0 < INR sample_rate).
  { destruct sample_rate as [| n]; [| apply lt_0_INR; lia].
    exfalso. simpl INR in Hhop. rewrite Rmult_0_r in Hhop.
    rewrite (py_int_below_one 0) in Hhop by lra. lia. }
  destruct os as [onset |]; cbv zeta in Hdet; apply Ok_inj in Hdet;
    subst t; unfold first_transient_ms.
  - destruct (_ <? _)%Z eqn:Hlt; [apply Z.ltb_lt in Hlt; lia |].
    assert (Hne : data <> []).
    { intros ->. simpl length in Hframes.
      assert (Hwl : (0 <= py_int (0.025 * INR sample_rate))%Z)
        by (apply py_int_nonneg; lra).
      simpl Z.of_nat in Hframes. lia. }
    pose proof (find_first_transient_bound data sample_rate threshold_db Hne)
      as Hb.
    assert (Heq : match
                    np_where (map (fun x => Rgtb x
                                     (py_pow 10 (threshold_db / 20)))
                                  (np_abs data))
                  with
                  | i :: _ => INR i / INR sample_rate * 1000
                  | [] => 0
                  end
                  = INR (find_first_transient data sample_rate threshold_db)
                    / INR sample_rate * 1000).
    { unfold find_first_transient, np_abs. cbv zeta. rewrite map_map.
      destruct (np_where _); [| reflexivity].
      simpl INR. unfold Rdiv. ring. }
    rewrite Heq. split; [reflexivity |].
    pose proof (pos_INR (find_first_transient data sample_rate threshold_db))
      as Hpos.
    apply Nat.lt_le_incl, le_INR in Hb.
    split.
    + apply Rmult_le_pos; [| lra].
      apply Rmult_le_pos; [exact Hpos |].
      apply Rlt_le, Rinv_0_lt_compat, Hsr.
    + unfold Rdiv. replace (INR (find_first_transient data sample_rate
                                   threshold_db)
                            * / INR sample_rate * 1000 * INR sample_rate)
        with (1000 * INR (find_first_transient data sample_rate threshold_db)
              * (/ INR sample_rate * INR sample_rate)) by ring.
      rewrite Rinv_l by lra. lra.
  - destruct (_ <? _)%Z eqn:Hlt; [| apply Z.ltb_ge in Hlt; lia].
    split; [reflexivity |]. split; [lra |].
    rewrite Rmult_0_l. apply Rmult_le_pos; [lra | apply pos_INR].
Qed.

Lemma detect_transients_first_transient_witness :
  exists t,
    detect_transients (E := example_env no_files) click_train 100 (-60)
    = Ok t /\
    0 <= first_transient_ms t /\
    first_transient_ms t * INR 100 <= 1000 * INR (length click_train).
Proof.
  assert (Hdet : exists t,
    detect_transients (E := example_env no_files) click_train 100 (-60)
    = Ok t).
  { unfold detect_transients. rewrite onset_strength_click_train, bind_Ok.
    eexists. reflexivity. }
  destruct Hdet as [t Ht]. exists t. split; [exact Ht |].
  exact (proj2 (detect_transients_first_transient
                  (E := example_env no_files) _ _ _ _ Ht)).
Defined.

(** ** Envelope extractor *)

Lemma reflect_index_bound (n : nat) (m : Z) :
  (0 < n)%nat -> (reflect_index n m < n)%nat.
Proof.
  intros Hn. unfold reflect_index. cbv zeta.
  pose proof (Z.mod_pos_bound m (2 * Z.of_nat n) ltac:(lia)) as Hr.
  destruct (_ <? _)%Z eqn:Hlt.
  - apply Z.ltb_lt in Hlt. lia.
  - apply Z.ltb_ge in Hlt. lia.
Qed.

Lemma filter_window_length (input : list R) (size i : nat) :
  length (filter_window input size i) = size.
Proof. unfold filter_window. rewrite length_map, length_seq. reflexivity. Qed.

Lemma filter_window_in (input : list R) (size i : nat) (x : R) :
  input <> [] -> In x (filter_window input size i) -> In x input.
Proof.
  intros Hne Hin. unfold filter_window in Hin. apply in_map_iff in Hin.
  destruct Hin as [j [<- _]]. apply nth_In, reflect_index_bound.
  destruct input; [contradiction | cbn [length]; lia].
Qed.

Lemma filter_window_bounds (input : list R) (size i : nat) (lo hi : R) :
  input <> [] -> Forall (fun x => lo <= x <= hi) input ->
  Forall (fun x => lo <= x <= hi) (filter_window input size i).
Proof.
  intros Hne Hall. apply Forall_forall. intros x Hx.
  rewrite Forall_forall in Hall. apply Hall.
  exact (filter_window_in _ _ _ _ Hne Hx).
Qed.

Lemma window_max_bounds (w : list R) (lo hi : R) :
  w <> [] -> Forall (fun x => lo <= x <= hi) w -> lo <= window_max w <= hi.
Proof.
  intros Hne Hall. destruct w as [| x t]; [contradiction |].
  unfold window_max.
  destruct (fold_left_Rmax_spec t x) as [Hin _].
  rewrite Forall_forall in Hall. apply Hall.
  destruct Hin as [-> | Hin]; [left; reflexivity | right; exact Hin].
Qed.

Lemma np_sum_bounds (a : list R) (lo hi : R) :
  Forall (fun x => lo <= x <= hi) a ->
  INR (length a) * lo <= np_sum a <= INR (length a) * hi.
Proof.
  induction 1 as [| x t Hx _ IH].
  - simpl. lra.
  - change (np_sum (x :: t)) with (x + np_sum t).
    change (length (x :: t)) with (S (length t)). rewrite S_INR. lra.
Qed.

Lemma window_mean_bounds (w : list R) (size : Z) (lo hi : R) :
  (1 <= size)%Z -> length w = Z.to_nat size ->
  Forall (fun x => lo <= x <= hi) w ->
  lo <= np_sum w / IZR size <= hi.
Proof.
  intros Hsize Hlen Hall.
  pose proof (np_sum_bounds w lo hi Hall) as Hsum.
  rewrite Hlen, INR_of_nat_Z, Z2Nat.id in Hsum by lia.
  assert (Hpos : 0 < IZR size) by (apply IZR_lt; lia).
  split.
  - apply (Rmult_le_reg_r (IZR size)); [exact Hpos |].
    unfold Rdiv. rewrite Rmult_assoc, Rinv_l by lra. lra.
  - apply (Rmult_le_reg_r (IZR size)); [exact Hpos |].
    unfold Rdiv. rewrite Rmult_assoc, Rinv_l by lra. lra.
Qed.

Lemma maximum_filter1d_bounds
    (input : list R) (size : Z) (out : list R) (lo hi : R) :
  maximum_filter1d input size = Ok out ->
  Forall (fun x => lo <= x <= hi) input ->
  length out = length input /\ Forall (fun x => lo <= x <= hi) out.
Proof.
  unfold maximum_filter1d. destruct (size <? 1)%Z eqn:Hs; [discriminate |].
  apply Z.ltb_ge in Hs. intros Hout Hall. apply Ok_inj in Hout. subst out.
  split; [rewrite length_map, length_seq; reflexivity |].
  destruct input as [| x0 t] eqn:Hin; [constructor |]. rewrite <- Hin in *.
  assert (Hne : input <> []) by (rewrite Hin; discriminate).
  apply Forall_forall. intros y Hy. apply in_map_iff in Hy.
  destruct Hy as [i [<- _]]. apply window_max_bounds.
  - intros Hnil. apply (f_equal (@length R)) in Hnil.
    rewrite filter_window_length in Hnil. simpl in Hnil. lia.
  - apply filter_window_bounds; assumption.
Qed.

Lemma uniform_filter1d_bounds
    (input : list R) (size : Z) (out : list R) (lo hi : R) :
  uniform_filter1d input size = Ok out ->
  Forall (fun x => lo <= x <= hi) input ->
  length out = length input /\ Forall (fun x => lo <= x <= hi) out.
Proof.
  unfold uniform_filter1d. destruct (size <? 1)%Z eqn:Hs; [discriminate |].
  apply Z.ltb_ge in Hs. intros Hout Hall. apply Ok_inj in Hout. subst out.
  split; [rewrite length_map, length_seq; reflexivity |].
  destruct input as [| x0 t] eqn:Hin; [constructor |]. rewrite <- Hin in *.
  assert (Hne : input <> []) by (rewrite Hin; discriminate).
  apply Forall_forall. intros y Hy. apply in_map_iff in Hy.
  destruct Hy as [i [<- _]]. apply window_mean_bounds.
  - exact Hs.
  - apply filter_window_length.
  - apply filter_window_bounds; assumption.
Qed.

Lemma stride_bounds (a : list R) (step : Z) (out : list R) (P : R -> Prop) :
  (1 <= step)%Z -> stride a step = Ok out -> Forall P a ->
  length out = ((length a + Z.to_nat step - 1) / Z.to_nat step)%nat /\
  Forall P out.
Proof.
  intros Hstep. unfold stride.
  destruct (step =? 0)%Z eqn:H0; [apply Z.eqb_eq in H0; lia |].
  cbv zeta. intros Hout Hall. apply Ok_inj in Hout. subst out.
  split; [rewrite length_map, length_seq; reflexivity |].
  set (d := Z.to_nat step). assert (Hd : (0 < d)%nat) by (unfold d; lia).
  apply Forall_forall. intros y Hy. apply in_map_iff in Hy.
  destruct Hy as [i [<- Hi]]. apply in_seq in Hi.
  rewrite Forall_forall in Hall. apply Hall, nth_In.
  pose proof (Nat.Div0.mul_div_le (length a + d - 1) d) as Hle.
  nia.
Qed.

Lemma calculate_envelope_inv
    (data : list R) (sample_rate : nat) (window_ms : R)
    (envelope : list R) :
  calculate_envelope data sample_rate window_ms = Ok envelope ->
  (1 <= py_int (window_ms * INR sample_rate / 1000))%Z /\
  length envelope
  = ((length data
      + Z.to_nat (py_int (window_ms * INR sample_rate / 1000)) - 1)
     / Z.to_nat (py_int (window_ms * INR sample_rate / 1000)))%nat /\
  (forall lo hi,
     Forall (fun x => lo <= Rabs x <= hi) data ->
     Forall (fun e => lo <= e <= hi) envelope).
Proof.
  unfold calculate_envelope. cbv zeta.
  set (w := py_int (window_ms * INR sample_rate / 1000)).
  intros Henv.
  apply bind_inv in Henv. destruct Henv as [m [Hm Henv]].
  apply bind_inv in Henv. destruct Henv as [u [Hu Henv]].
  assert (Hw : (1 <= w)%Z).
  { unfold maximum_filter1d in Hm.
    destruct (w <? 1)%Z eqn:Hs; [discriminate |].
    apply Z.ltb_ge in Hs. exact Hs. }
  split; [exact Hw |]. split.
  - assert (Hml : length m = length data).
    { unfold maximum_filter1d in Hm. destruct (w <? 1)%Z; [discriminate |].
      apply Ok_inj in Hm. subst m.
      unfold np_abs. rewrite length_map, length_seq, length_map.
      reflexivity. }
    assert (Hul : length u = length m).
    { unfold uniform_filter1d in Hu. destruct (w <? 1)%Z; [discriminate |].
      apply Ok_inj in Hu. subst u.
      rewrite length_map, length_seq. reflexivity. }
    assert (Hall : Forall (fun _ : R => True) u)
      by (apply Forall_forall; intros; exact I).
    destruct (stride_bounds _ _ _ _ Hw Henv Hall) as [Hsl _].
    rewrite Hsl, Hul, Hml. reflexivity.
  - intros lo hi Hall.
    assert (Habs : Forall (fun x => lo <= x <= hi) (np_abs data)).
    { unfold np_abs. apply Forall_forall. intros y Hy.
      apply in_map_iff in Hy. destruct Hy as [x [<- Hx]].
      rewrite Forall_forall in Hall. apply Hall, Hx. }
    destruct (maximum_filter1d_bounds _ _ _ _ _ Hm Habs) as [_ Hmb].
    destruct (uniform_filter1d_bounds _ _ _ _ _ Hu Hmb) as [_ Hub].
    destruct (stride_bounds _ _ _ _ Hw Henv Hub) as [_ Hsb].
    exact Hsb.
Qed.

Lemma calculate_envelope_range
    (data : list R) (sample_rate : nat) (window_ms : R)
    (envelope : list R) :
  calculate_envelope data sample_rate window_ms = Ok envelope ->
  Forall (fun e => 0 <= e) envelope /\
  (forall peak,
     np_max (np_abs data) = Ok peak ->
     Forall (fun e => 0 <= e <= peak) envelope).
Proof.
  intros Henv.
  destruct (calculate_envelope_inv _ _ _ _ Henv) as [_ [Hlen Hb]].
  assert (Hpeak : forall peak,
            np_max (np_abs data) = Ok peak ->
            Forall (fun e => 0 <= e <= peak) envelope).
  { intros peak Hp. apply Hb. apply Forall_forall. intros x Hx.
    split; [apply Rabs_pos |].
    destruct (np_max_spec _ _ Hp) as [_ Hall].
    rewrite Forall_forall in Hall. apply Hall.
    unfold np_abs. apply in_map, Hx. }
  split; [| exact Hpeak].
  destruct data as [| x0 t] eqn:Hd.
  - destruct envelope; [constructor |].
    rewrite Nat.add_0_l in Hlen. cbn [length] in Hlen.
    destruct (calculate_envelope_inv _ _ _ _ Henv) as [Hw _].
    rewrite Nat.div_small in Hlen by lia. discriminate.
  - rewrite <- Hd in *.
    assert (Hne : np_abs data <> []) by (rewrite Hd; discriminate).
    destruct (np_max_nonempty _ Hne) as [peak Hp].
    specialize (Hpeak peak Hp). apply Forall_forall. intros e He.
    rewrite Forall_forall in Hpeak. apply Hpeak, He.
Qed.

(** X21. The envelope extractor. A window that truncates to less than one
    sample raises RuntimeError, the filter's refusal of its size. Otherwise
    the envelope of a non-empty buffer has one value per window, the buffer
    length divided by the window and rounded up, and every value lies
    between the smallest and the largest magnitude of the buffer: never
    negative, never above the peak. *)
Theorem calculate_envelope_outcome
    (data : list R) (sample_rate : nat) (window_ms : R) :
  ((py_int (window_ms * INR sample_rate / 1000) < 1)%Z ->
   calculate_envelope data sample_rate window_ms = Raise RuntimeError) /\
  ((1 <= py_int (window_ms * INR sample_rate / 1000))%Z -> data <> [] ->
   exists envelope,
     calculate_envelope data sample_rate window_ms = Ok envelope /\
     envelope <> [] /\
     length envelope
     = ((length data
         + Z.to_nat (py_int (window_ms * INR sample_rate / 1000)) - 1)
        / Z.to_nat (py_int (window_ms * INR sample_rate / 1000)))%nat /\
     (forall lo hi,
        Forall (fun x => lo <= Rabs x <= hi) data ->
        Forall (fun e => lo <= e <= hi) envelope) /\
     Forall (fun e => 0 <= e) envelope /\
     (forall peak,
        np_max (np_abs data) = Ok peak ->
        Forall (fun e => e <= peak) envelope)).
Proof.
  split.
  - intros Hw. unfold calculate_envelope, maximum_filter1d. cbv zeta.
    apply Z.ltb_lt in Hw. rewrite Hw. reflexivity.
  - intros Hw Hne.
    destruct (calculate_envelope_defined data sample_rate window_ms Hw)
      as [envelope [Henv Hfull]].
    exists envelope. split; [exact Henv |]. split; [exact (Hfull Hne) |].
    destruct (calculate_envelope_inv _ _ _ _ Henv) as [_ [Hlen Hb]].
    destruct (calculate_envelope_range _ _ _ _ Henv) as [Hpos Hpeak].
    split; [exact Hlen |]. split; [exact Hb |]. split; [exact Hpos |].
    intros peak Hp. specialize (Hpeak peak Hp).
    apply Forall_forall. intros e He. rewrite Forall_forall in Hpeak.
    apply Hpeak, He.
Qed.

(** ** Envelope statistics *)











(** ** Spectral analyzer *)

Lemma ln_le_minus1 (t : R) : 0 < t -> ln t <= t - 1.
Proof.
  intros Ht. pose proof (exp_ineq1_le (ln t)) as H.
  rewrite exp_ln in H by exact Ht. lra.
Qed.

Lemma sum_ln_tangent (m : R) (x : list R) :
  0 < m -> Forall (fun v => 0 < v) x ->
  np_sum (map ln x) <= INR (length x) * (ln m - 1) + np_sum x / m.
Proof.
  intros Hm. induction 1 as [| v t Hv _ IH].
  - simpl. lra.
  - change (np_sum (map ln (v :: t))) with (ln v + np_sum (map ln t)).
    change (np_sum (v :: t)) with (v + np_sum t).
    change (length (v :: t)) with (S (length t)). rewrite S_INR.
    assert (Hq : 0 < v / m) by (apply Rdiv_lt_0_compat; assumption).
    pose proof (ln_le_minus1 (v / m) Hq) as Ht.
    assert (Hln : ln v = ln m + ln (v / m)).
    { rewrite <- ln_mult by assumption. f_equal. field. lra. }
    unfold Rdiv in *. lra.
Qed.

Lemma np_sum_positive (x : list R) :
  x <> [] -> Forall (fun v => 0 < v) x -> 0 < np_sum x.
Proof.
  intros Hne Hall. destruct Hall as [| v t Hv Ht]; [contradiction |].
  change (np_sum (v :: t)) with (v + np_sum t).
  assert (H0 : 0 <= np_sum t).
  { clear Hne. induction Ht as [| w u Hw _ IH]; simpl; lra. }
  lra.
Qed.

(** The geometric mean is at most the arithmetic mean. *)
Lemma geometric_le_arithmetic (x : list R) :
  x <> [] -> Forall (fun v => 0 < v) x ->
  exp (np_mean (map ln x)) <= np_mean x.
Proof.
  intros Hne Hall.
  assert (Hn : 0 < INR (length x)).
  { apply lt_0_INR. destruct x; [contradiction | cbn [length]; lia]. }
  pose proof (np_sum_positive x Hne Hall) as Hsum.
  assert (Hm : 0 < np_mean x)
    by (unfold np_mean; apply Rdiv_lt_0_compat; assumption).
  pose proof (sum_ln_tangent (np_mean x) x Hm Hall) as Ht.
  assert (Hone : np_sum x / np_mean x = INR (length x)).
  { unfold np_mean. field. lra. }
  rewrite Hone in Ht.
  assert (Hle : np_mean (map ln x) <= ln (np_mean x)).
  { unfold np_mean at 1. rewrite length_map.
    apply (Rmult_le_reg_r (INR (length x))); [exact Hn |].
    unfold Rdiv. rewrite Rmult_assoc, Rinv_l by lra. lra. }
  rewrite <- (exp_ln (np_mean x) Hm).
  destruct Hle as [Hlt | ->]; [apply Rlt_le, exp_increasing, Hlt | lra].
Qed.

Lemma np_mean_shift (c : R) (a : list R) :
  a <> [] -> np_mean (map (fun x => x + c) a) = np_mean a + c.
Proof.
  intros Hne. unfold np_mean. rewrite np_sum_shift, length_map.
  assert (Hn : 0 < INR (length a)).
  { apply lt_0_INR. destruct a; [contradiction | cbn [length]; lia]. }
  field. lra.
Qed.

Lemma weighted_sum_bounds (fs ps : list R) (lo hi : R) :
  Forall (fun f => lo <= f <= hi) fs -> Forall (fun p => 0 <= p) ps ->
  lo * np_sum (firstn (length fs) ps)
  <= np_sum (zip_with Rmult fs ps)
  <= hi * np_sum (firstn (length fs) ps).
Proof.
  intros Hf. revert ps. induction Hf as [| f t Hft _ IH]; intros ps Hp.
  - simpl. lra.
  - destruct Hp as [| p u Hpu Hu]; [simpl; lra |].
    specialize (IH u Hu).
    change (np_sum (zip_with Rmult (f :: t) (p :: u)))
      with (f * p + np_sum (zip_with Rmult t u)).
    change (np_sum (firstn (length (f :: t)) (p :: u)))
      with (p + np_sum (firstn (length t) u)).
    nra.
Qed.

Lemma tl_map_seq {A : Type} (f : nat -> A) (n : nat) :
  tl (map f (seq 0 (n + 1))) = map f (seq 1 n).
Proof. rewrite Nat.add_1_r. reflexivity. Qed.

(** The magnitudes and the frequencies without the DC bin. *)
Lemma spectrum_and_freqs_inv
    (data : list R) (sample_rate : nat) (spectrum freqs : list R) :
  spectrum_and_freqs data sample_rate = Ok (spectrum, freqs) ->
  (0 < sample_rate)%nat /\
  length spectrum = length freqs /\
  Forall (fun s => 0 <= s) spectrum /\
  Forall (fun f => 0 < f <= INR sample_rate / 2) freqs.
Proof.
  unfold spectrum_and_freqs. cbv zeta.
  set (windowed := zip_with Rmult _ _). intros Hsf.
  apply bind_inv in Hsf. destruct Hsf as [sp [Hsp Hsf]].
  apply bind_inv in Hsf. destruct Hsf as [d [Hd Hsf]].
  apply bind_inv in Hsf. destruct Hsf as [fr [Hfr Hsf]].
  apply Ok_inj in Hsf. injection Hsf as <- <-.
  unfold py_truediv_nat in Hd.
  destruct (sample_rate =? 0)%nat eqn:Hsr; [discriminate |].
  apply Nat.eqb_neq in Hsr. apply Ok_inj in Hd. subst d.
  unfold rfftfreq in Hfr.
  destruct (length windowed =? 0)%nat eqn:Hn; [discriminate |].
  apply Nat.eqb_neq in Hn. apply Ok_inj in Hfr. subst fr.
  assert (Hsp' : sp = map (fun k => sqrt (dft_re windowed k
                                            * dft_re windowed k
                                          + dft_im windowed k
                                            * dft_im windowed k))
                         (seq 0 (length windowed / 2 + 1))).
  { unfold rfft_abs in Hsp. destruct windowed; [discriminate |].
    apply Ok_inj in Hsp. symmetry. exact Hsp. }
  subst sp. rewrite !tl_map_seq.
  split; [lia |]. split; [rewrite !length_map; reflexivity |].
  split.
  - apply Forall_forall. intros y Hy. apply in_map_iff in Hy.
    destruct Hy as [k [<- _]]. apply sqrt_pos.
  - apply Forall_forall. intros y Hy. apply in_map_iff in Hy.
    destruct Hy as [k [<- Hk]]. apply in_seq in Hk.
    set (n := length windowed) in *.
    assert (H2k : (2 * k <= n)%nat).
    { pose proof (Nat.Div0.mul_div_le n 2). lia. }
    assert (Hk0 : 1 <= INR k).
    { replace 1 with (INR 1) by reflexivity. apply le_INR. lia. }
    apply le_INR in H2k. rewrite mult_INR in H2k. simpl INR in H2k.
    assert (Hsr0 : 0 < INR sample_rate) by (apply lt_0_INR; lia).
    assert (Hn0 : 0 < INR n) by (apply lt_0_INR; lia).
    change (INR 1) with 1.
    replace (INR k * (1 / (INR n * (1 / INR sample_rate))))
      with (INR k * INR sample_rate / INR n) by (field; lra).
    split.
    + apply Rdiv_lt_0_compat; [| exact Hn0].
      apply Rmult_lt_0_compat; lra.
    + apply (Rmult_le_reg_r (INR n)); [exact Hn0 |].
      unfold Rdiv. rewrite Rmult_assoc, Rinv_l by lra. nra.
Qed.

Lemma spectral_stats_ranges `{E : Env}
    (data : list R) (sample_rate : nat) (s : SpectralStats) :
  calculate_spectral_stats data sample_rate = Ok s ->
  0 <= centroid_hz s <= INR sample_rate / 2 /\
  0 <= bandwidth_hz s <= INR sample_rate / 2 /\
  0 <= rolloff_hz s <= INR sample_rate / 2 /\
  0 <= flatness s <= 1 /\
  (length (dominant_freqs s) <= 5)%nat /\
  Forall (fun f => 0 <= f <= INR sample_rate / 2) (dominant_freqs s).
Proof.
  unfold calculate_spectral_stats. intros Hs.
  apply bind_inv in Hs. destruct Hs as [[spectrum freqs] [Hsf Hs]].
  destruct (spectrum_and_freqs_inv _ _ _ _ Hsf) as [Hsr [Hlen [Hsp Hfr]]].
  cbv zeta in Hs. simpl fst in Hs. simpl snd in Hs.
  set (half := INR sample_rate / 2) in *.
  assert (Hhalf : 0 <= half).
  { unfold half. pose proof (pos_INR sample_rate). lra. }
  unfold Rltb in Hs at 1.
  destruct (Rlt_dec (np_sum (np_square spectrum)) 1e-10) as [Hlow | Hhigh].
  { apply Ok_inj in Hs. subst s. unfold spectral_silence.
    cbn [centroid_hz bandwidth_hz rolloff_hz flatness dominant_freqs length].
    repeat split; try lra; try lia. constructor. }
  apply Rnot_lt_le in Hhigh.
  apply bind_inv in Hs. destruct Hs as [top [Htop Hs]].
  apply Ok_inj in Hs. subst s.
  cbn [centroid_hz bandwidth_hz rolloff_hz flatness dominant_freqs].
  set (power := np_square spectrum) in *.
  set (total := np_sum power) in *.
  assert (Htot : 0 < total) by lra.
  assert (Hpow : Forall (fun p => 0 <= p) power).
  { unfold power, np_square. apply Forall_forall. intros y Hy.
    apply in_map_iff in Hy. destruct Hy as [x [<- _]]. nra. }
  assert (Hpl : firstn (length freqs) power = power).
  { rewrite <- Hlen. unfold power, np_square.
    rewrite <- (length_map (fun x => x * x) spectrum). apply firstn_all. }
  assert (Hne : spectrum <> []).
  { intros Hnil. unfold total, power in Htot. rewrite Hnil in Htot.
    simpl in Htot. lra. }
  assert (Hfne : freqs <> []).
  { intros Hnil. rewrite Hnil in Hlen. destruct spectrum;
      [contradiction | discriminate]. }
  assert (Hfr0 : Forall (fun f => 0 <= f <= half) freqs).
  { apply Forall_forall. intros f Hf. rewrite Forall_forall in Hfr.
    specialize (Hfr f Hf). lra. }
  set (centroid := np_sum (zip_with Rmult freqs power) / total).
  assert (Hc : 0 <= centroid <= half).
  { pose proof (weighted_sum_bounds freqs power 0 half Hfr0 Hpow) as Hw.
    rewrite Hpl in Hw. fold total in Hw. unfold centroid. split.
    - apply Rmult_le_pos; [lra | apply Rlt_le, Rinv_0_lt_compat, Htot].
    - apply (Rmult_le_reg_r total); [exact Htot |].
      unfold Rdiv. rewrite Rmult_assoc, Rinv_l by lra. lra. }
  split; [exact Hc |]. split; [| split; [| split; [| split]]].
  - split; [apply sqrt_pos |].
    rewrite <- (sqrt_square half) by exact Hhalf.
    apply sqrt_le_1_alt.
    set (dev := map (fun f => (f - centroid) * (f - centroid)) freqs).
    assert (Hdev : Forall (fun d => 0 <= d <= half * half) dev).
    { unfold dev. apply Forall_forall. intros y Hy.
      apply in_map_iff in Hy. destruct Hy as [f [<- Hf]].
      rewrite Forall_forall in Hfr0. specialize (Hfr0 f Hf).
      split; [apply Rle_0_sqr |].
      assert (H1 : 0 <= half - (f - centroid)) by lra.
      assert (H2 : 0 <= half + (f - centroid)) by lra.
      pose proof (Rmult_le_pos _ _ H1 H2). lra. }
    pose proof (weighted_sum_bounds dev power 0 (half * half) Hdev Hpow)
      as Hw.
    assert (Hdl : length dev = length freqs)
      by (unfold dev; apply length_map).
    rewrite Hdl, Hpl in Hw. fold total in Hw.
    apply (Rmult_le_reg_r total); [exact Htot |].
    unfold Rdiv. rewrite Rmult_assoc, Rinv_l by lra. lra.
  - rewrite Forall_forall in Hfr0. apply Hfr0, nth_In.
    assert (Hl : (0 < length freqs)%nat)
      by (destruct freqs; [contradiction | cbn [length]; lia]).
    lia.
  - assert (Hshift : Forall (fun v => 0 < v)
                       (map (fun x => x + 1e-10) spectrum)).
    { apply Forall_forall. intros y Hy. apply in_map_iff in Hy.
      destruct Hy as [x [<- Hx]]. rewrite Forall_forall in Hsp.
      specialize (Hsp x Hx). lra. }
    assert (Hsne : map (fun x => x + 1e-10) spectrum <> [])
      by (destruct spectrum; [contradiction | discriminate]).
    pose proof (geometric_le_arithmetic _ Hsne Hshift) as Hgm.
    rewrite map_map, np_mean_shift in Hgm by exact Hne.
    pose proof (exp_pos (np_mean (map (fun s => ln (s + 1e-10)) spectrum)))
      as Hgpos.
    set (gm := exp (np_mean (map (fun s => ln (s + 1e-10)) spectrum))) in *.
    assert (Ham : 0 < np_mean spectrum + 1e-10) by lra.
    split.
    + apply Rmult_le_pos; [lra | apply Rlt_le, Rinv_0_lt_compat, Ham].
    + apply (Rmult_le_reg_r (np_mean spectrum + 1e-10)); [exact Ham |].
      unfold Rdiv. rewrite Rmult_assoc, Rinv_l by lra. lra.
  - rewrite length_map.
    etransitivity; [apply filter_length_le |].
    apply firstn_le_length.
  - apply Forall_forall. intros y Hy. apply in_map_iff in Hy.
    destruct Hy as [i [<- Hi]]. apply filter_In in Hi.
    destruct Hi as [_ Hi]. apply Nat.ltb_lt in Hi.
    set (peak_freqs := map (fun i => nth i freqs 0) _) in *.
    assert (Hin : In (nth i peak_freqs 0) peak_freqs)
      by (apply nth_In; exact Hi).
    unfold peak_freqs in Hin at 2. apply in_map_iff in Hin.
    destruct Hin as [j [<- _]].
    destruct (Nat.lt_ge_cases j (length freqs)) as [Hj | Hj].
    + rewrite Forall_forall in Hfr0. apply Hfr0, nth_In, Hj.
    + rewrite nth_overflow by exact Hj. lra.
Qed.

Lemma spectrum_no_rate (data : list R) :
  spectrum_and_freqs data 0 = Raise ValueError.
Proof.
  unfold spectrum_and_freqs. cbv zeta.
  assert (Hseg : spectral_segment data 0 = []).
  { apply length_zero_iff_nil. rewrite spectral_segment_length. lia. }
  rewrite Hseg. reflexivity.
Qed.

(** X23. The spectral analyzer raises ValueError on an empty buffer and at
    a zero sample rate, the transform of zero points; on a non-empty buffer
    at a positive rate it returns, with centroid, bandwidth and rolloff
    between 0 and half the sample rate, flatness between 0 and 1, and at
    most five dominant frequencies, none above half the sample rate. *)
Theorem calculate_spectral_stats_outcome `{E : Env}
    (data : list R) (sample_rate : nat) :
  (data = [] \/ sample_rate = 0%nat ->
   calculate_spectral_stats data sample_rate = Raise ValueError) /\
  (data <> [] -> (0 < sample_rate)%nat ->
   exists s,
     calculate_spectral_stats data sample_rate = Ok s /\
     0 <= centroid_hz s <= INR sample_rate / 2 /\
     0 <= bandwidth_hz s <= INR sample_rate / 2 /\
     0 <= rolloff_hz s <= INR sample_rate / 2 /\
     0 <= flatness s <= 1 /\
     (length (dominant_freqs s) <= 5)%nat /\
     Forall (fun f => 0 <= f <= INR sample_rate / 2) (dominant_freqs s)).
Proof.
  split.
  - intros [-> | ->]; [apply spectral_stats_empty_raises |].
    unfold calculate_spectral_stats. rewrite spectrum_no_rate. reflexivity.
  - intros Hne Hsr.
    destruct (spectral_stats_defined data sample_rate Hne Hsr) as [s Hs].
    exists s. split; [exact Hs |].
    exact (spectral_stats_ranges data sample_rate s Hs).
Qed.

(** ** Loading and rate matching *)

Lemma load_and_resample_step `{E : Env}
    (path1 path2 : String.string) (a1 a2 : list R) (sr1 sr2 : nat) :
  load_audio path1 = Ok (a1, sr1) -> load_audio path2 = Ok (a2, sr2) ->
  load_and_resample path1 path2
  = (data1 <-
       (if negb (sr1 =? Nat.max sr1 sr2)%nat
        then resample_if_needed a1 sr1 (Nat.max sr1 sr2) else Ok a1) ;;
     data2 <-
       (if negb (sr2 =? Nat.max sr1 sr2)%nat
        then resample_if_needed a2 sr2 (Nat.max sr1 sr2) else Ok a2) ;;
     Ok (data1, data2, Nat.max sr1 sr2)).
Proof.
  intros H1 H2. unfold load_and_resample. rewrite H1, H2, !bind_Ok.
  reflexivity.
Qed.

Lemma rate_raised `{E : Env} (a : list R) (sr target : nat) (n : Z) :
  sr <> target -> a <> [] ->
  resample_new_length (length a) sr target = Ok n -> (0 < n)%Z ->
  exists d,
    (if negb (sr =? target)%nat
     then resample_if_needed a sr target else Ok a) = Ok d /\
    Z.of_nat (length d) = n.
Proof.
  intros Hne Ha Hn Hpos.
  destruct (Nat.eqb_spec sr target) as [Heq | _]; [contradiction |].
  cbn [negb]. exact (resample_if_needed_length a sr target n Hne Ha Hn Hpos).
Qed.

(** X24. Rate matching. Two readable files are brought to the higher of
    their two sample rates.  At equal rates both buffers are passed through
    untouched.  Otherwise the buffer at the higher rate is passed through
    untouched and the other is resampled: for a positive lower rate (and a
    length and a rate below [2 ^ 64]) the count
    [int(len / rate * target)] is computed in doubles, and a non-empty
    buffer with a count of at least one sample comes back with that many
    samples.  When exactly one of the two rates is zero the step raises
    ZeroDivisionError. *)
Theorem load_and_resample_outcome `{E : Env}
    (path1 path2 : String.string) (a1 a2 : list R) (sr1 sr2 : nat) :
  load_audio path1 = Ok (a1, sr1) -> load_audio path2 = Ok (a2, sr2) ->
  (sr1 = sr2 -> load_and_resample path1 path2 = Ok (a1, a2, sr1)) /\
  ((0 < sr2 < sr1)%nat -> a2 <> [] ->
   (Z.of_nat (length a2) < 2 ^ 64)%Z -> (Z.of_nat sr1 < 2 ^ 64)%Z ->
   exists n,
     resample_new_length (length a2) sr2 sr1 = Ok n /\ (0 <= n)%Z /\
     ((0 < n)%Z ->
      exists d2,
        load_and_resample path1 path2 = Ok (a1, d2, sr1) /\
        Z.of_nat (length d2) = n)) /\
  ((0 < sr1 < sr2)%nat -> a1 <> [] ->
   (Z.of_nat (length a1) < 2 ^ 64)%Z -> (Z.of_nat sr2 < 2 ^ 64)%Z ->
   exists n,
     resample_new_length (length a1) sr1 sr2 = Ok n /\ (0 <= n)%Z /\
     ((0 < n)%Z ->
      exists d1,
        load_and_resample path1 path2 = Ok (d1, a2, sr2) /\
        Z.of_nat (length d1) = n)) /\
  ((sr1 = 0%nat /\ (0 < sr2)%nat) \/ (sr2 = 0%nat /\ (0 < sr1)%nat) ->
   load_and_resample path1 path2 = Raise ZeroDivisionError).
Proof.
  intros H1 H2. rewrite (load_and_resample_step _ _ _ _ _ _ H1 H2).
  split; [| split; [| split]].
  - intros <-. rewrite Nat.max_id, Nat.eqb_refl. reflexivity.
  - intros Hsr Ha Hlen Ht.
    destruct (resample_new_length_defined (length a2) sr2 sr1
                ltac:(lia) Hlen Ht)
      as [_ [_ [n [_ [_ [_ [_ [Hn Hn0]]]]]]]].
    exists n. split; [exact Hn |]. split; [exact Hn0 |].
    intros Hpos.
    replace (Nat.max sr1 sr2) with sr1 by lia.
    destruct (rate_raised a2 sr2 sr1 n ltac:(lia) Ha Hn Hpos)
      as [d2 [Hd2 Hl2]].
    exists d2. rewrite Nat.eqb_refl, Hd2. split; [reflexivity | exact Hl2].
  - intros Hsr Ha Hlen Ht.
    destruct (resample_new_length_defined (length a1) sr1 sr2
                ltac:(lia) Hlen Ht)
      as [_ [_ [n [_ [_ [_ [_ [Hn Hn0]]]]]]]].
    exists n. split; [exact Hn |]. split; [exact Hn0 |].
    intros Hpos.
    replace (Nat.max sr1 sr2) with sr2 by lia.
    destruct (rate_raised a1 sr1 sr2 n ltac:(lia) Ha Hn Hpos)
      as [d1 [Hd1 Hl1]].
    exists d1. rewrite Nat.eqb_refl, Hd1. split; [reflexivity | exact Hl1].
  - intros [[-> Hs] | [-> Hs]].
    + destruct sr2 as [| n]; [lia | reflexivity].
    + destruct sr1 as [| n]; [lia |].
      rewrite Nat.max_0_r, Nat.eqb_refl. reflexivity.
Qed.

Lemma load_and_resample_outcome_witness :
  exists d2,
    load_and_resample
      (E := example_env (two_files (impulse, 200%nat) (impulse, 100%nat)))
      "a.wav"%string "b.wav"%string = Ok (impulse, d2, 200%nat) /\
    length d2 = 8%nat.
Proof.
  destruct (load_and_resample_outcome
              (E := example_env
                      (two_files (impulse, 200%nat) (impulse, 100%nat)))
              "a.wav"%string "b.wav"%string impulse impulse 200 100
              eq_refl eq_refl) as [_ [Hup _]].
  destruct (Hup ltac:(lia) ltac:(discriminate)
              ltac:(cbn [length impulse]; vm_compute; reflexivity)
              ltac:(vm_compute; reflexivity))
    as [n [Hn [_ Hout]]].
  assert (H8 : resample_new_length (length impulse) 100 200 = Ok 8%Z)
    by (cbn [length impulse]; vm_compute; reflexivity).
  rewrite H8 in Hn. injection Hn as <-.
  destruct (Hout ltac:(lia)) as [d2 [Hok Hl]].
  exists d2. split; [exact Hok | lia].
Defined.

(** X25. Loading. A mono file is passed through as read; a file with
    several channels is mixed down frame by frame to the mean of the
    channels, so the buffer has one sample per frame, a two-channel frame
    [l, r] gives [(l + r) / 2], and a sample never leaves the range the
    channels of the file stay in; an error of the reader is passed on. *)
Theorem load_audio_mixdown `{E : Env} (path : String.string) (sr : nat) :
  (forall samples,
     sf_read path = Ok (Array1 samples, sr) ->
     load_audio path = Ok (samples, sr)) /\
  (forall frames,
     sf_read path = Ok (Array2 frames, sr) ->
     exists data,
       load_audio path = Ok (data, sr) /\
       length data = length frames /\
       (forall i l r,
          nth_error frames i = Some [l; r] ->
          nth_error data i = Some ((l + r) / 2)) /\
       (forall lo hi,
          Forall (fun frame =>
                    frame <> [] /\ Forall (fun x => lo <= x <= hi) frame)
                 frames ->
          Forall (fun x => lo <= x <= hi) data)) /\
  (forall e, sf_read path = Raise e -> load_audio path = Raise e).
Proof.
  unfold load_audio. split; [| split].
  - intros samples ->. reflexivity.
  - intros frames ->. rewrite bind_Ok. cbv zeta. simpl fst. simpl snd.
    exists (map np_mean frames). split; [reflexivity |].
    split; [apply length_map |]. split.
    + intros i l r Hi. rewrite nth_error_map, Hi. simpl.
      f_equal. unfold np_mean. simpl. lra.
    + intros lo hi Hall. apply Forall_forall. intros y Hy.
      apply in_map_iff in Hy. destruct Hy as [frame [<- Hf]].
      rewrite Forall_forall in Hall. destruct (Hall frame Hf) as [Hne Hb].
      split.
      * apply np_mean_ge_bound; [exact Hne |].
        apply Forall_forall. intros x Hx. rewrite Forall_forall in Hb.
        apply Hb, Hx.
      * apply np_mean_le_bound; [exact Hne |].
        apply Forall_forall. intros x Hx. rewrite Forall_forall in Hb.
        apply Hb, Hx.
  - intros e ->. reflexivity.
Qed.

(** ** Inputs the comparison cannot handle *)



(** ** Peak normalisation of the aligned views *)








(** ** Alignment by cross-correlation *)

Lemma signal_correlate_full_length (a b : list R) :
  length (signal_correlate_full a b) = (length a + length b - 1)%nat.
Proof.
  unfold signal_correlate_full. cbv zeta.
  rewrite length_map, length_seq. reflexivity.
Qed.














(** ** The two aligners on a pair of clicks *)

Lemma argmax_from_keep (t : list R) (best_i i : nat) (best : R) :
  Forall (fun x => x <= best) t -> argmax_from best_i best i t = best_i.
Proof.
  revert i. induction t as [| x u IH]; intros i Hall; [reflexivity |].
  inversion Hall as [| ? ? Hx Hu]; subst. simpl.
  rewrite Rgtb_false by exact Hx. apply IH, Hu.
Qed.

Lemma argmax_from_first (t : list R) (best_i i p : nat) (best : R) :
  (p < length t)%nat -> nth p t 0 > best ->
  (forall q, (q < p)%nat -> nth q t 0 < nth p t 0) ->
  (forall q, (q < length t)%nat -> nth q t 0 <= nth p t 0) ->
  argmax_from best_i best i t = (i + p)%nat.
Proof.
  revert best_i i p best.
  induction t as [| x u IH]; intros best_i i p best Hp Hgt Hbefore Hall;
    [simpl in Hp; lia |].
  destruct p as [| p'].
  - simpl in Hgt. simpl. rewrite Rgtb_true by exact Hgt.
    rewrite argmax_from_keep; [lia |].
    apply Forall_forall. intros y Hy.
    destruct (In_nth _ _ 0 Hy) as [q [Hq <-]].
    apply (Hall (S q)). simpl. lia.
  - assert (Hx : x < nth p' u 0) by (apply (Hbefore 0%nat); lia).
    assert (Hb' : forall q, (q < p')%nat -> nth q u 0 < nth p' u 0)
      by (intros q Hq; apply (Hbefore (S q)); lia).
    assert (Ha' : forall q, (q < length u)%nat -> nth q u 0 <= nth p' u 0)
      by (intros q Hq; apply (Hall (S q)); simpl; lia).
    simpl in Hp, Hgt. simpl.
    destruct (Rgtb x best).
    + rewrite (IH i (S i) p' x); [lia | lia | exact Hx | exact Hb' | exact Ha'].
    + rewrite (IH best_i (S i) p' best);
        [lia | lia | exact Hgt | exact Hb' | exact Ha'].
Qed.

(** [np.argmax] answers the first index that holds the maximum. *)
Lemma np_argmax_first (a : list R) (p : nat) :
  (p < length a)%nat ->
  (forall q, (q < p)%nat -> nth q a 0 < nth p a 0) ->
  (forall q, (q < length a)%nat -> nth q a 0 <= nth p a 0) ->
  np_argmax a = Ok p.
Proof.
  intros Hp Hbefore Hall. destruct a as [| x t]; [simpl in Hp; lia |].
  unfold np_argmax. f_equal. destruct p as [| p'].
  - apply argmax_from_keep. apply Forall_forall. intros y Hy.
    destruct (In_nth _ _ 0 Hy) as [q [Hq <-]].
    apply (Hall (S q)). simpl. lia.
  - rewrite (argmax_from_first t 0 1 p' x); [reflexivity | | | |].
    + simpl in Hp. lia.
    + apply (Hbefore 0%nat). lia.
    + intros q Hq. apply (Hbefore (S q)). lia.
    + intros q Hq. apply (Hall (S q)). simpl. lia.
Qed.

Lemma unit_impulse_length (i p : nat) :
  length (unit_impulse i p) = (i + p + 1)%nat.
Proof.
  unfold unit_impulse. rewrite length_app, repeat_length. cbn [length].
  rewrite repeat_length. lia.
Qed.

Lemma unit_impulse_nth (i p l : nat) :
  nth l (unit_impulse i p) 0 = if (l =? i)%nat then 1 else 0.
Proof.
  unfold unit_impulse.
  destruct (Nat.lt_ge_cases l i) as [Hlt | Hge].
  - rewrite app_nth1 by (rewrite repeat_length; exact Hlt).
    rewrite nth_repeat.
    destruct (Nat.eqb_spec l i); [lia | reflexivity].
  - rewrite app_nth2 by (rewrite repeat_length; exact Hge).
    rewrite repeat_length.
    destruct (Nat.eqb_spec l i) as [-> | Hne].
    + rewrite Nat.sub_diag. reflexivity.
    + replace (l - i)%nat with (S (l - i - 1)) by lia. cbn [nth].
      apply nth_repeat.
Qed.

Lemma unit_impulse_nth_or_zero (j q : nat) (m : Z) :
  nth_or_zero (unit_impulse j q) m = if (m =? Z.of_nat j)%Z then 1 else 0.
Proof.
  unfold nth_or_zero. destruct (Z.ltb_spec m 0) as [Hneg | Hpos].
  - destruct (Z.eqb_spec m (Z.of_nat j)); [lia | reflexivity].
  - rewrite unit_impulse_nth.
    destruct (Nat.eqb_spec (Z.to_nat m) j);
      destruct (Z.eqb_spec m (Z.of_nat j)); try reflexivity; lia.
Qed.

Lemma select_sum (h : nat -> R) (i : nat) (n start : nat) :
  (start <= i < start + n)%nat ->
  np_sum (map (fun l => (if (l =? i)%nat then 1 else 0) * h l)
              (seq start n)) = h i.
Proof.
  revert start. induction n as [| n IH]; intros start Hi; [lia |].
  cbn [seq map]. change (np_sum (?x :: ?t)) with (x + np_sum t).
  destruct (Nat.eqb_spec start i) as [-> | Hne].
  - assert (Hz : forall m s, (i < s)%nat ->
              np_sum (map (fun l => (if (l =? i)%nat then 1 else 0) * h l)
                          (seq s m)) = 0).
    { induction m as [| m IHm]; intros s Hs; [reflexivity |].
      cbn [seq map]. change (np_sum (?x :: ?t)) with (x + np_sum t).
      rewrite IHm by lia.
      destruct (Nat.eqb_spec s i); [lia | lra]. }
    rewrite Hz by lia. lra.
  - rewrite IH by lia. lra.
Qed.

Lemma unit_impulse_energy (i p : nat) :
  np_sum (np_square (unit_impulse i p)) = 1.
Proof.
  unfold unit_impulse, np_square. rewrite map_app. cbn [map].
  assert (Hz : forall k, np_sum (map (fun x => x * x) (repeat 0 k)) = 0).
  { induction k as [| k IH]; simpl; [reflexivity | rewrite IH; lra]. }
  assert (Happ : forall a b, np_sum (a ++ b) = np_sum a + np_sum b).
  { induction a as [| x t IH]; intros b; simpl; [lra | rewrite IH; lra]. }
  rewrite Happ. change (np_sum (?x :: ?t)) with (x + np_sum t).
  rewrite !Hz. lra.
Qed.

(** The cross-correlation of two clicks is a click at the lag between
    them. *)
Lemma correlate_unit_impulses (i p j q k : nat) :
  (i + p = j + q)%nat -> (k < i + p + 1 + (i + p + 1) - 1)%nat ->
  nth k (signal_correlate_full (unit_impulse i p) (unit_impulse j q)) 0
  = if (Z.of_nat k =? Z.of_nat (i + p) + Z.of_nat i - Z.of_nat j)%Z
    then 1 else 0.
Proof.
  intros Hlen Hk. unfold signal_correlate_full. cbv zeta.
  rewrite !unit_impulse_length.
  replace (j + q + 1)%nat with (i + p + 1)%nat by lia.
  rewrite Nat.max_id.
  set (F := fun k0 : nat =>
              np_sum (map (fun l => nth l (unit_impulse i p) 0
                             * nth_or_zero (unit_impulse j q)
                                 (Z.of_nat l - Z.of_nat k0
                                  + Z.of_nat (i + p + 1) - 1))
                          (seq 0 (i + p + 1)))).
  rewrite (nth_indep _ 0 (F 0%nat)) by (rewrite length_map, length_seq; lia).
  rewrite (map_nth F), seq_nth by exact Hk. cbn [Nat.add]. unfold F.
  rewrite (map_ext _ (fun l =>
             (if (l =? i)%nat then 1 else 0)
             * nth_or_zero (unit_impulse j q)
                 (Z.of_nat l - Z.of_nat k + Z.of_nat (i + p + 1) - 1)))
    by (intros l; rewrite unit_impulse_nth; reflexivity).
  rewrite (select_sum (fun l =>
             nth_or_zero (unit_impulse j q)
               (Z.of_nat l - Z.of_nat k + Z.of_nat (i + p + 1) - 1)))
    by lia.
  rewrite unit_impulse_nth_or_zero.
  destruct (Z.eqb_spec (Z.of_nat i - Z.of_nat k + Z.of_nat (i + p + 1) - 1)
              (Z.of_nat j));
    destruct (Z.eqb_spec (Z.of_nat k)
                (Z.of_nat (i + p) + Z.of_nat i - Z.of_nat j));
    try reflexivity; lia.
Qed.

Lemma py_pow_below_one (y : R) : y < 0 -> py_pow 10 y < 1.
Proof.
  intros Hy. unfold py_pow, Rpower. rewrite <- exp_0.
  apply exp_increasing.
  assert (Hln : 0 < ln 10) by (rewrite <- ln_1; apply ln_increasing; lra).
  nra.
Qed.

Lemma find_first_transient_unit_impulse
    (i p sample_rate : nat) (threshold_db : R) :
  threshold_db < 0 ->
  find_first_transient (unit_impulse i p) sample_rate threshold_db = i.
Proof.
  intros Hthr.
  assert (HT : py_pow 10 (threshold_db / 20) < 1)
    by (apply py_pow_below_one; lra).
  unfold unit_impulse. rewrite find_first_transient_delayed.
  - unfold find_first_transient, np_where. cbv zeta. cbn [map where_from].
    rewrite Rgtb_true by (rewrite Rabs_R1; lra). lia.
  - constructor. rewrite Rabs_R1. lra.
Qed.

Lemma search_region_nth (z : list R) (ss se : Z) (t : nat) :
  (0 <= ss)%Z -> (se <= Z.of_nat (length z))%Z ->
  (Z.of_nat t < se - ss)%Z ->
  (t < length (np_abs (py_slice z ss se)))%nat /\
  nth t (np_abs (py_slice z ss se)) 0 = Rabs (nth (Z.to_nat ss + t) z 0).
Proof.
  intros Hss Hse Ht. unfold py_slice, slice. cbv zeta.
  destruct (Z.ltb_spec ss 0) as [Hn1 | _]; [lia |].
  destruct (Z.ltb_spec se 0) as [Hn2 | _]; [lia |].
  rewrite !Z.min_l by lia.
  assert (Hlen : (t < length (np_abs (firstn (Z.to_nat se - Z.to_nat ss)
                                        (skipn (Z.to_nat ss) z))))%nat).
  { unfold np_abs. rewrite length_map, length_firstn, length_skipn. lia. }
  split; [exact Hlen |].
  unfold np_abs in *.
  rewrite (nth_indep _ 0 (Rabs 0)) by exact Hlen.
  rewrite map_nth, nth_firstn, nth_skipn.
  destruct (Nat.ltb_spec t (Z.to_nat se - Z.to_nat ss)); [reflexivity | lia].
Qed.

(** X29. The two aligners on a pair of clicks. For two buffers of equal
    length (at most two seconds), each silent but for one unit click, at
    sample [i] in the reference and [j] in the target, with the distance
    inside the search window: the cross-correlation aligner answers the
    offset [i - j] with coefficient 1, and the transient aligner answers
    [j - i] for every threshold below 0 dB. A target that starts later gets
    a negative offset from the first and a positive one from the second. *)
Theorem aligners_on_clicks
    (i p j q sample_rate : nat) (max_offset_ms threshold_db : R) :
  (i + p = j + q)%nat -> (i + p + 1 <= sample_rate * 2)%nat ->
  (- py_int (max_offset_ms * INR sample_rate / 1000)
   <= Z.of_nat i - Z.of_nat j
   < py_int (max_offset_ms * INR sample_rate / 1000))%Z ->
  threshold_db < 0 ->
  find_alignment_offset (unit_impulse i p) (unit_impulse j q)
    max_offset_ms sample_rate
  = Ok ((Z.of_nat i - Z.of_nat j)%Z, 1) /\
  transient_offset (unit_impulse i p) (unit_impulse j q)
    sample_rate threshold_db
  = (Z.of_nat j - Z.of_nat i)%Z.
Proof.
  intros Hlen Hshort Hwin Hthr. split.
  2:{ unfold transient_offset.
      rewrite !find_first_transient_unit_impulse by exact Hthr.
      reflexivity. }
  unfold find_alignment_offset. cbv zeta.
  set (M := py_int (max_offset_ms * INR sample_rate / 1000)) in *.
  rewrite !unit_impulse_length.
  replace (j + q + 1)%nat with (i + p + 1)%nat by lia.
  rewrite Nat.min_id, Nat.min_l by lia.
  rewrite (firstn_all2 (unit_impulse i p))
    by (rewrite unit_impulse_length; lia).
  rewrite (firstn_all2 (unit_impulse j q))
    by (rewrite unit_impulse_length; lia).
  rewrite !unit_impulse_energy, unit_impulse_length.
  replace (j + q + 1)%nat with (i + p + 1)%nat by lia.
  set (n := (i + p + 1)%nat) in *.
  set (z := signal_correlate_full (unit_impulse i p) (unit_impulse j q)).
  assert (Hz : length z = (n + n - 1)%nat).
  { unfold z. rewrite signal_correlate_full_length, !unit_impulse_length.
    unfold n. lia. }
  assert (Hzk : forall k, (k < n + n - 1)%nat ->
            nth k z 0
            = if (Z.of_nat k =? Z.of_nat (i + p) + Z.of_nat i - Z.of_nat j)%Z
              then 1 else 0).
  { intros k Hk. unfold z. apply correlate_unit_impulses; [exact Hlen |].
    unfold n in Hk. exact Hk. }
  set (ss := Z.max 0 (Z.of_nat n - 1 - M)).
  set (se := Z.min (Z.of_nat (length z)) (Z.of_nat n - 1 + M)).
  set (K := (Z.of_nat (i + p) + Z.of_nat i - Z.of_nat j)%Z).
  assert (HK : (ss <= K < se)%Z) by (unfold ss, se, K; rewrite Hz; lia).
  assert (Hss : (0 <= ss)%Z) by (unfold ss; lia).
  assert (Hse : (se <= Z.of_nat (length z))%Z) by (unfold se; lia).
  assert (Hregion : forall t, (Z.of_nat t < se - ss)%Z ->
            (t < length (np_abs (py_slice z ss se)))%nat /\
            nth t (np_abs (py_slice z ss se)) 0
            = if (Z.of_nat t =? K - ss)%Z then 1 else 0).
  { intros t Ht.
    destruct (search_region_nth z ss se t Hss Hse Ht) as [Hl Hn].
    split; [exact Hl |]. rewrite Hn, Hzk by lia.
    fold K.
    destruct (Z.eqb_spec (Z.of_nat (Z.to_nat ss + t)) K);
      destruct (Z.eqb_spec (Z.of_nat t) (K - ss));
      try lia; [apply Rabs_R1 | apply Rabs_R0]. }
  assert (Hlenr : forall t, (t < length (np_abs (py_slice z ss se)))%nat ->
            (Z.of_nat t < se - ss)%Z).
  { intros t Ht. unfold np_abs, py_slice, slice in Ht. cbv zeta in Ht.
    rewrite length_map, length_firstn, length_skipn in Ht.
    destruct (Z.ltb_spec ss 0); [lia |].
    destruct (Z.ltb_spec se 0); lia. }
  assert (Hidx : np_argmax (np_abs (py_slice z ss se))
                 = Ok (Z.to_nat (K - ss))).
  { destruct (Hregion (Z.to_nat (K - ss)) ltac:(lia)) as [Hl Hv].
    rewrite Z2Nat.id, Z.eqb_refl in Hv by lia.
    apply np_argmax_first; [exact Hl | |].
    - intros t Ht. rewrite Hv.
      destruct (Hregion t ltac:(lia)) as [_ ->].
      destruct (Z.eqb_spec (Z.of_nat t) (K - ss)); [lia | lra].
    - intros t Ht. rewrite Hv.
      destruct (Hregion t (Hlenr t Ht)) as [_ ->].
      destruct (Z.of_nat t =? K - ss)%Z; lra. }
  rewrite Hidx, bind_Ok.
  rewrite Z2Nat.id by lia.
  replace (ss + (K - ss))%Z with K by lia.
  rewrite Hzk by lia. rewrite Z2Nat.id by lia. fold K.
  rewrite Z.eqb_refl, Rmult_1_l, sqrt_1, Rgtb_true by lra.
  f_equal. f_equal; [unfold K, n; lia | field].
Qed.

Lemma aligners_on_clicks_witness :
  find_alignment_offset (unit_impulse 0 4) (unit_impulse 1 3) 10 200
  = Ok ((-1)%Z, 1) /\
  transient_offset (unit_impulse 0 4) (unit_impulse 1 3) 200 (-60) = 1%Z.
Proof.
  assert (HM : py_int (10 * INR 200 / 1000) = 2%Z) by apply window_10ms_200.
  assert (Hwin : (- py_int (10 * INR 200 / 1000) <= Z.of_nat 0 - Z.of_nat 1
                  < py_int (10 * INR 200 / 1000))%Z)
    by (rewrite HM; lia).
  assert (Hthr : -60 < 0) by lra.
  exact (aligners_on_clicks 0 4 1 3 200 10 (-60) eq_refl
           ltac:(cbn; lia) Hwin Hthr).
Defined.

(** ** When a comparison returns *)





